(** * Observability ingestion pipeline: tail reader, parsers, event store,
      watcher patterns and the ingestor's debounce machine.

    A shallow embedding of [src/observability] (tail-reader.ts, parsers/*.ts,
    schema.ts, watcher.ts, ingestor.ts).

    Modelling conventions
    - JS strings and file contents are [string]s of 8-bit characters; the
      model is exact on ASCII text (UTF-8 decoding, UTF-16 code units and
      Unicode case/whitespace tables are not modelled).
    - Byte offsets, sizes and clock readings are integers ([Z]); the model
      is exact where a JS number is, below 2^53.
    - A thrown exception is the [Throw] outcome of [result]; code that can
      throw returns a [result].
    - The file system is a finite map from absolute paths to contents; a
      call sees one snapshot of it.
    - Asynchronous code is split at its [await]s; the event loop is a step
      machine whose steps are the runs between them. *)

From Stdlib Require Import ZArith Ascii String List Bool Lia DecimalString.
From stdpp Require Import base option list gmap strings.

Local Open Scope Z_scope.

(* ===================================================================== *)
(** * Part I. Definitions                                                 *)
(* ===================================================================== *)

(** ** JS string methods used by the sources *)

Definition LF : ascii := "010"%char.
Definition nl : string := String LF "".

(** [s.startsWith(p)] *)
Fixpoint startsWith (s p : string) : bool :=
  match p, s with
  | EmptyString, _ => true
  | String _ _, EmptyString => false
  | String b p', String a s' => if Ascii.eqb a b then startsWith s' p' else false
  end.

(** [s.endsWith(x)]: some suffix of [s] is [x]. *)
Fixpoint endsWith (s x : string) : bool :=
  if String.eqb s x then true
  else match s with
       | EmptyString => false
       | String _ s' => endsWith s' x
       end.

(** [s.includes(x)] *)
Fixpoint includes (s x : string) : bool :=
  if startsWith s x then true
  else match s with
       | EmptyString => false
       | String _ s' => includes s' x
       end.

Fixpoint strRev_go (s acc : string) : string :=
  match s with
  | EmptyString => acc
  | String a s' => strRev_go s' (String a acc)
  end.
Definition strRev (s : string) : string := strRev_go s "".

(** [s.split(sep)] for a non-empty separator.  [skip] counts the characters
    of a separator occurrence still to be consumed, [cur] is the piece being
    collected, reversed. *)
Fixpoint split_go (sep : string) (skip : nat) (cur : string) (s : string)
  : list string :=
  match s with
  | EmptyString => [strRev cur]
  | String a s' =>
      match skip with
      | S k => split_go sep k cur s'
      | O =>
          if startsWith s sep
          then strRev cur :: split_go sep (Nat.pred (String.length sep)) "" s'
          else split_go sep O (String a cur) s'
      end
  end.
Definition split (s sep : string) : list string := split_go sep 0 "" s.

(** [s.slice(0, n)] for [n >= 0] *)
Fixpoint sliceTo (n : nat) (s : string) : string :=
  match n, s with
  | S k, String a s' => String a (sliceTo k s')
  | _, _ => EmptyString
  end.

(** White space as [String.prototype.trim] sees it on ASCII text:
    TAB, LF, VT, FF, CR and SPACE. *)
Definition isWhiteSpace (a : ascii) : bool :=
  let n := nat_of_ascii a in
  ((9 <=? n)%nat && (n <=? 13)%nat) || (n =? 32)%nat.

Fixpoint trimStart (s : string) : string :=
  match s with
  | String a s' => if isWhiteSpace a then trimStart s' else s
  | EmptyString => EmptyString
  end.
Definition trimEnd (s : string) : string := strRev (trimStart (strRev s)).
(** [s.trim()] *)
Definition trim (s : string) : string := trimEnd (trimStart s).

Definition lowerChar (a : ascii) : ascii :=
  let n := nat_of_ascii a in
  if ((65 <=? n)%nat && (n <=? 90)%nat)%bool then ascii_of_nat (n + 32) else a.
(** [s.toLowerCase()] *)
Fixpoint toLowerCase (s : string) : string :=
  match s with
  | EmptyString => EmptyString
  | String a s' => String (lowerChar a) (toLowerCase s')
  end.

(** [s.replace(/\/$/, "")]: drop one trailing slash. *)
Fixpoint dropTrailingSlash (s : string) : string :=
  match s with
  | EmptyString => EmptyString
  | String a EmptyString => if Ascii.eqb a "/"%char then EmptyString else s
  | String a s' => String a (dropTrailingSlash s')
  end.
(** [s.replace(/^\//, "")]: drop one leading slash. *)
Definition dropLeadingSlash (s : string) : string :=
  match s with
  | String a s' => if Ascii.eqb a "/"%char then s' else s
  | EmptyString => EmptyString
  end.

(** [s.replace(/^\/+/, "")]: drop all leading slashes. *)
Fixpoint dropSlashes (s : string) : string :=
  match s with
  | String a s' => if Ascii.eqb a "/"%char then dropSlashes s' else s
  | EmptyString => EmptyString
  end.
(** [s.replace(/\/+$/, "")]: drop all trailing slashes. *)
Definition dropTrailingSlashes (s : string) : string := strRev (dropSlashes (strRev s)).

(** [lines.slice(0, -1)] *)
Definition dropLast {A} (l : list A) : list A := removelast l.

(** ** Tail reader (tail-reader.ts) *)

Module TailReader.

Definition DEFAULT_MAX_BYTES : Z := 1000000.

Record TailReadResult := {
  cursor : Z;          (* new cursor position (byte offset) after reading *)
  size : Z;            (* current file size *)
  lines : list string; (* lines read from the file *)
  truncated : bool;    (* the read was truncated due to size limits *)
  reset : bool         (* a file rotation was detected *)
}.

(** Where a read begins, with the two flags, as computed from the file size,
    the supplied cursor and the cap.  A supplied cursor is a byte offset, an
    integer; [None] stands for a cursor that is absent or not a finite
    number, which the source treats alike. *)
Record Window := { start : Z; w_reset : bool; w_truncated : bool }.

Definition window (size : Z) (cursor : option Z) (maxBytes : Z) : Window :=
  match (Z.max 0) <$> cursor with
  | Some cursor =>
      if size <? cursor
      then {| start := 0; w_reset := true; w_truncated := false |}
      else if maxBytes <? size - cursor
           then {| start := Z.max 0 (size - maxBytes);
                   w_reset := true; w_truncated := true |}
           else {| start := cursor; w_reset := false; w_truncated := false |}
  | None =>
      let start := Z.max 0 (size - maxBytes) in
      {| start := start; w_reset := false; w_truncated := 0 <? start |}
  end.

(** The lines the source extracts from the bytes [start, size) of a file:
    split at line feeds, drop the first piece when the read begins inside a
    line, drop one trailing empty piece. *)
Definition linesFrom (content : string) (start : Z) : list string :=
  let size := Z.of_nat (String.length content) in
  let prefix :=
    if 0 <? start then String.get (Z.to_nat (start - 1)) content else None in
  let length := Z.max 0 (size - start) in
  let text := String.substring (Z.to_nat start) (Z.to_nat length) content in
  let lines := split text nl in
  let lines :=
    if (0 <? start) && negb (bool_decide (prefix = Some LF))
    then drop 1 lines else lines in
  match last lines with
  | Some "" => dropLast lines
  | _ => lines
  end.

Definition readLogSlice (fs : gmap string string) (file : string)
    (cursor : option Z) (maxBytes : option Z) : TailReadResult :=
  let maxBytes := default DEFAULT_MAX_BYTES maxBytes in
  match fs !! file with
  | None =>
      {| cursor := 0; size := 0; lines := []; truncated := false; reset := false |}
  | Some content =>
      let size := Z.of_nat (String.length content) in
      let w := window size cursor maxBytes in
      if (size =? 0) || (size <=? start w)
      then {| cursor := size; size := size; lines := [];
              truncated := w_truncated w; reset := w_reset w |}
      else {| cursor := size; size := size; lines := linesFrom content (start w);
              truncated := w_truncated w; reset := w_reset w |}
  end.

Record NewLines := {
  nl_lines : list string;
  newCursor : Z;
  fileSize : Z;
  nl_reset : bool
}.

Definition readNewLines (fs : gmap string string) (file : string)
    (cursor : Z) (maxBytes : option Z) : NewLines :=
  let result := readLogSlice fs file (Some cursor) maxBytes in
  {| nl_lines := lines result; newCursor := TailReader.cursor result;
     fileSize := size result; nl_reset := reset result |}.

End TailReader.

(** ** Exceptions *)

Inductive Error :=
| TypeError      (* calling a method a value does not have *)
| RangeError     (* [toISOString] of an invalid date *)
| SyntaxError    (* [new RegExp] of an ill-formed pattern *)
| StoreError     (* a statement the storage engine rejects *)
| ClosedError.   (* [new Error("Ingestor is closed")] *)

Inductive result (A : Type) : Type :=
| Ok (a : A)
| Throw (e : Error).
Arguments Ok {A} a.
Arguments Throw {A} e.

Global Instance result_bind : MBind result := fun A B k r =>
  match r with
  | Ok a => k a
  | Throw e => Throw e
  end.
Global Instance result_ret : MRet result := fun A a => Ok a.

(** ** JS values

    What [JSON.parse] can return, and [undefined].  A number is the exact
    decimal [mant / 10^scale] its literal denotes (rounding to a double is not
    modelled). *)

Record number := { mant : Z; scale : nat }.

#[local] Set Warnings "-register-all".

Inductive value :=
| VUndef
| VNull
| VBool (b : bool)
| VNum (n : number)
| VStr (s : string)
| VArr (items : list value)
| VObj (fields : list (string * value)).

Definition intValue (n : number) : option Z :=
  let d := 10 ^ Z.of_nat (scale n) in
  if mant n mod d =? 0 then Some (mant n / d) else None.

(** Truthiness ([!v] is its negation). *)
Definition truthy (v : value) : bool :=
  match v with
  | VUndef | VNull => false
  | VBool b => b
  | VNum n => negb (mant n =? 0)
  | VStr s => negb (String.eqb s "")
  | VArr _ | VObj _ => true
  end.

Definition isString (v : value) : bool := match v with VStr _ => true | _ => false end.
Definition isNumber (v : value) : bool := match v with VNum _ => true | _ => false end.
(** [typeof v === "object"] *)
Definition isObject (v : value) : bool :=
  match v with VNull | VArr _ | VObj _ => true | _ => false end.
Definition isUndefined (v : value) : bool := match v with VUndef => true | _ => false end.
(** [v === "s"] *)
Definition isStr (v : value) (s : string) : bool :=
  match v with VStr x => String.eqb x s | _ => false end.
Definition isNull (v : value) : bool := match v with VNull => true | _ => false end.
(** [Array.isArray(v)] *)
Definition isArray (v : value) : bool := match v with VArr _ => true | _ => false end.
(** [v == null] *)
Definition isNullish (v : value) : bool :=
  match v with VUndef | VNull => true | _ => false end.

(** Own property of a parsed object; a repeated key holds its last value. *)
Fixpoint lookupField (fields : list (string * value)) (k : string) : value :=
  match fields with
  | [] => VUndef
  | (k', v) :: rest =>
      match lookupField rest k with
      | VUndef => if String.eqb k' k then v else VUndef
      | found => found
      end
  end.

(** [Object.hasOwn(v, k)] for a parsed object with these fields. *)
Definition hasOwn (fields : list (string * value)) (k : string) : bool :=
  existsb (fun field => String.eqb (fst field) k) fields.

(** [v.k] for the property names the parsers read.  None of them is an
    array index, [length] or a property of a prototype, so on everything but
    a plain object the access gives [undefined]. *)
Definition getProp (v : value) (k : string) : value :=
  match v with
  | VObj fields => lookupField fields k
  | _ => VUndef
  end.
(** [v?.k] *)
Definition getPropOpt (v : value) (k : string) : value :=
  if isNullish v then VUndef else getProp v k.
(** [a ?? b] *)
Definition nullish (a b : value) : value := if isNullish a then b else a.

(** The built-ins of the runtime that the parsers call. *)
Class Host := {
  (** [JSON.parse]; [None] when it throws. *)
  JSON_parse : string -> option value;
  (** [String(n)] for a number that is not an integer below [10^21]. *)
  Number_toString : number -> string;
  (** [Date.parse]: the time value of a date string, [None] for [NaN]. *)
  Date_parse : string -> option Z;
  (** [toISOString] of a valid time value (milliseconds since the epoch). *)
  Date_toISOString : Z -> string
}.

Definition Z_toString (z : Z) : string :=
  DecimalString.NilEmpty.string_of_int (Z.to_int z).

Fixpoint join (sep : string) (l : list string) : string :=
  match l with
  | [] => ""
  | [x] => x
  | x :: rest => x +:+ sep +:+ join sep rest
  end.

Section Runtime.
Context `{Host}.

Definition numberToString (n : number) : string :=
  match intValue n with
  | Some z => if Z.abs z <? 10 ^ 21 then Z_toString z else Number_toString n
  | None => Number_toString n
  end.

(** [String(v)], the conversion a template literal applies.  A parsed object
    inherits [toString] from [Object.prototype] unless it has a key of that
    name; the value of such a key is not a function, [valueOf] gives the
    object back, and the conversion throws.  An array joins the conversions
    of its items, the empty text standing for [null]. *)
Fixpoint toString (v : value) : result string :=
  match v with
  | VUndef => Ok "undefined"
  | VNull => Ok "null"
  | VBool true => Ok "true"
  | VBool false => Ok "false"
  | VNum n => Ok (numberToString n)
  | VStr s => Ok s
  | VArr items =>
      pieces ← (fix each (items : list value) : result (list string) :=
                  match items with
                  | [] => Ok []
                  | x :: rest =>
                      piece ← (if isNullish x then Ok "" else toString x);
                      pieces ← each rest;
                      Ok (piece :: pieces)
                  end) items;
      Ok (join "," pieces)
  | VObj fields =>
      if hasOwn fields "toString" then Throw TypeError else Ok "[object Object]"
  end.

Definition timeClip (t : Z) : option Z :=
  if Z.abs t <=? 8640000000000000 then Some t else None.

(** The time value of [new Date(v)]; [None] is an invalid date.  An array or
    an object is converted to a primitive first, which is its text. *)
Definition dateValue (v : value) : result (option Z) :=
  match v with
  | VUndef => Ok None
  | VNull => Ok (Some 0)
  | VBool b => Ok (Some (if b then 1 else 0))
  | VNum n => Ok (timeClip (Z.quot (mant n) (10 ^ Z.of_nat (scale n))))
  | VStr s => Ok (t ← Date_parse s; timeClip t)
  | VArr _ | VObj _ => s ← toString v; Ok (t ← Date_parse s; timeClip t)
  end.

(** [new Date(v).toISOString()] *)
Definition dateToISOString (v : value) : result string :=
  t ← dateValue v;
  match t with
  | Some t => Ok (Date_toISOString t)
  | None => Throw RangeError
  end.

End Runtime.

(** ** Parsers (parsers/index.ts, cache-trace.ts, system-log.ts, session.ts) *)

Inductive SourceType := SystemLog | CacheTrace | Session.

Global Instance SourceType_eq_dec : EqDecision SourceType.
Proof. solve_decision. Defined.

Record ParsedEvent := {
  ts : value;
  sourceType : SourceType;
  sourceFile : string;
  eventType : string;
  level : option string;
  sessionId : value;
  agentId : option string;
  runId : value;
  provider : value;
  modelId : value;
  role : value;
  messagePreview : value;
  rawJson : string
}.

Record LogParser := {
  parser_sourceType : SourceType;
  (** [parseLine(line, sourceFile)], given the clock reading [now]. *)
  parseLine : Z -> string -> string -> result (option ParsedEvent)
}.

Definition optString (o : option string) : value :=
  match o with Some s => VStr s | None => VUndef end.

Definition MAX_PREVIEW : nat := 500.

Section Parsers.
Context `{Host}.

(** *** cache-trace.ts *)

Definition isCacheTraceEvent (v : value) : bool :=
  if negb (truthy v) || negb (isObject v) then false
  else isString (getProp v "ts") && isNumber (getProp v "seq")
       && isString (getProp v "stage").

(** [messagePreview?.slice(0, 500)]: strings and arrays have [slice]; on any
    other value that is not nullish the call throws. *)
Definition previewSlice (v : value) : result value :=
  match v with
  | VUndef | VNull => Ok VUndef
  | VStr s => Ok (VStr (sliceTo MAX_PREVIEW s))
  | VArr items => Ok (VArr (take MAX_PREVIEW items))
  | VBool _ | VNum _ | VObj _ => Throw TypeError
  end.

Definition parseCacheTraceLine (now : Z) (line sourceFile : string)
  : result (option ParsedEvent) :=
  let trimmed := trim line in
  if String.eqb trimmed "" || negb (startsWith trimmed "{") then Ok None else
  match JSON_parse trimmed with
  | None => Ok None
  | Some entry =>
      if negb (isCacheTraceEvent entry) then Ok None else
      messagePreview ←
        (if truthy (getProp entry "note") then Ok (getProp entry "note")
         else if truthy (getProp entry "error")
         then error ← toString (getProp entry "error");
              Ok (VStr ("error: " +:+ error))
         else if negb (isUndefined (getProp entry "messageCount"))
         then messageCount ← toString (getProp entry "messageCount");
              Ok (VStr ("messages: " +:+ messageCount))
         else Ok VUndef);
      stage ← toString (getProp entry "stage");
      preview ← previewSlice messagePreview;
      Ok (Some {| ts := getProp entry "ts";
                  sourceType := CacheTrace;
                  sourceFile := sourceFile;
                  eventType := "cache:" +:+ stage;
                  level := None;
                  sessionId := getProp entry "sessionId";
                  agentId := None;
                  runId := getProp entry "runId";
                  provider := getProp entry "provider";
                  modelId := getProp entry "modelId";
                  role := VUndef;
                  messagePreview := preview;
                  rawJson := trimmed |})
  end.

Definition cacheTraceParser : LogParser :=
  {| parser_sourceType := CacheTrace; parseLine := parseCacheTraceLine |}.

(** *** system-log.ts *)

Definition LOG_LEVEL_MAP (n : number) : option string :=
  match intValue n with
  | Some 0 => Some "silly"
  | Some 1 => Some "trace"
  | Some 2 => Some "debug"
  | Some 3 => Some "info"
  | Some 4 => Some "warn"
  | Some 5 => Some "error"
  | Some 6 => Some "fatal"
  | _ => None
  end.

(** [v.toLowerCase()] on a truthy [v]: only a string has the method. *)
Definition callToLowerCase (v : value) : result (option string) :=
  match v with
  | VStr s => Ok (Some (toLowerCase s))
  | _ => Throw TypeError
  end.

Definition extractLogLevel (entry : value) : result (option string) :=
  let meta := getProp entry "_meta" in
  if truthy (getPropOpt meta "logLevelName")
  then callToLowerCase (getProp meta "logLevelName")
  else if truthy (getProp entry "logLevelName")
  then callToLowerCase (getProp entry "logLevelName")
  else
    let levelId := nullish (getPropOpt meta "logLevelId") (getProp entry "logLevel") in
    match levelId with
    | VNum n => Ok (LOG_LEVEL_MAP n)
    | _ => Ok None
    end.

Definition extractTimestamp (now : Z) (entry : value) : value :=
  let meta := getProp entry "_meta" in
  if truthy (getPropOpt meta "date") then getProp meta "date"
  else if truthy (getProp entry "date") && isString (getProp entry "date")
  then getProp entry "date"
  else VStr (Date_toISOString now).

Definition extractMessage (entry : value) : option string :=
  match getProp entry "message", getProp entry "msg", getProp entry "0" with
  | VStr (String a m), _, _ => Some (String a m)
  | _, VStr (String a m), _ => Some (String a m)
  | _, _, VStr s => Some s
  | _, _, firstArg =>
      if truthy firstArg && isObject firstArg
      then match getProp firstArg "message" with
           | VStr s => Some s
           | _ => None
           end
      else None
  end.

Definition extractSubsystem (entry : value) : value :=
  let meta := getProp entry "_meta" in
  if truthy (getPropOpt meta "name") then getProp meta "name"
  else if truthy (getProp entry "subsystem") && isString (getProp entry "subsystem")
  then getProp entry "subsystem"
  else VUndef.

Definition parseSystemLogLine (now : Z) (line sourceFile : string)
  : result (option ParsedEvent) :=
  let trimmed := trim line in
  if String.eqb trimmed "" || negb (startsWith trimmed "{") then Ok None else
  match JSON_parse trimmed with
  | None => Ok None
  | Some entry =>
      if negb (truthy entry) || negb (isObject entry) then Ok None else
      let ts := extractTimestamp now entry in
      level ← extractLogLevel entry;
      let message := extractMessage entry in
      let subsystem := extractSubsystem entry in
      eventType ←
        (if truthy subsystem
         then name ← toString subsystem; Ok ("log:" +:+ name)
         else Ok "log");
      Ok (Some {| ts := ts;
                  sourceType := SystemLog;
                  sourceFile := sourceFile;
                  eventType := eventType;
                  level := level;
                  sessionId := VUndef;
                  agentId := None;
                  runId := VUndef;
                  provider := VUndef;
                  modelId := VUndef;
                  role := VUndef;
                  messagePreview := optString (sliceTo MAX_PREVIEW <$> message);
                  rawJson := trimmed |})
  end.

Definition systemLogParser : LogParser :=
  {| parser_sourceType := SystemLog; parseLine := parseSystemLogLine |}.

(** *** session.ts *)

Definition isSessionHeader (v : value) : bool :=
  if negb (truthy v) || negb (isObject v) then false
  else isStr (getProp v "type") "session"
       && isNumber (getProp v "version") && isString (getProp v "id").

Definition isSessionMessage (v : value) : bool :=
  if negb (truthy v) || negb (isObject v) then false
  else isStr (getProp v "type") "message"
       && negb (isNull (getProp v "message"))
       && isObject (getProp v "message").

Fixpoint firstTextBlock (blocks : list value) : option string :=
  match blocks with
  | [] => None
  | block :: rest =>
      if negb (truthy block) || negb (isObject block) then firstTextBlock rest
      else if isStr (getProp block "type") "text"
      then match getProp block "text" with
           | VStr text => Some (sliceTo MAX_PREVIEW text)
           | _ => firstTextBlock rest
           end
      else firstTextBlock rest
  end.

Definition extractTextPreview (content : value) : option string :=
  match content with
  | VStr s => Some (sliceTo MAX_PREVIEW s)
  | VArr blocks => firstTextBlock blocks
  | _ => None
  end.

(** The longest run of characters other than [/] at the head of [s], and
    what follows it. *)
Fixpoint spanSegment (s : string) : string * string :=
  match s with
  | EmptyString => ("", "")
  | String a s' =>
      if Ascii.eqb a "/"%char then ("", s)
      else let '(seg, rest) := spanSegment s' in (String a seg, rest)
  end.

(** [sourceFile.match(/agents\/([^/]+)\/sessions\//)?.[1]]: the leftmost
    [agents/<id>/sessions/], [<id>] a non-empty path segment. *)
Fixpoint extractAgentIdFromPath (sourceFile : string) : option string :=
  let here :=
    if startsWith sourceFile "agents/"
    then let '(seg, rest) :=
           spanSegment (String.substring 7 (String.length sourceFile) sourceFile) in
         if negb (String.eqb seg "") && startsWith rest "/sessions/"
         then Some seg else None
    else None in
  match here, sourceFile with
  | Some seg, _ => Some seg
  | None, String _ s' => extractAgentIdFromPath s'
  | None, EmptyString => None
  end.

Definition parseSessionLine (now : Z) (line sourceFile : string)
  : result (option ParsedEvent) :=
  let trimmed := trim line in
  if String.eqb trimmed "" || negb (startsWith trimmed "{") then Ok None else
  match JSON_parse trimmed with
  | None => Ok None
  | Some entry =>
      if negb (truthy entry) || negb (isObject entry)
         || negb (truthy (getProp entry "type"))
      then Ok None else
      let agentId := extractAgentIdFromPath sourceFile in
      if isSessionHeader entry then
        Ok (Some {| ts := getProp entry "timestamp";
                    sourceType := Session;
                    sourceFile := sourceFile;
                    eventType := "session:start";
                    level := None;
                    sessionId := getProp entry "id";
                    agentId := agentId;
                    runId := VUndef;
                    provider := VUndef;
                    modelId := VUndef;
                    role := VUndef;
                    messagePreview := VUndef;
                    rawJson := trimmed |})
      else if isSessionMessage entry then
        let msg := getProp entry "message" in
        ts ← (if truthy (getProp msg "timestamp")
              then dateToISOString (getProp msg "timestamp")
              else Ok (Date_toISOString now));
        role ← toString (getProp msg "role");
        Ok (Some {| ts := VStr ts;
                    sourceType := Session;
                    sourceFile := sourceFile;
                    eventType := "session:message:" +:+ role;
                    level := None;
                    sessionId := VUndef;
                    agentId := agentId;
                    runId := VUndef;
                    provider := getProp msg "provider";
                    modelId := getProp msg "model";
                    role := getProp msg "role";
                    messagePreview := optString (extractTextPreview (getProp msg "content"));
                    rawJson := trimmed |})
      else
        type ← toString (getProp entry "type");
        Ok (Some {| ts := VStr (Date_toISOString now);
                    sourceType := Session;
                    sourceFile := sourceFile;
                    eventType := "session:" +:+ type;
                    level := None;
                    sessionId := VUndef;
                    agentId := agentId;
                    runId := VUndef;
                    provider := VUndef;
                    modelId := VUndef;
                    role := VUndef;
                    messagePreview := VUndef;
                    rawJson := trimmed |})
  end.

Definition sessionParser : LogParser :=
  {| parser_sourceType := Session; parseLine := parseSessionLine |}.

(** *** index.ts *)

Definition PARSERS (sourceType : SourceType) : LogParser :=
  match sourceType with
  | SystemLog => systemLogParser
  | CacheTrace => cacheTraceParser
  | Session => sessionParser
  end.

(** [getParser]: the registry has an entry for every source type, so the
    "Unknown source type" branch is not reachable. *)
Definition getParser (sourceType : SourceType) : LogParser := PARSERS sourceType.

(** [parseLines]: one clock reading serves the whole call. *)
Fixpoint parseLines (now : Z) (parser : LogParser) (lines : list string)
    (sourceFile : string) : result (list ParsedEvent) :=
  match lines with
  | [] => Ok []
  | line :: rest =>
      event ← parseLine parser now line sourceFile;
      events ← parseLines now parser rest sourceFile;
      Ok (match event with
          | Some e => e :: events
          | None => events
          end)
  end.

End Parsers.

(** ** State and exceptions

    Code that reads and writes a state [S] and may throw is a function from
    the state to the state it leaves and its outcome. *)

Definition M (S A : Type) : Type := S -> S * result A.

Definition ret {S A} (a : A) : M S A := fun s => (s, Ok a).
Definition throw {S A} (e : Error) : M S A := fun s => (s, Throw e).
Definition bindM {S A B} (m : M S A) (k : A -> M S B) : M S B :=
  fun s => match m s with
           | (s', Ok a) => k a s'
           | (s', Throw e) => (s', Throw e)
           end.
Definition gets {S A} (f : S -> A) : M S A := fun s => (s, Ok (f s)).
Definition modify {S} (f : S -> S) : M S unit := fun s => (f s, Ok tt).
(** [try { m } catch (err) { h; }]: the handler runs in the state the throw
    left, and what it returns is the outcome. *)
Definition tryCatch {S A} (m : M S A) (h : Error -> M S A) : M S A :=
  fun s => match m s with
           | (s', Ok a) => (s', Ok a)
           | (s', Throw e) => h e s'
           end.
(** [try { m } finally { f }] *)
Definition tryFinally {S A} (m : M S A) (f : M S unit) : M S A :=
  fun s => match m s with
           | (s', r) => match f s' with
                        | (s'', Ok _) => (s'', r)
                        | (s'', Throw e) => (s'', Throw e)
                        end
           end.
(** A pure computation that may throw. *)
Definition liftR {S A} (r : result A) : M S A := fun s => (s, r).

Declare Scope M_scope.
Delimit Scope M_scope with M.
Notation "x <~ m ;; k" := (bindM m (fun x => k))
  (at level 100, m at next level, right associativity) : M_scope.
Notation "m ;;; k" := (bindM m (fun _ => k))
  (at level 100, right associativity) : M_scope.

(** ** Event store (schema.ts) *)

(** A row of [tracked_files]; [path] is the key of the table. *)
Record TrackedRow := {
  source_type : SourceType;
  byte_offset : Z;
  last_seen_at : Z;
  file_size : Z
}.

(** The event as [insertEvents] hands it to [insertEventsBatch]. *)
Abbreviation DbEvent := ParsedEvent.

(** A row of [events], as bound to the insert statement; the [id] column is
    the position in the table. *)
Record Row := {
  r_ts : value;
  r_source_type : SourceType;
  r_source_file : string;
  r_event_type : string;
  r_level : value;
  r_session_id : value;
  r_agent_id : value;
  r_run_id : value;
  r_provider : value;
  r_model_id : value;
  r_role : value;
  r_message_preview : value;
  r_raw_json : string;
  r_ingested_at : Z
}.

(** The database: the two tables, and the [events] table as it was when the
    open transaction began ([None] outside a transaction; only [events] is
    written inside one). *)
Record Db := {
  tracked_files : gmap string TrackedRow;
  events : list Row;
  journal : option (list Row)
}.

Definition emptyDb : Db :=
  {| tracked_files := ∅; events := []; journal := None |}.

(** The storage engine: which insert it refuses, given the table and the row
    (a constraint violation, a value that cannot be bound, an I/O error). *)
Class Engine := {
  stmt_run_fails : list Row -> Row -> bool
}.

Record TrackedParams := {
  p_path : string;
  p_sourceType : SourceType;
  p_byteOffset : Z;
  p_fileSize : Z
}.

(** [INSERT ... ON CONFLICT(path) DO UPDATE SET byte_offset, last_seen_at,
    file_size]: an existing row keeps its [source_type]. *)
Definition updateTrackedFile (now : Z) (params : TrackedParams) : M Db unit :=
  modify (fun db =>
    let row :=
      match tracked_files db !! p_path params with
      | Some old => {| source_type := source_type old;
                       byte_offset := p_byteOffset params;
                       last_seen_at := now;
                       file_size := p_fileSize params |}
      | None => {| source_type := p_sourceType params;
                   byte_offset := p_byteOffset params;
                   last_seen_at := now;
                   file_size := p_fileSize params |}
      end in
    {| tracked_files := <[p_path params := row]> (tracked_files db);
       events := events db;
       journal := journal db |}).

Record TrackedCursor := { byteOffset : Z; fileSize : Z }.

(** [SELECT byte_offset, file_size ... WHERE path = ?]: the row of the
    path, if there is one.  The engine hands an integer column over as a JS
    number and refuses one beyond 2^53 with a RangeError; the offsets and
    sizes of the model are taken to be below that (see the conventions). *)
Definition getTrackedFile (db : Db) (filePath : string) : option TrackedCursor :=
  row ← tracked_files db !! filePath;
  Some {| byteOffset := byte_offset row; fileSize := file_size row |}.

(** [v ?? null] *)
Definition orNull (v : value) : value := nullish v VNull.

Definition rowOf (now : Z) (event : DbEvent) : Row :=
  {| r_ts := ts event;
     r_source_type := sourceType event;
     r_source_file := sourceFile event;
     r_event_type := eventType event;
     r_level := orNull (optString (level event));
     r_session_id := orNull (sessionId event);
     r_agent_id := orNull (optString (agentId event));
     r_run_id := orNull (runId event);
     r_provider := orNull (provider event);
     r_model_id := orNull (modelId event);
     r_role := orNull (role event);
     r_message_preview := orNull (messagePreview event);
     r_raw_json := rawJson event;
     r_ingested_at := now |}.

Section Store.
Context `{Engine}.

(** [db.exec("BEGIN")]; a transaction inside a transaction is refused. *)
Definition execBegin : M Db unit := fun db =>
  match journal db with
  | Some _ => (db, Throw StoreError)
  | None => ({| tracked_files := tracked_files db; events := events db;
                journal := Some (events db) |}, Ok tt)
  end.

Definition execCommit : M Db unit :=
  modify (fun db => {| tracked_files := tracked_files db; events := events db;
                       journal := None |}).

Definition execRollback : M Db unit :=
  modify (fun db => {| tracked_files := tracked_files db;
                       events := default (events db) (journal db);
                       journal := None |}).

(** [stmt.run(...)] of the insert statement *)
Definition stmtRun (row : Row) : M Db unit := fun db =>
  if stmt_run_fails (events db) row then (db, Throw StoreError)
  else ({| tracked_files := tracked_files db; events := events db ++ [row];
           journal := journal db |}, Ok tt).

(** [for (const event of events) stmt.run(...)] *)
Fixpoint runAll (now : Z) (evs : list DbEvent) : M Db unit :=
  match evs with
  | [] => ret tt
  | event :: rest => (stmtRun (rowOf now event) ;;; runAll now rest)%M
  end.

Definition insertEventsBatch (now : Z) (evs : list DbEvent) : M Db unit :=
  match evs with
  | [] => ret tt
  | _ =>
      (execBegin ;;;
       tryCatch (runAll now evs ;;; execCommit)
                (fun err => execRollback ;;; throw err))%M
  end.

End Store.

(** ** Watcher (watcher.ts) *)

Record WatchedPath := {
  pattern : string;
  wp_sourceType : SourceType
}.

Inductive ChangeKind := Add | Change | Unlink.

Record FileChangeEvent := {
  fc_path : string;
  fc_sourceType : SourceType;
  fc_eventType : ChangeKind
}.

(** [path.sep] on the platform the pipeline runs on. *)
Definition sep : string := "/".

(** The regular expression that the single-star branch of [matchesPattern]
    builds.  The characters [. + ^ $ { } ( ) | [ ] \] are escaped and match
    themselves, a star becomes [[^/]*], and [?] is left as it is: it makes the
    item before it optional (a second one makes that lazy), and with nothing
    to repeat before it [new RegExp] throws. *)
Inductive RegexItem :=
| Lit (c : ascii)        (* the character itself *)
| Opt (c : ascii)        (* [c?] *)
| NonSlashes.            (* [[^/]*] *)

(** [quant] says how many [?] may still follow the last item: 2 after a
    character, 1 after a star or an optional character, 0 at the start and
    after a lazy quantifier. *)
Fixpoint compileGlob (p : string) (quant : nat) (acc : list RegexItem)
  : option (list RegexItem) :=
  match p with
  | EmptyString => Some (rev acc)
  | String c p' =>
      if Ascii.eqb c "*"%char then compileGlob p' 1%nat (NonSlashes :: acc)
      else if Ascii.eqb c "?"%char then
        match quant, acc with
        | 2%nat, Lit a :: acc' => compileGlob p' 1%nat (Opt a :: acc')
        | 1%nat, _ => compileGlob p' 0%nat acc
        | _, _ => None
        end
      else compileGlob p' 2%nat (Lit c :: acc)
  end.

(** [regex.test(s)] for the anchored expression [^items$]. *)
Fixpoint matchItems (items : list RegexItem) (s : string) : bool :=
  match items with
  | [] => String.eqb s ""
  | Lit c :: rest =>
      match s with
      | String a s' => Ascii.eqb a c && matchItems rest s'
      | EmptyString => false
      end
  | Opt c :: rest =>
      matchItems rest s
      || match s with
         | String a s' => Ascii.eqb a c && matchItems rest s'
         | EmptyString => false
         end
  | NonSlashes :: rest =>
      (fix star (s : string) : bool :=
         matchItems rest s
         || match s with
            | String a s' => negb (Ascii.eqb a "/"%char) && star s'
            | EmptyString => false
            end) s
  end.

Definition matchesPattern (filePath pattern : string) : result bool :=
  (* exact file paths *)
  if negb (includes pattern "*") then
    Ok (String.eqb filePath pattern || startsWith filePath (pattern +:+ sep))
  (* ** glob patterns *)
  else if includes pattern "**" then
    let parts := split pattern "**" in
    let prefix := dropTrailingSlash (nth 0 parts "") in
    let suffix := dropLeadingSlash (nth 1 parts "") in
    let matchesPrefix := String.eqb prefix "" || startsWith filePath prefix in
    let matchesSuffix := String.eqb suffix "" || endsWith filePath suffix in
    Ok (matchesPrefix && matchesSuffix)
  (* single * patterns *)
  else
    match compileGlob pattern 0%nat [] with
    | None => Throw SyntaxError
    | Some items => Ok (matchItems items filePath)
    end.

(** The loop of [resolveSourceType] (watcher.ts) and of
    [getSourceTypeForFile] (ingestor.ts): the first descriptor whose pattern
    matches. *)
Fixpoint getSourceTypeForFile (watchedPaths : list WatchedPath) (filePath : string)
  : result (option SourceType) :=
  match watchedPaths with
  | [] => Ok None
  | wp :: rest =>
      m ← matchesPattern filePath (pattern wp);
      if m : bool then Ok (Some (wp_sourceType wp))
      else getSourceTypeForFile rest filePath
  end.

(** [emitEvent] of the watcher: the event handed to the callback, if any.  A
    throw inside the listener does not reach the callback. *)
Definition emitEvent (watchedPaths : list WatchedPath) (eventType : ChangeKind)
    (filePath : string) : option FileChangeEvent :=
  match getSourceTypeForFile watchedPaths filePath with
  | Ok (Some sourceType) =>
      Some {| fc_path := filePath; fc_sourceType := sourceType;
              fc_eventType := eventType |}
  | _ => None
  end.

(** ** Ingestor (ingestor.ts) *)

Definition DEFAULT_BATCH_SIZE : positive := 100%positive.

(** [path.join] of a directory in normal form (absolute, no trailing
    separator) with relative segments. *)
Definition pathJoin (dir rel : string) : string := dir +:+ sep +:+ rel.

(** Session logs: [<stateDir>/agents/**/sessions/*.jsonl] *)
Definition sessionPattern (stateDir : string) : string :=
  pathJoin stateDir "agents/**/sessions/*.jsonl".

Definition getDefaultWatchedPaths (stateDir : string) : list WatchedPath :=
  [ {| pattern := sessionPattern stateDir;
       wp_sourceType := Session |};
    {| pattern := pathJoin stateDir "logs/cache-trace.jsonl";
       wp_sourceType := CacheTrace |};
    {| pattern := "/tmp/openclaw/openclaw-*.log";
       wp_sourceType := SystemLog |} ].

(** The instance.  [watcher] and [ingestTimer] record whether the handle is
    set; [pendingFiles] is the set in insertion order.  [batchSize] is
    positive: the batching loop does not end otherwise. *)
Record Ingestor := {
  db : Db;
  watchedPaths : list WatchedPath;
  batchSize : positive;
  watcher : bool;
  pendingFiles : list string;
  ingestTimer : bool;
  processing : bool;
  closed : bool
}.

Definition newIngestor (watchedPaths : option (list WatchedPath))
    (batchSize : option positive) (stateDir : string) : Ingestor :=
  {| db := emptyDb;
     watchedPaths := default (getDefaultWatchedPaths stateDir) watchedPaths;
     batchSize := default DEFAULT_BATCH_SIZE batchSize;
     watcher := false;
     pendingFiles := [];
     ingestTimer := false;
     processing := false;
     closed := false |}.

Definition setDb (d : Db) (i : Ingestor) : Ingestor :=
  {| db := d; watchedPaths := watchedPaths i; batchSize := batchSize i;
     watcher := watcher i; pendingFiles := pendingFiles i;
     ingestTimer := ingestTimer i; processing := processing i;
     closed := closed i |}.
Definition setWatcher (b : bool) (i : Ingestor) : Ingestor :=
  {| db := db i; watchedPaths := watchedPaths i; batchSize := batchSize i;
     watcher := b; pendingFiles := pendingFiles i;
     ingestTimer := ingestTimer i; processing := processing i;
     closed := closed i |}.
Definition setPendingFiles (l : list string) (i : Ingestor) : Ingestor :=
  {| db := db i; watchedPaths := watchedPaths i; batchSize := batchSize i;
     watcher := watcher i; pendingFiles := l;
     ingestTimer := ingestTimer i; processing := processing i;
     closed := closed i |}.
Definition setIngestTimer (b : bool) (i : Ingestor) : Ingestor :=
  {| db := db i; watchedPaths := watchedPaths i; batchSize := batchSize i;
     watcher := watcher i; pendingFiles := pendingFiles i;
     ingestTimer := b; processing := processing i;
     closed := closed i |}.
Definition setProcessing (b : bool) (i : Ingestor) : Ingestor :=
  {| db := db i; watchedPaths := watchedPaths i; batchSize := batchSize i;
     watcher := watcher i; pendingFiles := pendingFiles i;
     ingestTimer := ingestTimer i; processing := b;
     closed := closed i |}.
Definition setClosed (b : bool) (i : Ingestor) : Ingestor :=
  {| db := db i; watchedPaths := watchedPaths i; batchSize := batchSize i;
     watcher := watcher i; pendingFiles := pendingFiles i;
     ingestTimer := ingestTimer i; processing := processing i;
     closed := b |}.

(** A call on [this.db] *)
Definition onDb {A} (m : M Db A) : M Ingestor A := fun i =>
  match m (db i) with
  | (d, r) => (setDb d i, r)
  end.

(** [pendingFiles.add(path)] *)
Definition setAdd (path : string) (l : list string) : list string :=
  if bool_decide (path ∈ l) then l else l ++ [path].

Section IngestorOps.
Context `{Host} `{Engine}.

(** [insertEvents]: [fuel] bounds the number of batches, and the number of
    events is enough. *)
Fixpoint insertBatches (fuel : nat) (size : nat) (now : Z) (dbEvents : list DbEvent)
  : M Db unit :=
  match fuel, dbEvents with
  | _, [] => ret tt
  | O, _ => ret tt
  | S fuel', _ =>
      (insertEventsBatch now (take size dbEvents) ;;;
       insertBatches fuel' size now (drop size dbEvents))%M
  end.

Definition insertEvents (now : Z) (evs : list ParsedEvent) : M Ingestor unit :=
  (size <~ gets (fun i => Pos.to_nat (batchSize i)) ;;
   onDb (insertBatches (length evs) size now evs))%M.

(** [ingestFile] up to its [await]: [None] when it returns 0 at once,
    otherwise the cursor it hands to [readNewLines]. *)
Definition ingestFileBegin (filePath : string) : M Ingestor (option Z) :=
  (isClosed <~ gets closed ;;
   if isClosed : bool then ret None else
   tracked <~ gets (fun i => getTrackedFile (db i) filePath) ;;
   let cursor := default 0 (byteOffset <$> tracked) in
   ret (Some cursor))%M.

(** [ingestFile] from the point where the read from [cursor] resolves: [fs]
    is the file system the read saw and [now] the clock reading. *)
Definition ingestFileResume (fs : gmap string string) (now : Z)
    (filePath : string) (sourceType : SourceType) (cursor : Z) : M Ingestor nat :=
  (let r := TailReader.readNewLines fs filePath cursor None in
   if bool_decide (TailReader.nl_lines r = []) then ret 0%nat else
   let parser := getParser sourceType in
   evs <~ liftR (parseLines now parser (TailReader.nl_lines r) filePath) ;;
   (if bool_decide (evs = []) then ret tt else insertEvents now evs) ;;;
   onDb (updateTrackedFile now
           {| p_path := filePath; p_sourceType := sourceType;
              p_byteOffset := TailReader.newCursor r;
              p_fileSize := TailReader.fileSize r |}) ;;;
   ret (length evs))%M.

(** [ingestFile], one pass over one file with nothing running between its
    two halves. *)
Definition ingestFile (fs : gmap string string) (now : Z)
    (filePath : string) (sourceType : SourceType) : M Ingestor nat :=
  (cursor <~ ingestFileBegin filePath ;;
   match cursor with
   | None => ret 0%nat
   | Some cursor => ingestFileResume fs now filePath sourceType cursor
   end)%M.

Record ExistingResult := { er_files : nat; er_events : nat }.

(** The loop of [ingestExisting]: a failure of one file is logged and the
    loop goes on. *)
Fixpoint ingestAll (fs : gmap string string) (now : Z)
    (files : list (string * SourceType)) (totalEvents : nat) : M Ingestor nat :=
  match files with
  | [] => ret totalEvents
  | (path, sourceType) :: rest =>
      (total <~ tryCatch (count <~ ingestFile fs now path sourceType ;;
                          ret (totalEvents + count)%nat)
                         (fun _ => ret totalEvents) ;;
       ingestAll fs now rest total)%M
  end.

(** [ingestExisting]; [files] is what [resolveWatchedFiles] finds on disk. *)
Definition ingestExisting (files : list (string * SourceType))
    (fs : gmap string string) (now : Z) : M Ingestor ExistingResult :=
  (isClosed <~ gets closed ;;
   if isClosed : bool then throw ClosedError else
   totalEvents <~ ingestAll fs now files 0%nat ;;
   ret {| er_files := length files; er_events := totalEvents |})%M.

Definition startWatching (files : list (string * SourceType))
    (fs : gmap string string) (now : Z) : M Ingestor unit :=
  (isClosed <~ gets closed ;;
   if isClosed : bool then throw ClosedError else
   attached <~ gets watcher ;;
   if attached : bool then ret tt else
   ingestExisting files fs now ;;;
   modify (setWatcher true))%M.

Definition stopWatching : M Ingestor unit :=
  (modify (setIngestTimer false) ;;;
   modify (setWatcher false))%M.

(** [scheduleIngest]: arm the debounce timer unless it is armed. *)
Definition scheduleIngest : M Ingestor unit :=
  (armed <~ gets ingestTimer ;;
   if armed : bool then ret tt else modify (setIngestTimer true))%M.

Definition onFileChange (event : FileChangeEvent) : M Ingestor unit :=
  match fc_eventType event with
  | Unlink => ret tt
  | _ =>
      (modify (fun i => setPendingFiles (setAdd (fc_path event) (pendingFiles i)) i) ;;;
       scheduleIngest)%M
  end.

(** [processPendingFiles] up to its loop: the guard, the flag and the drain
    of the pending set.  [None] when the guard returns at once. *)
Definition processStart : M Ingestor (option (list string)) :=
  (isClosed <~ gets closed ;;
   busy <~ gets processing ;;
   if (isClosed || busy : bool) then ret None else
   modify (setProcessing true) ;;;
   files <~ gets pendingFiles ;;
   modify (setPendingFiles []) ;;;
   ret (Some files))%M.

(** The body of the loop for one file, after the [closed] check. *)
Definition processFile (fs : gmap string string) (now : Z) (filePath : string)
  : M Ingestor unit :=
  (sourceType <~ (fun i => (i, getSourceTypeForFile (watchedPaths i) filePath)) ;;
   match sourceType with
   | None => ret tt
   | Some sourceType =>
       tryCatch (ingestFile fs now filePath sourceType ;;; ret tt)
                (fun _ => ret tt)
   end)%M.

(** The [finally] block of [processPendingFiles]. *)
Definition processFinally : M Ingestor unit :=
  (modify (setProcessing false) ;;;
   pending <~ gets pendingFiles ;;
   isClosed <~ gets closed ;;
   if (negb (bool_decide (pending = [])) && negb isClosed : bool)
   then scheduleIngest else ret tt)%M.

Record Status := {
  st_watching : bool;
  st_trackedFiles : nat;
  st_totalEvents : nat;
  st_eventsByType : SourceType -> nat
}.

Definition status : M Ingestor Status :=
  (isClosed <~ gets closed ;;
   if isClosed : bool then throw ClosedError else
   gets (fun i =>
     {| st_watching := watcher i;
        st_trackedFiles := size (tracked_files (db i));
        st_totalEvents := length (events (db i));
        st_eventsByType := fun t =>
          length (filter (fun r => r_source_type r = t) (events (db i))) |}))%M.

(** [close] run to its end with nothing in between.  Whether the store
    handle is released is a field of the event loop, [dbOpen], not of the
    instance. *)
Definition close : M Ingestor unit :=
  (isClosed <~ gets closed ;;
   if isClosed : bool then ret tt else
   modify (setClosed true) ;;;
   stopWatching)%M.

(** The part of [close] before its [await]: [None] when the instance is
    closed already, otherwise whether a watcher is attached, which
    [stopWatching] then waits for. *)
Definition closeBegin : M Ingestor (option bool) :=
  (isClosed <~ gets closed ;;
   if isClosed : bool then ret None else
   modify (setClosed true) ;;;
   modify (setIngestTimer false) ;;;
   attached <~ gets watcher ;;
   ret (Some attached))%M.

(** *** The event loop

    The instance runs on an event loop: a callback or the continuation of an
    [await] runs to its next [await], and other callbacks come in between.
    One step of [step] is one such run.  The suspended invocations are part
    of the state. *)

(** An invocation of [processPendingFiles] past its guard.  It is suspended
    at [await this.ingestFile(...)], and [rest] are the files its loop has
    still to visit.  Either [ingestFile] is itself suspended at
    [await readNewLines(...)] for the cursor it has read, or its promise is
    settled. *)
Inductive Task :=
| Reading (filePath : string) (sourceType : SourceType) (cursor : Z) (rest : list string)
| Returning (rest : list string).

(** An invocation of [close] past its guard: suspended in [stopWatching] at
    [await this.watcher.close()], or at [await this.stopWatching()] with the
    promise settled. *)
Inductive CloseTask := AwaitWatcher | AwaitStop.

(** [dbOpen] says that [db.close()] has not run; on a released handle every
    call of the store throws.  [ingested] records, in order, the files the
    processing passes called [ingestFile] on. *)
Record Sys := {
  ing : Ingestor;
  dbOpen : bool;
  tasks : list Task;
  closing : option CloseTask;
  ingested : list string
}.

Inductive Label :=
| Notify (kind : ChangeKind) (path : string)
    (* the watcher raises an event for [path] *)
| TimerFires
    (* the debounce timer expires *)
| ReadCompletes (n : nat) (fs : gmap string string) (now : Z)
    (* the read of the [n]-th invocation resolves: [ingestFile] runs to its
       end *)
| PassResumes (n : nat)
    (* the [n]-th invocation takes up its loop after [ingestFile] *)
| CloseCalled
| CloseResumes.
    (* the invocation of [close] goes on after its [await] *)

Definition withIng (m : M Ingestor unit) (s : Sys) : Sys :=
  {| ing := fst (m (ing s)); dbOpen := dbOpen s; tasks := tasks s;
     closing := closing s; ingested := ingested s |}.

(** Does the pass call [ingestFile] on [filePath]? *)
Definition callsIngest (i : Ingestor) (filePath : string) : bool :=
  match getSourceTypeForFile (watchedPaths i) filePath with
  | Ok (Some _) => true
  | _ => false
  end.

(** The call [this.ingestFile(filePath, sourceType)] in the loop: where the
    invocation is suspended afterwards.  On a released handle
    [getTrackedFile] throws and the promise is rejected. *)
Definition callIngestFile (i : Ingestor) (dbOpen : bool) (filePath : string)
    (sourceType : SourceType) (rest : list string) : Task :=
  if dbOpen then
    match snd (ingestFileBegin filePath i) with
    | Ok (Some cursor) => Reading filePath sourceType cursor rest
    | _ => Returning rest
    end
  else Returning rest.

(** The loop of [processPendingFiles] from its head to the next suspension:
    the task it is suspended as, [Ok None] when the loop has ended, [Throw]
    when [getSourceTypeForFile] has thrown; and the file it has called
    [ingestFile] on. *)
Fixpoint processLoop (i : Ingestor) (dbOpen : bool) (files : list string)
  : result (option Task) * list string :=
  match files with
  | [] => (Ok None, [])
  | filePath :: rest =>
      if closed i then (Ok None, [])
      else match getSourceTypeForFile (watchedPaths i) filePath with
           | Throw e => (Throw e, [])
           | Ok None => processLoop i dbOpen rest
           | Ok (Some sourceType) =>
               (Ok (Some (callIngestFile i dbOpen filePath sourceType rest)),
                [filePath])
           end
  end.

(** The loop and, when it has ended or thrown, the [finally] block. *)
Definition runLoop (i : Ingestor) (dbOpen : bool) (files : list string)
  : Ingestor * option Task * list string :=
  match processLoop i dbOpen files with
  | (Ok (Some task), called) => (i, Some task, called)
  | (_, called) => (fst (processFinally i), None, called)
  end.

Definition step (l : Label) (s : Sys) : Sys :=
  match l with
  | Notify kind path =>
      if watcher (ing s) then
        match emitEvent (watchedPaths (ing s)) kind path with
        | Some event => withIng (onFileChange event) s
        | None => s
        end
      else s
  | TimerFires =>
      if ingestTimer (ing s) then
        let i := setIngestTimer false (ing s) in
        match processStart i with
        | (i', Ok (Some files)) =>
            let '(i'', task, called) := runLoop i' (dbOpen s) files in
            {| ing := i''; dbOpen := dbOpen s;
               tasks := tasks s ++ option_list task;
               closing := closing s; ingested := ingested s ++ called |}
        | (i', _) =>
            {| ing := i'; dbOpen := dbOpen s; tasks := tasks s;
               closing := closing s; ingested := ingested s |}
        end
      else s
  | ReadCompletes n fs now =>
      match tasks s !! n with
      | Some (Reading filePath sourceType cursor rest) =>
          {| ing := if dbOpen s
                    then fst (ingestFileResume fs now filePath sourceType cursor (ing s))
                    else ing s;
             dbOpen := dbOpen s;
             tasks := <[n := Returning rest]> (tasks s);
             closing := closing s; ingested := ingested s |}
      | _ => s
      end
  | PassResumes n =>
      match tasks s !! n with
      | Some (Returning rest) =>
          let '(i', task, called) := runLoop (ing s) (dbOpen s) rest in
          {| ing := i'; dbOpen := dbOpen s;
             tasks := match task with
                      | Some task => <[n := task]> (tasks s)
                      | None => delete n (tasks s)
                      end;
             closing := closing s; ingested := ingested s ++ called |}
      | _ => s
      end
  | CloseCalled =>
      match closeBegin (ing s) with
      | (i', Ok (Some attached)) =>
          {| ing := i'; dbOpen := dbOpen s; tasks := tasks s;
             closing := Some (if attached : bool then AwaitWatcher else AwaitStop);
             ingested := ingested s |}
      | (i', _) =>
          {| ing := i'; dbOpen := dbOpen s; tasks := tasks s;
             closing := closing s; ingested := ingested s |}
      end
  | CloseResumes =>
      match closing s with
      | Some AwaitWatcher =>
          (* [this.watcher = null], and [stopWatching] returns *)
          {| ing := setWatcher false (ing s); dbOpen := dbOpen s; tasks := tasks s;
             closing := Some AwaitStop; ingested := ingested s |}
      | Some AwaitStop =>
          (* [this.db.close()] *)
          {| ing := ing s; dbOpen := false; tasks := tasks s;
             closing := None; ingested := ingested s |}
      | None => s
      end
  end.

Definition run (ls : list Label) (s : Sys) : Sys := foldl (fun s l => step l s) s ls.

End IngestorOps.

(** ** Watcher: the filter of hidden entries and the discovery of existing
       files (watcher.ts) *)

(** [path.basename(p)] on POSIX: the last segment of [p], trailing separators
    apart. *)
Definition basename (p : string) : string :=
  strRev (fst (spanSegment (dropSlashes (strRev p)))).

(** The [ignored] option that [createWatcher] hands to the file-system
    watcher. *)
Definition ignored (filePath : string) : bool :=
  let basename := basename filePath in
  if String.eqb basename ".openclaw" then false
  else if startsWith basename "." && negb (endsWith basename ".jsonl")
          && negb (endsWith basename ".log")
  then true
  else false.

(** What a path resolves to, as [fs.stat] and [fs.readdir] with file types
    report it: a regular file, a directory with its entries (in the order of
    the listing), a directory whose listing fails, or something that is
    neither a file nor a directory (for a listing, a symbolic link too). *)
Inductive Node :=
| FileNode
| DirNode (entries : list (string * Node))
| LockedDir
| OtherNode.

(** The disk as the discovery sees it: [fs_stat p] is what [fs.stat(p)]
    resolves [p] to, [None] when it throws.  One call sees one snapshot. *)
Class Disk := { fs_stat : string -> option Node }.

Definition isDirectory (n : Node) : bool :=
  match n with DirNode _ | LockedDir => true | _ => false end.

(** [walkDirectory(dir)], [node] being what [dir] resolves to; [dir] is in
    normal form, as for [pathJoin]. *)
Fixpoint walkDirectory (dir : string) (node : Node) : list string :=
  match node with
  | DirNode entries =>
      (fix walk (entries : list (string * Node)) : list string :=
         match entries with
         | [] => []
         | (name, child) :: rest =>
             let fullPath := pathJoin dir name in
             match child with
             | FileNode => [fullPath]
             | OtherNode => []
             | DirNode _ | LockedDir => walkDirectory fullPath child
             end ++ walk rest
         end) entries
  | _ => []
  end.

(** The filter that [resolveGlobPattern] applies to the files beneath the
    base directory. *)
Definition suffixMatches (suffix file : string) : bool :=
  if includes suffix "*" then
    let suffixParts := split suffix "*" in
    let requiredPath := dropTrailingSlashes (nth 0 suffixParts "") in
    let requiredExt := nth 1 suffixParts "" in
    let matchesPath :=
      String.eqb requiredPath "" || includes file (sep +:+ requiredPath +:+ sep) in
    let matchesExt := String.eqb requiredExt "" || endsWith file requiredExt in
    matchesPath && matchesExt
  else endsWith file suffix.

Definition resolveGlobPattern `{Disk} (pattern : string) : list string :=
  (* exact paths *)
  if negb (includes pattern "*") then
    match fs_stat pattern with
    | Some FileNode => [pattern]
    | Some node => if isDirectory node then walkDirectory pattern node else []
    | None => []
    end
  (* glob patterns: walk the base directory *)
  else
    let parts := split pattern "**" in
    let baseDir := dropTrailingSlashes (nth 0 parts "") in
    let suffix := dropSlashes (nth 1 parts "") in
    if String.eqb baseDir "" then [] else
    match fs_stat baseDir with
    | Some node =>
        if isDirectory node then
          let allFiles := walkDirectory baseDir node in
          if String.eqb suffix "" then allFiles
          else List.filter (suffixMatches suffix) allFiles
        else []
    | None => []
    end.

Definition resolveWatchedFiles `{Disk} (watchedPaths : list WatchedPath)
  : list (string * SourceType) :=
  flat_map (fun wp => map (fun file => (file, wp_sourceType wp))
                          (resolveGlobPattern (pattern wp))) watchedPaths.

(** ** A reference host

    A concrete runtime and engine on which the operations can be evaluated:
    a JSON reader for the grammar of ECMA-404, the ISO rendering of a time
    value, and an engine that enforces the [NOT NULL] columns of the schema.
    The general statements of Part II hold for every host and engine; the
    examples and counterexamples are evaluated on this one. *)

Module Ref.

Definition isJsonWs (a : ascii) : bool :=
  let n := nat_of_ascii a in
  (n =? 32)%nat || (n =? 9)%nat || (n =? 10)%nat || (n =? 13)%nat.

Fixpoint skipWs (s : string) : string :=
  match s with
  | String a s' => if isJsonWs a then skipWs s' else s
  | EmptyString => EmptyString
  end.

Definition digitOf (a : ascii) : option Z :=
  let n := nat_of_ascii a in
  if (48 <=? n)%nat && (n <=? 57)%nat then Some (Z.of_nat n - 48) else None.

Definition hexOf (a : ascii) : option Z :=
  let n := Z.of_nat (nat_of_ascii a) in
  if (48 <=? n) && (n <=? 57) then Some (n - 48)
  else if (65 <=? n) && (n <=? 70) then Some (n - 55)
  else if (97 <=? n) && (n <=? 102) then Some (n - 87)
  else None.

(** A run of digits: its value, how many there are, and the rest. *)
Fixpoint digits (s : string) (acc : Z) (count : nat) : Z * nat * string :=
  match s with
  | String a s' =>
      match digitOf a with
      | Some d => digits s' (10 * acc + d) (S count)
      | None => (acc, count, s)
      end
  | EmptyString => (acc, count, s)
  end.

Fixpoint normalize (fuel : nat) (m : Z) (sc : nat) : number :=
  match fuel, sc with
  | S fuel', S sc' =>
      if m mod 10 =? 0 then normalize fuel' (m / 10) sc'
      else {| mant := m; scale := sc |}
  | _, _ => {| mant := m; scale := sc |}
  end.

(** [-? int frac? exp?] *)
Definition pNumber (s : string) : option (number * string) :=
  let '(neg, s) :=
    match s with
    | String "-" s' => (true, s')
    | _ => (false, s)
    end in
  let '(ip, ni, s1) := digits s 0 0%nat in
  if (ni =? 0)%nat then None
  else if (1 <? ni)%nat && startsWith s "0" then None
  else
    let '(fp, nf, s2, okf) :=
      match s1 with
      | String "." s' =>
          let '(v, n, r) := digits s' 0 0%nat in (v, n, r, negb (n =? 0)%nat)
      | _ => (0, 0%nat, s1, true)
      end in
    let '(ex, s3, oke) :=
      match s2 with
      | String c s' =>
          if Ascii.eqb c "e"%char || Ascii.eqb c "E"%char then
            let '(sgn, s'') :=
              match s' with
              | String "-" r => (-1, r)
              | String "+" r => (1, r)
              | _ => (1, s')
              end in
            let '(v, n, r) := digits s'' 0 0%nat in
            (sgn * v, r, negb (n =? 0)%nat)
          else (0, s2, true)
      | EmptyString => (0, s2, true)
      end in
    if negb okf || negb oke then None
    else
      let m := ip * 10 ^ Z.of_nat nf + fp in
      let m := if neg : bool then - m else m in
      let e := ex - Z.of_nat nf in
      Some (if 0 <=? e
            then {| mant := m * 10 ^ e; scale := 0 |}
            else normalize (Z.to_nat (- e)) m (Z.to_nat (- e)),
            s3).

(** A code unit below 128 is the character itself; above, its UTF-8
    encoding (surrogate pairs are not joined). *)
Definition charsOfCode (c : Z) : string :=
  let b (n : Z) := ascii_of_nat (Z.to_nat n) in
  if c <? 128 then String (b c) ""
  else if c <? 2048 then String (b (192 + c / 64)) (String (b (128 + c mod 64)) "")
  else String (b (224 + c / 4096))
         (String (b (128 + (c / 64) mod 64)) (String (b (128 + c mod 64)) "")).

(** The characters of a string literal after its opening quote. *)
Fixpoint pChars (s : string) (acc : string) : option (string * string) :=
  match s with
  | EmptyString => None
  | String a s' =>
      if (nat_of_ascii a =? 34)%nat then Some (strRev acc, s')
      else if (nat_of_ascii a <? 32)%nat then None
      else if (nat_of_ascii a =? 92)%nat then
        match s' with
        | String e s'' =>
            let simple (c : nat) := pChars s'' (String (ascii_of_nat c) acc) in
            match nat_of_ascii e with
            | 34%nat => simple 34%nat
            | 92%nat => simple 92%nat
            | 47%nat => simple 47%nat
            | 98%nat => simple 8%nat
            | 102%nat => simple 12%nat
            | 110%nat => simple 10%nat
            | 114%nat => simple 13%nat
            | 116%nat => simple 9%nat
            | 117%nat =>
                match s'' with
                | String h1 (String h2 (String h3 (String h4 r))) =>
                    match hexOf h1, hexOf h2, hexOf h3, hexOf h4 with
                    | Some a1, Some a2, Some a3, Some a4 =>
                        pChars r (strRev_go
                                    (charsOfCode (((a1 * 16 + a2) * 16 + a3) * 16 + a4))
                                    acc)
                    | _, _, _, _ => None
                    end
                | _ => None
                end
            | _ => None
            end
        | EmptyString => None
        end
      else pChars s' (String a acc)
  end.

Definition isQuote (a : ascii) : bool := (nat_of_ascii a =? 34)%nat.

Fixpoint pValue (fuel : nat) (s : string) : option (value * string) :=
  match fuel with
  | O => None
  | S fuel' =>
      match skipWs s with
      | EmptyString => None
      | String a s' as s0 =>
          if Ascii.eqb a "{"%char then
            match skipWs s' with
            | String "}" r => Some (VObj [], r)
            | s1 => pMembers fuel' s1 []
            end
          else if Ascii.eqb a "["%char then
            match skipWs s' with
            | String "]" r => Some (VArr [], r)
            | s1 => pElements fuel' s1 []
            end
          else if isQuote a then
            '(str, r) ← pChars s' ""; Some (VStr str, r)
          else if startsWith s0 "true" then Some (VBool true, String.substring 4 (String.length s0) s0)
          else if startsWith s0 "false" then Some (VBool false, String.substring 5 (String.length s0) s0)
          else if startsWith s0 "null" then Some (VNull, String.substring 4 (String.length s0) s0)
          else '(n, r) ← pNumber s0; Some (VNum n, r)
      end
  end
with pElements (fuel : nat) (s : string) (acc : list value)
  : option (value * string) :=
  match fuel with
  | O => None
  | S fuel' =>
      '(v, r) ← pValue fuel' s;
      match skipWs r with
      | String "," r' => pElements fuel' r' (v :: acc)
      | String "]" r' => Some (VArr (rev (v :: acc)), r')
      | _ => None
      end
  end
with pMembers (fuel : nat) (s : string) (acc : list (string * value))
  : option (value * string) :=
  match fuel with
  | O => None
  | S fuel' =>
      match skipWs s with
      | String q s' =>
          if isQuote q then
            '(key, r) ← pChars s' "";
            match skipWs r with
            | String ":" r' =>
                '(v, r'') ← pValue fuel' r';
                match skipWs r'' with
                | String "," r3 => pMembers fuel' r3 ((key, v) :: acc)
                | String "}" r3 => Some (VObj (rev ((key, v) :: acc)), r3)
                | _ => None
                end
            | _ => None
            end
          else None
      | EmptyString => None
      end
  end.

Definition parseJSON (text : string) : option value :=
  '(v, r) ← pValue (S (2 * String.length text)) text;
  match skipWs r with
  | EmptyString => Some v
  | _ => None
  end.

(** Plain decimal notation. *)
Definition numberText (n : number) : string :=
  match intValue n with
  | Some z => Z_toString z
  | None =>
      let d := 10 ^ Z.of_nat (scale n) in
      let a := Z.abs (mant n) in
      let frac := Z_toString (d + a mod d) in
      (if mant n <? 0 then "-" else "") +:+ Z_toString (a / d) +:+ "."
        +:+ String.substring 1 (String.length frac) frac
  end.

Definition pad (width : nat) (z : Z) : string :=
  let str := Z_toString z in
  String.concat "" (repeat "0" (width - String.length str)) +:+ str.

(** The proleptic Gregorian date of a day number (days since 1970-01-01). *)
Definition civilFromDays (days : Z) : Z * Z * Z :=
  let z := days + 719468 in
  let era := z / 146097 in
  let doe := z - era * 146097 in
  let yoe := (doe - doe / 1460 + doe / 36524 - doe / 146096) / 365 in
  let doy := doe - (365 * yoe + yoe / 4 - yoe / 100) in
  let mp := (5 * doy + 2) / 153 in
  let d := doy - (153 * mp + 2) / 5 + 1 in
  let m := if mp <? 10 then mp + 3 else mp - 9 in
  let y := yoe + era * 400 + (if m <=? 2 then 1 else 0) in
  (y, m, d).

Definition isoText (t : Z) : string :=
  let '(y, m, d) := civilFromDays (t / 86400000) in
  let ms := t mod 86400000 in
  let year :=
    if (0 <=? y) && (y <=? 9999) then pad 4 y
    else (if y <? 0 then "-" else "+") +:+ pad 6 (Z.abs y) in
  year +:+ "-" +:+ pad 2 m +:+ "-" +:+ pad 2 d +:+ "T"
    +:+ pad 2 (ms / 3600000) +:+ ":" +:+ pad 2 ((ms / 60000) mod 60) +:+ ":"
    +:+ pad 2 ((ms / 1000) mod 60) +:+ "." +:+ pad 3 (ms mod 1000) +:+ "Z".

(** The reference host reads no date strings: each is an invalid date. *)
Definition parseDate (_ : string) : option Z := None.

Definition host : Host :=
  {| JSON_parse := parseJSON;
     Number_toString := numberText;
     Date_parse := parseDate;
     Date_toISOString := isoText |}.

(** [ts TEXT NOT NULL]: the other [NOT NULL] columns always hold a string or
    a number. *)
Definition violatesNotNull (table : list Row) (row : Row) : bool :=
  isNullish (r_ts row).

Definition engine : Engine := {| stmt_run_fails := violatesNotNull |}.

(** Writes [text] with a double quote for each single quote, so that JSON
    can be quoted in this file. *)
Fixpoint js (text : string) : string :=
  match text with
  | EmptyString => EmptyString
  | String a rest =>
      String (if (nat_of_ascii a =? 39)%nat then ascii_of_nat 34 else a) (js rest)
  end.

End Ref.

(** ** Notions used in the statements *)

(** The fields a parser requires of a parsed record: an object, with [ts],
    [seq] and [stage] of the right types for a cache trace, and with a [type]
    for a session entry. *)
Definition hasRequiredFields (st : SourceType) (entry : value) : bool :=
  match st with
  | SystemLog => truthy entry && isObject entry
  | CacheTrace => isCacheTraceEvent entry
  | Session => truthy entry && isObject entry && truthy (getProp entry "type")
  end.

(** A malformed line: its text is not valid JSON for a record (it does not
    open with a brace, or [JSON.parse] rejects it), or the record lacks the
    fields the parser requires. *)
Definition malformed `{Host} (st : SourceType) (line : string) : bool :=
  negb (startsWith (trim line) "{")
  || match JSON_parse (trim line) with
     | None => true
     | Some entry => negb (hasRequiredFields st entry)
     end.

(** Can the value be put into a template literal? *)
Definition printable `{Host} (v : value) : bool :=
  match toString v with
  | Ok _ => true
  | Throw _ => false
  end.

(** The optional fields of a record have values the parser can use: a
    [note] is a string (or an array), a [logLevelName] is a string, the
    [timestamp] of a message is a valid date, and what goes into a text (the
    [error] and [messageCount] of a cache trace, the subsystem of a log
    record, the [role] of a message, the [type] of a session entry) is not an
    object with a [toString] key of its own. *)
Definition wellTyped `{Host} (st : SourceType) (entry : value) : bool :=
  match st with
  | CacheTrace =>
      let note := getProp entry "note" in
      if truthy note then isString note || isArray note
      else if truthy (getProp entry "error") then printable (getProp entry "error")
      else printable (getProp entry "messageCount")
  | SystemLog =>
      let meta := getProp entry "_meta" in
      (if truthy (getPropOpt meta "logLevelName")
       then isString (getProp meta "logLevelName")
       else if truthy (getProp entry "logLevelName")
       then isString (getProp entry "logLevelName")
       else true)
      && printable (extractSubsystem entry)
  | Session =>
      if isSessionHeader entry then true
      else if isSessionMessage entry then
        let msg := getProp entry "message" in
        (negb (truthy (getProp msg "timestamp"))
         || match dateValue (getProp msg "timestamp") with
            | Ok (Some _) => true
            | _ => false
            end)
        && printable (getProp msg "role")
      else printable (getProp entry "type")
  end.

(** A well-formed line: not malformed, and well typed. *)
Definition wellFormed `{Host} (st : SourceType) (line : string) : bool :=
  negb (malformed st line)
  && match JSON_parse (trim line) with
     | Some entry => wellTyped st entry
     | None => false
     end.

(** The database with [rows] appended to [events]. *)
Definition addRows (d : Db) (rows : list Row) : Db :=
  {| tracked_files := tracked_files d; events := events d ++ rows;
     journal := journal d |}.

(** Does the engine refuse one of the inserts of a batch?  Each insert sees
    the table with the rows of the batch before it. *)
Fixpoint batchFails `{Engine} (now : Z) (table : list Row) (evs : list DbEvent) : bool :=
  match evs with
  | [] => false
  | event :: rest =>
      stmt_run_fails table (rowOf now event)
      || batchFails now (table ++ [rowOf now event]) rest
  end.

(** What the tail reader returns to a pass over [filePath]: the read from the
    stored cursor, 0 when the file is not tracked. *)
Definition passRead (fs : gmap string string) (filePath : string) (i : Ingestor)
  : TailReader.NewLines :=
  TailReader.readNewLines fs filePath
    (default 0 (byteOffset <$> getTrackedFile (db i) filePath)) None.

(** The record a pass writes to [tracked_files]. *)
Definition passParams (filePath : string) (sourceType : SourceType)
    (r : TailReader.NewLines) : TrackedParams :=
  {| p_path := filePath; p_sourceType := sourceType;
     p_byteOffset := TailReader.newCursor r;
     p_fileSize := TailReader.fileSize r |}.

(** A quiescent event loop: no pass in flight, nothing pending, no timer. *)
Definition idle (s : Sys) : Prop :=
  tasks s = [] /\ processing (ing s) = false
  /\ pendingFiles (ing s) = [] /\ ingestTimer (ing s) = false.

(** A change of the bookkeeping fields only. *)
Definition flagsOnly (f : Ingestor -> Ingestor) : Prop :=
  forall i, db (f i) = db i /\ closed (f i) = closed i
            /\ batchSize (f i) = batchSize i
            /\ watchedPaths (f i) = watchedPaths i
            /\ forall d, setDb d (f i) = f (setDb d i).

(** The files a suspended invocation has in its hands: the one being read
    and those its loop has still to visit. *)
Definition taskFiles (t : Task) : list string :=
  match t with
  | Reading filePath _ _ rest => filePath :: rest
  | Returning rest => rest
  end.

(** What holds of the event loop after every step: at most one pass is in
    flight, [processing] says whether one is, pending paths of an open
    instance have an armed timer or the pass in flight ahead of them, every
    path that is pending or in the hands of a pass is one that a descriptor
    classifies, and the store handle is released only by [close]. *)
Definition loopInv (s : Sys) : Prop :=
  (length (tasks s) <= 1)%nat
  /\ (processing (ing s) = true <-> tasks s <> [])
  /\ (closed (ing s) = false -> pendingFiles (ing s) <> [] ->
      ingestTimer (ing s) = true \/ processing (ing s) = true)
  /\ Forall (fun p => callsIngest (ing s) p = true)
            (pendingFiles (ing s) ++ concat (taskFiles <$> tasks s))
  /\ (closed (ing s) = false -> dbOpen s = true /\ closing s = None).

(** What the store can hold some steps after the state [s] of a closed
    instance: what it holds in [s], or that with the read in flight
    completed. *)
Definition mayHold `{Host} `{Engine} (s : Sys) (d : Db) : Prop :=
  d = db (ing s)
  \/ exists f st c rest fs now,
       tasks s = [Reading f st c rest] /\ dbOpen s = true
       /\ d = db (fst (ingestFileResume fs now f st c (ing s))).

(** A row without what the clock of the pass decides: the time of ingestion,
    and the [ts], which is the clock reading for a record that carries no
    time of its own. *)
Definition timeless (r : Row) : Row :=
  {| r_ts := VUndef;
     r_source_type := r_source_type r;
     r_source_file := r_source_file r;
     r_event_type := r_event_type r;
     r_level := r_level r;
     r_session_id := r_session_id r;
     r_agent_id := r_agent_id r;
     r_run_id := r_run_id r;
     r_provider := r_provider r;
     r_model_id := r_model_id r;
     r_role := r_role r;
     r_message_preview := r_message_preview r;
     r_raw_json := r_raw_json r;
     r_ingested_at := 0 |}.

(** The event of a line, if the parser returns one. *)
Definition eventOf `{Host} (st : SourceType) (now : Z) (file line : string)
  : option ParsedEvent :=
  match parseLine (getParser st) now line file with
  | Ok r => r
  | Throw _ => None
  end.

(** The text of a file that holds the lines [ls], each ended by a line
    feed. *)
Fixpoint unlines (ls : list string) : string :=
  match ls with
  | [] => ""
  | l :: rest => l +:+ nl +:+ unlines rest
  end.

(** A message preview within the limit: absent, or at most [MAX_PREVIEW]
    characters (items, for an array). *)
Definition previewFits (v : value) : bool :=
  match v with
  | VUndef => true
  | VStr s => (String.length s <=? MAX_PREVIEW)%nat
  | VArr items => (length items <=? MAX_PREVIEW)%nat
  | _ => false
  end.

(** The name space of the event types of a parser. *)
Definition eventNamespace (st : SourceType) : string :=
  match st with
  | SystemLog => "log"
  | CacheTrace => "cache:"
  | Session => "session:"
  end.

(** The expression of a text without star or question mark: its characters. *)
Fixpoint lits (s : string) : list RegexItem :=
  match s with
  | EmptyString => []
  | String c s' => Lit c :: lits s'
  end.

(** The steps that find nothing to do in a quiescent loop. *)
Definition quiet (l : Label) : bool :=
  match l with
  | Notify Unlink _ | TimerFires | ReadCompletes _ _ _ | PassResumes _ => true
  | _ => false
  end.

(** The distinct paths of a series of notifications, in the order of their
    first occurrence. *)
Definition noted (notes : list (ChangeKind * string)) : list string :=
  foldl (fun files note => setAdd note.2 files) [] notes.

(** The steps of a pass whose reads resolve one after the other, [reads]
    giving the file system and the clock reading of each. *)
Definition readSteps (reads : list (gmap string string * Z)) : list Label :=
  flat_map (fun r => [ReadCompletes 0 r.1 r.2; PassResumes 0]) reads.

(** The body of the loop of [processPendingFiles] run on the files in
    turn. *)
Definition inTurn `{Host} `{Engine} (files : list string)
    (reads : list (gmap string string * Z)) (i : Ingestor) : Ingestor :=
  foldl (fun i fr => fst (processFile fr.2.1 fr.2.2 fr.1 i)) i (zip files reads).

(** ** Concrete inputs for the examples *)

Definition CR : string := String "013"%char "".

Definition loadedLine : string :=
  Ref.js "{'ts':'2024-01-01T12:00:00.000Z','seq':1,'stage':'session:loaded','runId':'run-123','messageCount':5}".

Definition loadedEvent (file rawJson : string) : ParsedEvent :=
  {| ts := VStr "2024-01-01T12:00:00.000Z"; sourceType := CacheTrace;
     sourceFile := file; eventType := "cache:session:loaded"; level := None;
     sessionId := VUndef; agentId := None; runId := VStr "run-123";
     provider := VUndef; modelId := VUndef; role := VUndef;
     messagePreview := VStr "messages: 5"; rawJson := rawJson |}.

Definition stateDir : string := "/home/u/.openclaw".
Definition tracePath : string := "/home/u/.openclaw/logs/cache-trace.jsonl".
Definition sessionPath : string := "/home/u/.openclaw/agents/a1/sessions/s.jsonl".
Definition logPath : string := "/tmp/openclaw/openclaw-2024-01-01.log".

(** A cache trace holding one record. *)
Definition traceFs : gmap string string := {[ tracePath := loadedLine +:+ nl ]}.

Definition headerLine (id : string) : string :=
  Ref.js "{'type':'session','version':1,'id':'" +:+ id
    +:+ Ref.js "','timestamp':'2024-01-01T00:00:00.000Z'}".

(** A session transcript of three header records; the third has no
    [timestamp], so its row has no [ts]. *)
Definition sessionFs : gmap string string :=
  {[ sessionPath := headerLine "a" +:+ nl +:+ headerLine "b" +:+ nl
                    +:+ Ref.js "{'type':'session','version':1,'id':'c'}" +:+ nl ]}.

(** A trace of four lines, the second not JSON and the third without [ts]. *)
Definition mixedLines : list string :=
  [loadedLine; "not json"; Ref.js "{'seq':1,'stage':'session:loaded'}";
   Ref.js "{'ts':'t','seq':2,'stage':'prompt:before'}"].

(** A cache-trace record with the required fields and a numeric [note]. *)
Definition numericNote : string := Ref.js "{'ts':'t','seq':2,'stage':'s','note':5}".

(** A new instance with the default options, and one with [batchSize: 2]. *)
Definition fresh : Ingestor := newIngestor None None stateDir.
Definition smallBatches : Ingestor := newIngestor None (Some 2%positive) stateDir.

(** An instance that has read the four bytes of a log at time 1; the log has
    since been emptied. *)
Definition afterFourBytes : Ingestor :=
  setDb {| tracked_files :=
             {[ logPath := {| source_type := SystemLog; byte_offset := 4;
                              last_seen_at := 1; file_size := 4 |} ]};
           events := []; journal := None |} fresh.
Definition emptiedFs : gmap string string := {[ logPath := "" ]}.

(** The event loop of a new instance whose watcher is attached. *)
Definition watching : Sys :=
  {| ing := setWatcher true fresh; dbOpen := true; tasks := []; closing := None;
     ingested := [] |}.

(** The event loop of that instance with a pass in flight: the trace has been
    notified, the timer has fired, and the trace is being read. *)
Definition inFlight : Sys :=
  {| ing := setProcessing true (setWatcher true fresh); dbOpen := true;
     tasks := [Reading tracePath CacheTrace 0 []]; closing := None;
     ingested := [tracePath] |}.

(** A cache-trace record whose [note] has 600 characters. *)
Definition longNote : string := String.concat "" (repeat "x" 600).
Definition notedLine : string :=
  Ref.js "{'ts':'t','seq':1,'stage':'s','note':'" +:+ longNote +:+ Ref.js "'}".

(** A system-log record with an upper-case level name, and a session header
    without [timestamp]. *)
Definition warnLine : string := Ref.js "{'_meta':{'logLevelName':'WARN'},'0':'disk'}".
Definition bareHeader : string := Ref.js "{'type':'session','version':1,'id':'c'}".

(** A disk with one agent directory and the cache trace; no system log. *)
Definition homeDisk : Disk :=
  {| fs_stat := fun p =>
       if String.eqb p "/home/u/.openclaw/agents"
       then Some (DirNode [("a1", DirNode [("sessions", DirNode [("s.jsonl", FileNode);
                                                                  ("notes.txt", FileNode)]);
                                           ("agent.json", FileNode)]);
                           (".cache", LockedDir)])
       else if String.eqb p "/home/u/.openclaw/logs/cache-trace.jsonl" then Some FileNode
       else None |}.

(** A cache trace that has grown by one record. *)
Definition grownFs : gmap string string :=
  {[ tracePath := loadedLine +:+ nl
                  +:+ Ref.js "{'ts':'t2','seq':2,'stage':'prompt:before'}" +:+ nl ]}.

(* ===================================================================== *)
(** * Part II. Properties                                                 *)
(* ===================================================================== *)

(** ** Unit checks of the string methods *)

Example split_trailing : split ("a" +:+ nl +:+ "b" +:+ nl) nl = ["a"; "b"; ""].
Proof. reflexivity. Qed.

Example split_stars : split "/s/agents/**/sessions/*.jsonl" "**"
  = ["/s/agents/"; "/sessions/*.jsonl"].
Proof. reflexivity. Qed.

Example trim_ex : trim ("  {a} " +:+ nl) = "{a}".
Proof. reflexivity. Qed.

(** ** Parsers: the tests of parsers.test.ts, on the reference host *)

Section ParserTests.
Import Ref.
Local Existing Instance host.

Example test_system_log :
  parseSystemLogLine 0
    (js "{'_meta':{'date':'2024-01-01T12:00:00.000Z','logLevelId':3,'logLevelName':'INFO','name':'gateway'},'0':'Server started'}")
    "/tmp/openclaw/openclaw-2024-01-01.log"
  = Ok (Some {| ts := VStr "2024-01-01T12:00:00.000Z"; sourceType := SystemLog;
                sourceFile := "/tmp/openclaw/openclaw-2024-01-01.log";
                eventType := "log:gateway"; level := Some "info";
                sessionId := VUndef; agentId := None; runId := VUndef;
                provider := VUndef; modelId := VUndef; role := VUndef;
                messagePreview := VStr "Server started";
                rawJson := js "{'_meta':{'date':'2024-01-01T12:00:00.000Z','logLevelId':3,'logLevelName':'INFO','name':'gateway'},'0':'Server started'}" |}).
Proof. vm_compute. reflexivity. Qed.

Example test_system_log_not_json :
  parseSystemLogLine 0 "not json" "/tmp/test.log" = Ok None
  /\ parseSystemLogLine 0 "" "/tmp/test.log" = Ok None.
Proof. split; reflexivity. Qed.

Example test_cache_trace :
  parseCacheTraceLine 0
    (js "{'ts':'2024-01-01T12:00:00.000Z','seq':1,'stage':'session:loaded','runId':'run-123','messageCount':5}")
    "~/.openclaw/logs/cache-trace.jsonl"
  = Ok (Some {| ts := VStr "2024-01-01T12:00:00.000Z"; sourceType := CacheTrace;
                sourceFile := "~/.openclaw/logs/cache-trace.jsonl";
                eventType := "cache:session:loaded"; level := None;
                sessionId := VUndef; agentId := None; runId := VStr "run-123";
                provider := VUndef; modelId := VUndef; role := VUndef;
                messagePreview := VStr "messages: 5";
                rawJson := js "{'ts':'2024-01-01T12:00:00.000Z','seq':1,'stage':'session:loaded','runId':'run-123','messageCount':5}" |}).
Proof. vm_compute. reflexivity. Qed.

Example test_cache_trace_error :
  messagePreview <$>
    (default None (match parseCacheTraceLine 0
       (js "{'ts':'2024-01-01T12:00:00.000Z','seq':1,'stage':'session:loaded','error':'Something went wrong'}")
       "test.jsonl" with Ok r => Some r | Throw _ => None end))
  = Some (VStr "error: Something went wrong").
Proof. vm_compute. reflexivity. Qed.

Example test_cache_trace_invalid :
  parseCacheTraceLine 0 (js "{'notACacheTrace':true}") "test.jsonl" = Ok None.
Proof. vm_compute. reflexivity. Qed.

Example test_session_message :
  parseSessionLine 0
    (js "{'type':'message','message':{'role':'user','content':[{'type':'text','text':'Hello, world!'}],'provider':'anthropic','model':'claude-3','timestamp':1704110400000}}")
    "~/.openclaw/agents/myagent/sessions/test.jsonl"
  = Ok (Some {| ts := VStr "2024-01-01T12:00:00.000Z"; sourceType := Session;
                sourceFile := "~/.openclaw/agents/myagent/sessions/test.jsonl";
                eventType := "session:message:user"; level := None;
                sessionId := VUndef; agentId := Some "myagent"; runId := VUndef;
                provider := VStr "anthropic"; modelId := VStr "claude-3";
                role := VStr "user"; messagePreview := VStr "Hello, world!";
                rawJson := js "{'type':'message','message':{'role':'user','content':[{'type':'text','text':'Hello, world!'}],'provider':'anthropic','model':'claude-3','timestamp':1704110400000}}" |}).
Proof. vm_compute. reflexivity. Qed.

Example test_session_header_agent :
  agentId <$>
    (default None (match parseSessionLine 0
       (js "{'type':'session','version':1,'id':'test','timestamp':'2024-01-01T12:00:00.000Z'}")
       "/home/user/.openclaw/agents/custom-agent/sessions/s.jsonl"
       with Ok r => Some r | Throw _ => None end))
  = Some (Some "custom-agent").
Proof. vm_compute. reflexivity. Qed.

Example test_session_invalid :
  parseSessionLine 0 (js "{'notASession':true}") "test.jsonl" = Ok None.
Proof. vm_compute. reflexivity. Qed.

End ParserTests.

(** ** Facts about strings *)

Section StringLemmas.

Lemma append_cons (a : ascii) (s t : string) : String a s +:+ t = String a (s +:+ t).
Proof. reflexivity. Qed.

Lemma append_nil_l (t : string) : "" +:+ t = t.
Proof. reflexivity. Qed.

Lemma append_nil_r (s : string) : s +:+ "" = s.
Proof. induction s as [|a s IH]; [reflexivity | by rewrite append_cons, IH]. Qed.

Lemma append_assoc (s t u : string) : (s +:+ t) +:+ u = s +:+ (t +:+ u).
Proof. induction s as [|a s IH]; [reflexivity | by rewrite !append_cons, IH]. Qed.

Lemma append_length (s t : string) :
  String.length (s +:+ t) = (String.length s + String.length t)%nat.
Proof.
  induction s as [|a s IH]; [reflexivity |].
  rewrite append_cons. cbn [String.length]. by rewrite IH.
Qed.

Lemma strRev_go_app (s acc : string) : strRev_go s acc = strRev_go s "" +:+ acc.
Proof.
  revert acc. induction s as [|a s IH]; intros acc; [reflexivity|].
  cbn [strRev_go]. rewrite (IH (String a acc)), (IH (String a "")).
  by rewrite append_assoc.
Qed.

Lemma strRev_cons (a : ascii) (s : string) : strRev (String a s) = strRev s +:+ String a "".
Proof. unfold strRev. cbn [strRev_go]. apply strRev_go_app. Qed.

Lemma startsWith_nil (s : string) : startsWith s "" = true.
Proof. by destruct s. Qed.

Lemma startsWith_nl (a : ascii) (s : string) : startsWith (String a s) nl = Ascii.eqb a LF.
Proof.
  unfold nl. cbn [startsWith]. rewrite startsWith_nil.
  by destruct (Ascii.eqb a LF).
Qed.

Lemma split_go_nl_plain (frag cur : string) :
  includes frag nl = false -> split_go nl 0 cur frag = [strRev cur +:+ frag].
Proof.
  revert cur. induction frag as [|a s IH]; intros cur Hno.
  - cbn [split_go]. by rewrite append_nil_r.
  - cbn [includes] in Hno. rewrite startsWith_nl in Hno.
    cbn [split_go]. rewrite startsWith_nl.
    destruct (Ascii.eqb a LF); [discriminate|].
    rewrite IH by done. rewrite strRev_cons, append_assoc. reflexivity.
Qed.

Lemma split_go_nl_last (text frag cur : string) :
  includes frag nl = false ->
  last (split_go nl 0 cur (text +:+ nl +:+ frag)) = Some frag.
Proof.
  intros Hno. revert cur. induction text as [|a s IH]; intros cur.
  - rewrite append_nil_l. unfold nl at 2. rewrite append_cons, append_nil_l.
    cbn [split_go]. rewrite startsWith_nl.
    rewrite Ascii.eqb_refl. cbn [String.length Nat.pred nl].
    rewrite last_cons, split_go_nl_plain by done. reflexivity.
  - rewrite append_cons. cbn [split_go]. rewrite startsWith_nl.
    destruct (Ascii.eqb a LF).
    + cbn [String.length nl Nat.pred]. rewrite last_cons, IH. reflexivity.
    + apply IH.
Qed.

Lemma substring_all (s : string) : String.substring 0 (String.length s) s = s.
Proof. induction s as [|a s IH]; [reflexivity|]. cbn. by rewrite IH. Qed.

End StringLemmas.

(** ** Tail reader *)

Section TailReaderProps.
Import TailReader.

Lemma window_rotation (size cursor maxBytes : Z) :
  0 <= size -> size < cursor ->
  window size (Some cursor) maxBytes
  = {| start := 0; w_reset := true; w_truncated := false |}.
Proof.
  intros Hsize Hlt. unfold window. cbn [fmap option_fmap option_map].
  replace (Z.max 0 cursor) with cursor by lia.
  destruct (Z.ltb_spec size cursor); [reflexivity | lia].
Qed.

Lemma linesFrom_empty : linesFrom "" 0 = [].
Proof. reflexivity. Qed.

(** C8. For every existing file and every supplied cursor strictly greater
    than the file's size, the read is treated as a rotation: it starts from
    byte 0 (the window starts at 0 and the lines are those of the whole
    content read from byte 0) and [reset] is true. *)
Theorem rotation_resets_to_start (fs : gmap string string) (file content : string)
    (cursor : Z) (maxBytes : option Z) :
  fs !! file = Some content ->
  Z.of_nat (String.length content) < cursor ->
  let size := Z.of_nat (String.length content) in
  let r := readLogSlice fs file (Some cursor) maxBytes in
  start (window size (Some cursor) (default DEFAULT_MAX_BYTES maxBytes)) = 0
  /\ reset r = true
  /\ lines r = linesFrom content 0
  /\ TailReader.cursor r = size.
Proof.
  intros Hfile Hlt size r. subst r. unfold readLogSlice. rewrite Hfile.
  fold size. rewrite window_rotation by (subst size; lia).
  cbn [start w_reset w_truncated].
  destruct (Z.eqb_spec size 0) as [Hz | Hnz].
  - cbn [orb]. repeat split; try reflexivity.
    cbn [lines]. destruct content; [reflexivity | subst size; cbn in Hz; lia].
  - destruct (Z.leb_spec size 0); [subst size; lia |].
    cbn [orb]. repeat split; reflexivity.
Qed.

Lemma rotation_resets_to_start_witness :
  let fs : gmap string string := {[ "/tmp/openclaw/openclaw-1.log" := "{a}" +:+ nl +:+ "{b}" +:+ nl ]} in
  let r := readLogSlice fs "/tmp/openclaw/openclaw-1.log" (Some 500) None in
  start (window 8 (Some 500) DEFAULT_MAX_BYTES) = 0
  /\ reset r = true
  /\ lines r = linesFrom ("{a}" +:+ nl +:+ "{b}" +:+ nl) 0
  /\ TailReader.cursor r = 8.
Proof.
  apply (rotation_resets_to_start
           {[ "/tmp/openclaw/openclaw-1.log" := "{a}" +:+ nl +:+ "{b}" +:+ nl ]}
           "/tmp/openclaw/openclaw-1.log" ("{a}" +:+ nl +:+ "{b}" +:+ nl) 500 None).
  - reflexivity.
  - vm_compute. reflexivity.
Defined.

(** An unterminated fragment at the end of a file is returned as the last
    line of a read from byte 0, and the cursor moves past it. *)
Lemma fragment_is_last_line (file body frag : string) :
  includes frag nl = false -> frag <> "" ->
  Z.of_nat (String.length (body +:+ nl +:+ frag)) <= DEFAULT_MAX_BYTES ->
  let r := readLogSlice {[ file := body +:+ nl +:+ frag ]} file (Some 0) None in
  last (lines r) = Some frag /\ cursor r = Z.of_nat (String.length (body +:+ nl +:+ frag)).
Proof.
  intros Hno Hne Hcap r. subst r. unfold readLogSlice.
  rewrite lookup_singleton_eq. cbn [default].
  assert (Hpos : 0 < Z.of_nat (String.length (body +:+ nl +:+ frag))).
  { rewrite !append_length. cbn [String.length nl]. lia. }
  set (content := body +:+ nl +:+ frag) in *.
  unfold window. cbn [fmap option_fmap option_map]. change (Z.max 0 0) with 0.
  destruct (Z.ltb_spec (Z.of_nat (String.length content)) 0); [lia|].
  rewrite Z.sub_0_r.
  destruct (Z.ltb_spec DEFAULT_MAX_BYTES (Z.of_nat (String.length content))); [lia|].
  cbn [start w_reset w_truncated].
  destruct (Z.eqb_spec (Z.of_nat (String.length content)) 0); [lia|].
  destruct (Z.leb_spec (Z.of_nat (String.length content)) 0); [lia|].
  cbn [orb lines cursor]. split; [|reflexivity].
  unfold linesFrom. change (0 <? 0) with false. cbn [andb].
  rewrite Z.sub_0_r, Z.max_r, Nat2Z.id by lia. change (Z.to_nat 0) with 0%nat.
  rewrite substring_all. unfold split.
  assert (Hlast : last (split_go nl 0 "" content) = Some frag)
    by (subst content; by apply split_go_nl_last).
  rewrite Hlast. destruct frag; [done | exact Hlast].
Qed.
(** C1. The file holds one complete record and an unterminated fragment.
    The read from cursor 0 returns the fragment as a line and moves the
    cursor past it; once the record is completed on disk, the read from that
    cursor returns nothing, so the completed line is never returned. *)
Theorem unterminated_fragment_is_emitted :
  let partial := "{a}" +:+ nl +:+ "{inc" in
  let completed := "{a}" +:+ nl +:+ "{inc}" +:+ nl in
  let first := readLogSlice {[ "f.log" := partial ]} "f.log" (Some 0) None in
  let second := readLogSlice {[ "f.log" := completed ]} "f.log" (Some (cursor first)) None in
  lines first = ["{a}"; "{inc"]
  /\ cursor first = 8
  /\ lines second = []
  /\ cursor second = 10.
Proof. vm_compute. repeat split; reflexivity. Qed.

End TailReaderProps.

(** ** Parsers *)

Ltac parser_cases H :=
  unfold mbind, result_bind in H;
  repeat (case_match; simplify_eq/=; try done).

Section ParserProps.
Context `{Host}.

Lemma cacheTrace_rawJson (now : Z) (line file : string) (e : ParsedEvent) :
  parseCacheTraceLine now line file = Ok (Some e) -> rawJson e = trim line.
Proof. unfold parseCacheTraceLine. intros Hp. parser_cases Hp. Qed.

Lemma systemLog_rawJson (now : Z) (line file : string) (e : ParsedEvent) :
  parseSystemLogLine now line file = Ok (Some e) -> rawJson e = trim line.
Proof. unfold parseSystemLogLine. intros Hp. parser_cases Hp. Qed.

Lemma session_rawJson (now : Z) (line file : string) (e : ParsedEvent) :
  parseSessionLine now line file = Ok (Some e) -> rawJson e = trim line.
Proof. unfold parseSessionLine. intros Hp. parser_cases Hp. Qed.

(** C6 (amended). Whenever one of the three parsers produces an event, its
    [rawJson] is the input line with leading and trailing white space
    removed; it is the line itself when the line has none. *)
Theorem rawJson_is_trimmed_line (st : SourceType) (now : Z) (line file : string)
    (e : ParsedEvent) :
  parseLine (getParser st) now line file = Ok (Some e) ->
  rawJson e = trim line /\ (trim line = line -> rawJson e = line).
Proof.
  intros Hp.
  assert (Hraw : rawJson e = trim line).
  { destruct st; cbn in Hp.
    - by apply systemLog_rawJson in Hp.
    - by apply cacheTrace_rawJson in Hp.
    - by apply session_rawJson in Hp. }
  split; [exact Hraw | congruence].
Qed.

Lemma startsWith_nonempty (s p : string) :
  startsWith s p = true -> p <> "" -> String.eqb s "" = false.
Proof. destruct s, p; done. Qed.

Lemma malformed_is_skipped (st : SourceType) (now : Z) (line file : string) :
  malformed st line = true -> parseLine (getParser st) now line file = Ok None.
Proof.
  unfold malformed, hasRequiredFields. intros Hm.
  destruct st; cbn [getParser PARSERS parseLine systemLogParser cacheTraceParser sessionParser];
    unfold parseSystemLogLine, parseCacheTraceLine, parseSessionLine;
    destruct (startsWith (trim line) "{"); cbn [negb orb] in *;
    try (by rewrite orb_true_r);
    rewrite orb_false_r;
    destruct (String.eqb (trim line) ""); try done;
    destruct (JSON_parse (trim line)) as [entry|]; try done.
  - rewrite negb_andb in Hm. by rewrite Hm.
  - by rewrite Hm.
  - rewrite !negb_andb in Hm. by rewrite Hm.
Qed.

Lemma getPropOpt_eq (v : value) (k : string) : getPropOpt v k = getProp v k.
Proof. by destruct v. Qed.

Lemma extractSubsystem_falsy (entry : value) :
  truthy (extractSubsystem entry) = false -> extractSubsystem entry = VUndef.
Proof.
  unfold extractSubsystem. rewrite getPropOpt_eq.
  destruct (truthy (getProp (getProp entry "_meta") "name")) eqn:Hn; [congruence|].
  destruct (truthy (getProp entry "subsystem")) eqn:Hs; [|done].
  cbn [andb]. destruct (isString _); [congruence|done].
Qed.

(** A well-formed line yields an event. *)
Lemma wellFormed_is_parsed (st : SourceType) (now : Z) (line file : string) :
  wellFormed st line = true ->
  exists e, parseLine (getParser st) now line file = Ok (Some e).
Proof.
  unfold wellFormed, malformed, hasRequiredFields, wellTyped, printable.
  intros [Hm Ht]%andb_true_iff. apply negb_true_iff, orb_false_elim in Hm as [Hb Hm].
  apply negb_false_iff in Hb.
  destruct (JSON_parse (trim line)) as [entry|] eqn:Hparse; [|done].
  apply negb_false_iff in Hm.
  pose proof (startsWith_nonempty _ _ Hb ltac:(done)) as Hne.
  destruct st; cbn [getParser PARSERS parseLine systemLogParser cacheTraceParser sessionParser];
    unfold parseSystemLogLine, parseCacheTraceLine, parseSessionLine;
    rewrite Hne, Hb, Hparse; cbn [negb orb].
  - apply andb_true_iff in Hm as [-> ->]. cbn [negb orb].
    apply andb_true_iff in Ht as [Hlevel Hname].
    assert (Hl : exists l, extractLogLevel entry = Ok l).
    { unfold extractLogLevel, callToLowerCase.
      destruct (truthy (getPropOpt _ "logLevelName")).
      { destruct (getProp (getProp entry "_meta") "logLevelName"); try done. by eauto. }
      destruct (truthy (getProp entry "logLevelName")).
      { destruct (getProp entry "logLevelName"); try done. by eauto. }
      destruct (nullish _ _); by eauto. }
    destruct Hl as [l ->]. cbn [mbind result_bind].
    destruct (truthy (extractSubsystem entry)); [|by eexists].
    destruct (toString (extractSubsystem entry)); [by eexists|done].
  - rewrite Hm. cbn [negb].
    assert (Hstage : exists s, toString (getProp entry "stage") = Ok s).
    { unfold isCacheTraceEvent in Hm. destruct (negb (truthy entry) || _); [done|].
      apply andb_true_iff in Hm as [_ Hs].
      destruct (getProp entry "stage"); try done. by eexists. }
    destruct Hstage as [stage ->]. unfold previewSlice.
    destruct (truthy (getProp entry "note")).
    { destruct (getProp entry "note"); try done; by eexists. }
    destruct (truthy (getProp entry "error")).
    { destruct (toString (getProp entry "error")); [by eexists|done]. }
    destruct (negb (isUndefined _)); [|by eexists].
    destruct (toString (getProp entry "messageCount")); [by eexists|done].
  - apply andb_true_iff in Hm as [[-> ->]%andb_true_iff ->]. cbn [negb orb].
    destruct (isSessionHeader entry); [by eexists|].
    destruct (isSessionMessage entry).
    + apply andb_true_iff in Ht as [Hts Hrole].
      destruct (toString (getProp (getProp entry "message") "role")); [|done].
      unfold dateToISOString.
      destruct (truthy (getProp (getProp entry "message") "timestamp")); [|by eexists].
      cbn [negb orb] in Hts.
      destruct (dateValue _) as [[t|]|]; try done. by eexists.
    + destruct (toString (getProp entry "type")); [by eexists|done].
Qed.

(** A line that is neither makes the parser throw. *)
Lemma illTyped_throws (st : SourceType) (now : Z) (line file : string) :
  malformed st line = false -> wellFormed st line = false ->
  exists err, parseLine (getParser st) now line file = Throw err.
Proof.
  unfold wellFormed. intros Hm. rewrite Hm. cbn [negb andb].
  unfold malformed, hasRequiredFields, wellTyped, printable in *.
  apply orb_false_elim in Hm as [Hb Hm]. apply negb_false_iff in Hb.
  destruct (JSON_parse (trim line)) as [entry|] eqn:Hparse; [|done].
  apply negb_false_iff in Hm. intros Ht.
  pose proof (startsWith_nonempty _ _ Hb ltac:(done)) as Hne.
  destruct st; cbn [getParser PARSERS parseLine systemLogParser cacheTraceParser sessionParser];
    unfold parseSystemLogLine, parseCacheTraceLine, parseSessionLine;
    rewrite Hne, Hb, Hparse; cbn [negb orb].
  - apply andb_true_iff in Hm as [-> ->]. cbn [negb orb].
    unfold extractLogLevel, callToLowerCase in *.
    destruct (truthy (getPropOpt _ "logLevelName")).
    { destruct (getProp (getProp entry "_meta") "logLevelName"); try (by eexists).
      cbn [isString andb] in Ht. cbn [mbind result_bind].
      destruct (toString (extractSubsystem entry)) eqn:Hs; [done|].
      destruct (truthy (extractSubsystem entry)) eqn:Htr; [by eexists|].
      by rewrite (extractSubsystem_falsy _ Htr) in Hs. }
    destruct (truthy (getProp entry "logLevelName")).
    { destruct (getProp entry "logLevelName"); try (by eexists).
      cbn [isString andb] in Ht. cbn [mbind result_bind].
      destruct (toString (extractSubsystem entry)) eqn:Hs; [done|].
      destruct (truthy (extractSubsystem entry)) eqn:Htr; [by eexists|].
      by rewrite (extractSubsystem_falsy _ Htr) in Hs. }
    cbn [andb] in Ht.
    assert (Hl : exists l, match nullish (getPropOpt (getProp entry "_meta") "logLevelId")
                                   (getProp entry "logLevel") with
                           | VNum n => Ok (LOG_LEVEL_MAP n)
                           | _ => Ok None
                           end = Ok l) by (destruct (nullish _ _); by eexists).
    destruct Hl as [l ->]. cbn [mbind result_bind].
    destruct (toString (extractSubsystem entry)) eqn:Hs; [done|].
    destruct (truthy (extractSubsystem entry)) eqn:Htr; [by eexists|].
    by rewrite (extractSubsystem_falsy _ Htr) in Hs.
  - rewrite Hm. cbn [negb]. unfold previewSlice.
    assert (Hstage : exists s, toString (getProp entry "stage") = Ok s).
    { unfold isCacheTraceEvent in Hm. destruct (negb (truthy entry) || _); [done|].
      apply andb_true_iff in Hm as [_ Hs].
      destruct (getProp entry "stage"); try done. by eexists. }
    destruct Hstage as [stage ->].
    destruct (truthy (getProp entry "note")) eqn:Hnote.
    { destruct (getProp entry "note"); try done; by eexists. }
    destruct (truthy (getProp entry "error")).
    { destruct (toString (getProp entry "error")); [done|by eexists]. }
    destruct (getProp entry "messageCount") eqn:Hmc; cbn [isUndefined negb];
      try done;
      destruct (toString _); try done; by eexists.
  - apply andb_true_iff in Hm as [[-> ->]%andb_true_iff ->]. cbn [negb orb].
    destruct (isSessionHeader entry); [done|].
    destruct (isSessionMessage entry).
    + unfold dateToISOString.
      destruct (truthy (getProp (getProp entry "message") "timestamp")).
      * cbn [negb orb] in Ht.
        destruct (dateValue _) as [[t|]|]; try (by eexists).
        cbn [andb] in Ht. cbn [mbind result_bind].
        destruct (toString _); [done|by eexists].
      * cbn [negb orb andb] in Ht. cbn [mbind result_bind].
        destruct (toString _); [done|by eexists].
    + destruct (toString _); [done|by eexists].
Qed.

Lemma parseLines_cons (now : Z) (p : LogParser) (line : string) (rest : list string)
    (file : string) :
  parseLines now p (line :: rest) file
  = (event ← parseLine p now line file;
     events ← parseLines now p rest file;
     Ok (match event with Some e => e :: events | None => events end)).
Proof. reflexivity. Qed.

(** A skipped line leaves no trace in the outcome of a batch, whatever the
    other lines are. *)
Lemma skipped_line_is_neutral (now : Z) (p : LogParser) (file bad : string)
    (before after : list string) :
  parseLine p now bad file = Ok None ->
  parseLines now p (before ++ bad :: after) file = parseLines now p (before ++ after) file.
Proof.
  intros Hbad. induction before as [|l before IH].
  - cbn [app]. rewrite parseLines_cons, Hbad. cbn.
    by destruct (parseLines now p after file).
  - cbn [app]. rewrite !parseLines_cons, IH. reflexivity.
Qed.

Lemma parseLines_no_throw (st : SourceType) (now : Z) (file : string) (lines : list string) :
  Forall (fun l => exists r, parseLine (getParser st) now l file = Ok r) lines ->
  parseLines now (getParser st) lines file = Ok (omap (eventOf st now file) lines).
Proof.
  induction 1 as [|l lines [r Hr] _ IH]; [reflexivity|].
  rewrite parseLines_cons, Hr, IH. cbn [mbind result_bind].
  change (omap (eventOf st now file) (l :: lines))
    with (match eventOf st now file l with
          | Some e => e :: omap (eventOf st now file) lines
          | None => omap (eventOf st now file) lines
          end).
  assert (eventOf st now file l = r) as -> by (unfold eventOf; by rewrite Hr).
  by destruct r.
Qed.

End ParserProps.

(** *** Instances on the reference host *)

(** C6, counterexample: a line of a file with CRLF line ends reaches the
    parser with its carriage return, and the event's [rawJson] is the line
    without it. *)
Lemma rawJson_drops_carriage_return :
  let line := loadedLine +:+ CR in
  @parseCacheTraceLine Ref.host 0 line "cache-trace.jsonl"
  = Ok (Some (loadedEvent "cache-trace.jsonl" loadedLine))
  /\ String.eqb (rawJson (loadedEvent "cache-trace.jsonl" loadedLine)) line = false.
Proof. vm_compute. split; reflexivity. Qed.

Lemma rawJson_is_trimmed_line_witness :
  let line := "  " +:+ loadedLine +:+ CR in
  let e := loadedEvent "cache-trace.jsonl" loadedLine in
  rawJson e = trim line /\ (trim line = line -> rawJson e = line).
Proof.
  apply (@rawJson_is_trimmed_line Ref.host CacheTrace 0
           ("  " +:+ loadedLine +:+ CR) "cache-trace.jsonl"
           (loadedEvent "cache-trace.jsonl" loadedLine)).
  vm_compute. reflexivity.
Defined.

(** ** Watcher patterns *)

Section WatcherProps.

Lemma includes_app_r (s t x : string) :
  includes t x = true -> includes (s +:+ t) x = true.
Proof.
  intros Ht. induction s as [|a s IH]; [exact Ht|].
  rewrite append_cons. cbn [includes].
  by destruct (startsWith (String a (s +:+ t)) x).
Qed.

Lemma endsWith_suffix (s x : string) :
  endsWith s x = true -> exists pre, s = pre +:+ x.
Proof.
  induction s as [|a s IH]; cbn [endsWith]; intros Hends.
  - destruct (String.eqb_spec "" x) as [Heq | _]; [by exists "" | done].
  - destruct (String.eqb_spec (String a s) x) as [Heq | _]; [by exists "" |].
    destruct (IH Hends) as [pre ->]. by exists (String a pre).
Qed.

(** A path that ends with [x] contains what [x] contains. *)
Lemma endsWith_includes (s x c : string) :
  endsWith s x = true -> includes x c = true -> includes s c = true.
Proof.
  intros [pre ->]%endsWith_suffix Hc. by apply includes_app_r.
Qed.

Lemma includes_cons_star (a : ascii) (s : string) :
  includes (String a s) "*" = Ascii.eqb a "*"%char || includes s "*".
Proof.
  cbn [includes startsWith]. rewrite startsWith_nil.
  by destruct (Ascii.eqb a "*"%char).
Qed.

(** Splitting at the first [**] of a pattern whose head has no star. *)
Lemma split_go_stars (pre suf cur : string) :
  includes pre "*" = false ->
  split_go "**" 0 cur (pre +:+ "**" +:+ suf)
  = (strRev cur +:+ pre) :: split_go "**" 0 "" suf.
Proof.
  revert cur. induction pre as [|a s IH]; intros cur Hno.
  - rewrite append_nil_l, append_nil_r.
    change ("**" +:+ suf) with (String "*"%char (String "*"%char suf)).
    cbn [split_go startsWith]. rewrite !Ascii.eqb_refl, startsWith_nil.
    reflexivity.
  - rewrite includes_cons_star in Hno. apply orb_false_elim in Hno as [Ha Hs].
    rewrite append_cons. cbn [split_go startsWith]. rewrite Ha.
    rewrite IH by done. by rewrite strRev_cons, append_assoc.
Qed.

Lemma sessionPattern_parts (stateDir : string) :
  includes stateDir "*" = false ->
  split (sessionPattern stateDir) "**" = [stateDir +:+ "/agents/"; "/sessions/*.jsonl"].
Proof.
  intros Hno. unfold split, sessionPattern, pathJoin, sep.
  change (stateDir +:+ "/" +:+ "agents/**/sessions/*.jsonl")
    with (stateDir +:+ ("/agents/" +:+ "**" +:+ "/sessions/*.jsonl")).
  rewrite <- append_assoc. rewrite split_go_stars.
  - reflexivity.
  - clear -Hno. induction stateDir as [|a s IH]; [reflexivity|].
    rewrite includes_cons_star in Hno. apply orb_false_elim in Hno as [Ha Hs].
    rewrite append_cons, includes_cons_star, Ha, IH by done. reflexivity.
Qed.

(** The default session pattern matches no path without a star. *)
Lemma session_pattern_matches_no_plain_path (stateDir filePath : string) :
  includes stateDir "*" = false ->
  includes filePath "*" = false ->
  matchesPattern filePath (sessionPattern stateDir) = Ok false.
Proof.
  intros Hdir Hfile. unfold matchesPattern.
  assert (Hstar2 : includes (sessionPattern stateDir) "**" = true).
  { unfold sessionPattern, pathJoin. by rewrite !includes_app_r. }
  assert (Hstar : includes (sessionPattern stateDir) "*" = true).
  { unfold sessionPattern, pathJoin. by rewrite !includes_app_r. }
  rewrite Hstar, Hstar2, sessionPattern_parts by done.
  cbn [negb nth].
  change (dropLeadingSlash "/sessions/*.jsonl") with "sessions/*.jsonl".
  change ("sessions/*.jsonl" =? "")%string with false.
  destruct (endsWith filePath "sessions/*.jsonl") eqn:Hends.
  - apply endsWith_includes with (c := "*") in Hends; [congruence | reflexivity].
  - cbn [orb]. by rewrite andb_false_r.
Qed.

(** C4. A session file under the default state directory layout is not
    matched by the default session pattern: the text after [**] is compared
    with the end of the path literally, star included.  No default
    descriptor classifies the file, and the watcher drops its event. *)
Theorem default_session_file_is_ignored :
  let stateDir := "/home/u/.openclaw" in
  let file := "/home/u/.openclaw/agents/a1/sessions/s.jsonl" in
  sessionPattern stateDir = "/home/u/.openclaw/agents/**/sessions/*.jsonl"
  /\ matchesPattern file (sessionPattern stateDir) = Ok false
  /\ getSourceTypeForFile (getDefaultWatchedPaths stateDir) file = Ok None
  /\ emitEvent (getDefaultWatchedPaths stateDir) Change file = None.
Proof. vm_compute. repeat split; reflexivity. Qed.

Example matches_exact_and_single_star :
  matchesPattern "/s/logs/cache-trace.jsonl" "/s/logs/cache-trace.jsonl" = Ok true
  /\ matchesPattern "/tmp/openclaw/openclaw-2024-01-01.log" "/tmp/openclaw/openclaw-*.log" = Ok true
  /\ matchesPattern "/tmp/openclaw/x/openclaw-1.log" "/tmp/openclaw/openclaw-*.log" = Ok false
  /\ matchesPattern "/s/agents/a1/sessions/s.jsonl" "/s/agents/**" = Ok true.
Proof. vm_compute. repeat split; reflexivity. Qed.

End WatcherProps.

(** ** Event store *)

Ltac monad_unfold :=
  unfold bindM, ret, throw, gets, modify, liftR, tryCatch, tryFinally, onDb in *.

Section StoreProps.
Context `{Engine}.

Lemma addRows_nil (d : Db) : addRows d [] = d.
Proof. destruct d. unfold addRows. cbn. by rewrite app_nil_r. Qed.

Lemma addRows_app (d : Db) (r1 r2 : list Row) :
  addRows (addRows d r1) r2 = addRows d (r1 ++ r2).
Proof. unfold addRows. cbn. by rewrite app_assoc. Qed.

Lemma runAll_ok (now : Z) (evs : list DbEvent) (d : Db) :
  batchFails now (events d) evs = false ->
  runAll now evs d = (addRows d (map (rowOf now) evs), Ok tt).
Proof.
  revert d. induction evs as [|e evs IH]; intros d Hok.
  - cbn. by rewrite addRows_nil.
  - cbn [batchFails] in Hok. apply orb_false_elim in Hok as [He Hrest].
    cbn [runAll]. unfold bindM, stmtRun. rewrite He.
    rewrite IH by exact Hrest. cbn [map].
    unfold addRows. cbn. by rewrite <- app_assoc.
Qed.

Lemma runAll_fail (now : Z) (evs : list DbEvent) (d : Db) :
  batchFails now (events d) evs = true ->
  exists d', runAll now evs d = (d', Throw StoreError)
             /\ tracked_files d' = tracked_files d /\ journal d' = journal d.
Proof.
  revert d. induction evs as [|e evs IH]; intros d Hfail; [done|].
  cbn [batchFails] in Hfail. cbn [runAll]. unfold bindM, stmtRun.
  destruct (stmt_run_fails (events d) (rowOf now e)) eqn:He.
  - by exists d.
  - cbn [orb] in Hfail.
    destruct (IH {| tracked_files := tracked_files d;
                    events := events d ++ [rowOf now e];
                    journal := journal d |} Hfail) as (d' & -> & Ht & Hj).
    by exists d'.
Qed.

(** A batch is all or nothing: when the engine refuses a row the database is
    as it was and the error is thrown; otherwise every row is added. *)
Lemma insertEventsBatch_spec (now : Z) (evs : list DbEvent) (d : Db) :
  journal d = None ->
  insertEventsBatch now evs d
  = if batchFails now (events d) evs then (d, Throw StoreError)
    else (addRows d (map (rowOf now) evs), Ok tt).
Proof.
  intros Hj. destruct evs as [|e evs].
  { cbn. by rewrite addRows_nil. }
  unfold insertEventsBatch. monad_unfold. unfold execBegin. rewrite Hj.
  set (d1 := {| tracked_files := tracked_files d; events := events d;
                journal := Some (events d) |}).
  destruct (batchFails now (events d) (e :: evs)) eqn:Hb.
  - destruct (runAll_fail now (e :: evs) d1 Hb) as (d' & -> & Ht & Hjd).
    unfold execRollback, modify. cbn. rewrite Ht, Hjd. cbn.
    destruct d; cbn in *. by subst.
  - rewrite (runAll_ok now (e :: evs) d1 Hb).
    unfold execCommit, modify, addRows. cbn. by rewrite Hj.
Qed.

Lemma take_add_drop {A} (l : list A) (n m : nat) :
  take (n + m) l = take n l ++ take m (drop n l).
Proof.
  revert l. induction n as [|n IH]; intros l; [reflexivity|].
  destruct l as [|x l]; [cbn; by rewrite take_nil|]. cbn. by rewrite IH.
Qed.

Lemma insertBatches_spec (fuel size : nat) (now : Z) (evs : list DbEvent) (d d' : Db)
    (r : result unit) :
  journal d = None -> (0 < size)%nat -> (length evs <= fuel)%nat ->
  insertBatches fuel size now evs d = (d', r) ->
  match r with
  | Ok _ => d' = addRows d (map (rowOf now) evs)
  | Throw e =>
      e = StoreError
      /\ exists k, (k * size < length evs)%nat
           /\ d' = addRows d (map (rowOf now) (take (k * size) evs))
           /\ batchFails now (events d') (take size (drop (k * size) evs)) = true
  end.
Proof.
  intros Hj Hsize. revert evs d Hj.
  induction fuel as [|fuel IH]; intros evs d Hj Hlen Hrun.
  - destruct evs; [|cbn in Hlen; lia].
    cbn in Hrun. unfold ret in Hrun. simplify_eq. by rewrite addRows_nil.
  - destruct evs as [|e evs].
    { cbn in Hrun. unfold ret in Hrun. simplify_eq. by rewrite addRows_nil. }
    cbn [insertBatches] in Hrun. unfold bindM in Hrun.
    rewrite insertEventsBatch_spec in Hrun by exact Hj.
    destruct (batchFails now (events d) (take size (e :: evs))) eqn:Hb.
    + simplify_eq. split; [done|]. exists 0%nat. cbn [Nat.mul take drop map].
      rewrite addRows_nil. repeat split; [cbn; lia | done].
    + apply IH in Hrun; [| done | rewrite length_drop; cbn in *; lia].
      destruct r as [[]|err].
      * rewrite Hrun, addRows_app, <- map_app, take_drop. done.
      * destruct Hrun as (-> & k & Hk & -> & Hfail). split; [done|].
        exists (S k). rewrite length_drop in Hk.
        cbn [Nat.mul]. rewrite take_add_drop, map_app, <- addRows_app.
        repeat split; [cbn [length] in *; lia | ].
        rewrite drop_drop in Hfail. exact Hfail.
Qed.

End StoreProps.

(** ** Ingestor: one pass over one file *)

Section IngestorProps.
Context `{Host} `{Engine}.

Lemma insertEvents_eq (now : Z) (evs : list ParsedEvent) (i : Ingestor) :
  insertEvents now evs i
  = (setDb (fst (insertBatches (length evs) (Pos.to_nat (batchSize i)) now evs (db i))) i,
     snd (insertBatches (length evs) (Pos.to_nat (batchSize i)) now evs (db i))).
Proof.
  unfold insertEvents. monad_unfold.
  by destruct (insertBatches _ _ _ _ _).
Qed.

Lemma ingestFile_unfold (fs : gmap string string) (now : Z) (path : string)
    (st : SourceType) (i : Ingestor) :
  ingestFile fs now path st i
  = if closed i then (i, Ok 0%nat) else
    let r := passRead fs path i in
    if bool_decide (TailReader.nl_lines r = []) then (i, Ok 0%nat) else
    match parseLines now (getParser st) (TailReader.nl_lines r) path with
    | Throw e => (i, Throw e)
    | Ok evs =>
        match (if bool_decide (evs = []) then (i, Ok tt) else insertEvents now evs i) with
        | (i1, Ok _) =>
            (setDb (fst (updateTrackedFile now (passParams path st r) (db i1))) i1,
             Ok (length evs))
        | (i1, Throw e) => (i1, Throw e)
        end
    end.
Proof.
  unfold ingestFile, ingestFileBegin, ingestFileResume, passRead, passParams.
  monad_unfold.
  destruct (closed i); [done|]. cbn zeta.
  destruct (bool_decide _); [done|].
  destruct (parseLines _ _ _ _) as [evs|e]; [|done].
  destruct (bool_decide (evs = [])); [done|].
  by destruct (insertEvents now evs i) as [i1 [[]|e]].
Qed.

Lemma ingestFileBegin_eq (path : string) (i : Ingestor) :
  ingestFileBegin path i
  = (i, Ok (if closed i then None
            else Some (default 0 (byteOffset <$> getTrackedFile (db i) path)))).
Proof. unfold ingestFileBegin. monad_unfold. by destruct (closed i). Qed.

(** On an open instance the pass is its second half, run on the cursor the
    first half has read. *)
Lemma ingestFile_resume (fs : gmap string string) (now : Z) (path : string)
    (st : SourceType) (i : Ingestor) :
  closed i = false ->
  ingestFile fs now path st i
  = ingestFileResume fs now path st
      (default 0 (byteOffset <$> getTrackedFile (db i) path)) i.
Proof.
  intros Hc. unfold ingestFile, bindM. by rewrite ingestFileBegin_eq, Hc.
Qed.

Lemma readLogSlice_lines_file (fs : gmap string string) (file : string)
    (c : option Z) (mb : option Z) :
  TailReader.lines (TailReader.readLogSlice fs file c mb) <> [] ->
  exists content, fs !! file = Some content
    /\ TailReader.cursor (TailReader.readLogSlice fs file c mb) = Z.of_nat (String.length content)
    /\ TailReader.size (TailReader.readLogSlice fs file c mb) = Z.of_nat (String.length content).
Proof.
  unfold TailReader.readLogSlice. destruct (fs !! file) as [content|]; [|done].
  intros _. exists content. split; [done|].
  by destruct (_ || _).
Qed.

Lemma readLogSlice_at_end (fs : gmap string string) (file content : string) :
  fs !! file = Some content ->
  TailReader.readLogSlice fs file (Some (Z.of_nat (String.length content))) None
  = {| TailReader.cursor := Z.of_nat (String.length content);
       TailReader.size := Z.of_nat (String.length content);
       TailReader.lines := []; TailReader.truncated := false;
       TailReader.reset := false |}.
Proof.
  intros Hf. unfold TailReader.readLogSlice. rewrite Hf. cbn [default].
  set (n := Z.of_nat (String.length content)).
  assert (0 <= n) by (subst n; lia).
  unfold TailReader.window. cbn [fmap option_fmap option_map].
  rewrite Z.max_r by done. rewrite Z.ltb_irrefl, Z.sub_diag.
  change (TailReader.DEFAULT_MAX_BYTES <? 0) with false. cbn [TailReader.start TailReader.w_reset TailReader.w_truncated].
  rewrite Z.leb_refl, orb_true_r. reflexivity.
Qed.

Lemma updateTrackedFile_lookup (now : Z) (params : TrackedParams) (d : Db) :
  getTrackedFile (fst (updateTrackedFile now params d)) (p_path params)
  = Some {| byteOffset := p_byteOffset params; fileSize := p_fileSize params |}.
Proof.
  unfold updateTrackedFile, modify, getTrackedFile. cbn.
  rewrite lookup_insert_eq. by destruct (tracked_files d !! p_path params).
Qed.

(** C2. After a pass over a file has completed, a second pass over the same
    file with nothing appended inserts no event and leaves the whole
    instance, the file's tracked cursor included, as the first pass left
    it. *)
Theorem second_pass_is_idle (fs : gmap string string) (now now' : Z)
    (path : string) (st st' : SourceType) (i i' : Ingestor) (n : nat) :
  ingestFile fs now path st i = (i', Ok n) ->
  ingestFile fs now' path st' i' = (i', Ok 0%nat)
  /\ events (db (fst (ingestFile fs now' path st' i'))) = events (db i')
  /\ getTrackedFile (db (fst (ingestFile fs now' path st' i'))) path
     = getTrackedFile (db i') path.
Proof.
  intros Hfirst.
  assert (Hsecond : ingestFile fs now' path st' i' = (i', Ok 0%nat));
    [|by rewrite Hsecond].
  rewrite ingestFile_unfold in Hfirst. rewrite ingestFile_unfold.
  destruct (closed i) eqn:Hclosed.
  { simplify_eq. by rewrite Hclosed. }
  cbn zeta in Hfirst.
  destruct (bool_decide (TailReader.nl_lines (passRead fs path i) = [])) eqn:Hlines.
  { simplify_eq. rewrite Hclosed. cbn zeta. by rewrite Hlines. }
  apply bool_decide_eq_false in Hlines.
  destruct (readLogSlice_lines_file _ _ _ _ Hlines) as (content & Hfile & Hcur & _).
  destruct (parseLines _ _ _ _) as [evs|e]; [|done].
  assert (Hi' : closed i' = false
                /\ getTrackedFile (db i') path
                   = Some {| byteOffset := TailReader.newCursor (passRead fs path i);
                             fileSize := TailReader.fileSize (passRead fs path i) |}).
  { destruct (bool_decide (evs = [])).
    - simplify_eq. split; [done|].
      apply (updateTrackedFile_lookup now (passParams path st (passRead fs path i))).
    - rewrite insertEvents_eq in Hfirst.
      destruct (snd (insertBatches _ _ _ _ _)); simplify_eq.
      split; [done|].
      apply (updateTrackedFile_lookup now (passParams path st (passRead fs path i))). }
  destruct Hi' as [Hc' Ht']. rewrite Hc'. cbn zeta.
  assert (Hidle : TailReader.nl_lines (passRead fs path i') = []).
  { unfold passRead at 1. rewrite Ht'.
    cbn [fmap option_fmap option_map default byteOffset].
    unfold TailReader.readNewLines. cbn [TailReader.nl_lines].
    unfold passRead, TailReader.readNewLines. cbn [TailReader.newCursor].
    rewrite Hcur. unfold id. by rewrite (readLogSlice_at_end _ _ _ Hfile). }
  by rewrite (bool_decide_eq_true_2 _ Hidle).
Qed.


Lemma insertEventsBatch_tracked (now : Z) (evs : list DbEvent) (d : Db) :
  tracked_files (fst (insertEventsBatch now evs d)) = tracked_files d.
Proof.
  destruct (journal d) eqn:Hj.
  - destruct evs; [done|]. unfold insertEventsBatch. monad_unfold.
    unfold execBegin. by rewrite Hj.
  - rewrite insertEventsBatch_spec by done. by destruct (batchFails _ _ _).
Qed.

Lemma insertBatches_tracked (fuel size : nat) (now : Z) (evs : list DbEvent) (d : Db) :
  tracked_files (fst (insertBatches fuel size now evs d)) = tracked_files d.
Proof.
  revert evs d. induction fuel as [|fuel IH]; intros evs d.
  - by destruct evs.
  - destruct evs as [|e evs]; [done|].
    cbn [insertBatches]. unfold bindM.
    pose proof (insertEventsBatch_tracked now (take size (e :: evs)) d) as Ht.
    destruct (insertEventsBatch now (take size (e :: evs)) d) as [d1 [[]|err]];
      cbn [fst] in *; [|done].
    by rewrite IH.
Qed.

(** C5 (amended). A pass that reads at least one line and completes writes
    the file's tracked record: byte offset and file size as the read
    observed them, the clock reading as last-seen time (the source type of an
    existing record is kept), and it inserts nothing when no line yields an
    event.  A pass that reads no line changes nothing: no insert, and the
    tracked record stays as it was. *)
Theorem tracked_record_follows_lines_read (fs : gmap string string) (now : Z)
    (path : string) (st : SourceType) (i i' : Ingestor) (n : nat) :
  closed i = false ->
  ingestFile fs now path st i = (i', Ok n) ->
  let r := passRead fs path i in
  (TailReader.nl_lines r = [] -> i' = i /\ n = 0%nat)
  /\ (TailReader.nl_lines r <> [] ->
      tracked_files (db i') !! path
      = Some {| source_type := default st (source_type <$> tracked_files (db i) !! path);
                byte_offset := TailReader.newCursor r;
                last_seen_at := now;
                file_size := TailReader.fileSize r |}
      /\ (n = 0%nat -> events (db i') = events (db i))).
Proof.
  intros Hclosed Hpass r. rewrite ingestFile_unfold, Hclosed in Hpass.
  cbn zeta in Hpass. fold r in Hpass. split.
  - intros Hnil. rewrite (bool_decide_eq_true_2 _ Hnil) in Hpass. by simplify_eq.
  - intros Hsome. rewrite (bool_decide_eq_false_2 _ Hsome) in Hpass.
    destruct (parseLines _ _ _ _) as [evs|e]; [|done].
    destruct (bool_decide (evs = [])) eqn:Hevs.
    + apply bool_decide_eq_true in Hevs. simplify_eq. cbn. split; [|done].
      rewrite lookup_insert_eq. by destruct (tracked_files (db i) !! path).
    + apply bool_decide_eq_false in Hevs.
      rewrite insertEvents_eq in Hpass.
      pose proof (insertBatches_tracked (length evs) (Pos.to_nat (batchSize i))
                    now evs (db i)) as Ht.
      destruct (insertBatches _ _ _ _ _) as [d1 [[]|err]]; cbn [fst snd] in *;
        simplify_eq. cbn. split.
      * rewrite lookup_insert_eq, Ht. by destruct (tracked_files (db i) !! path).
      * intros Hn. by destruct evs.
Qed.





(** C10 (amended). In a batch whose lines are each malformed (not valid
    JSON, or without the parser's required fields) or well-formed (valid,
    with the required fields, and with optional fields the parser can use):
    every malformed line yields null without an error; every well-formed line
    yields an event; the batch is parsed without an error, and its events are
    exactly the events of the well-formed lines, in order; and a pass of
    [ingestFile] that reads these lines fails only if the store does, and
    when it returns it has inserted the rows of all the well-formed lines.
    Moreover a malformed line changes the outcome of no batch at all: with it
    or without it the result is the same. *)
Theorem malformed_lines_do_not_fail_the_batch (st : SourceType) (now : Z)
    (file : string) (lines : list string) :
  Forall (fun l => malformed st l = true \/ wellFormed st l = true) lines ->
  let evs := omap (eventOf st now file) lines in
  (forall l, l ∈ lines -> malformed st l = true ->
             parseLine (getParser st) now l file = Ok None)
  /\ (forall l, l ∈ lines -> wellFormed st l = true ->
        exists e, parseLine (getParser st) now l file = Ok (Some e) /\ e ∈ evs)
  /\ parseLines now (getParser st) lines file = Ok evs
  /\ length evs = length (filter (fun l => wellFormed st l = true) lines)
  /\ (forall fs i i' r,
        closed i = false -> journal (db i) = None ->
        TailReader.nl_lines (passRead fs file i) = lines ->
        ingestFile fs now file st i = (i', r) ->
        match r with
        | Ok n => n = length evs
                  /\ events (db i') = events (db i) ++ map (rowOf now) evs
        | Throw e => e = StoreError
        end)
  /\ (forall bad before after, malformed st bad = true ->
        parseLines now (getParser st) (before ++ bad :: after) file
        = parseLines now (getParser st) (before ++ after) file).
Proof.
  intros Hall evs.
  assert (Hparse : parseLines now (getParser st) lines file = Ok evs).
  { apply parseLines_no_throw. eapply Forall_impl; [exact Hall|].
    intros l [Hm | Hw].
    - exists None. by apply malformed_is_skipped.
    - destruct (wellFormed_is_parsed st now l file Hw) as [e He]. by exists (Some e). }
  split; [|split; [|split; [|split; [|split]]]].
  - intros l _ Hm. by apply malformed_is_skipped.
  - intros l Hin Hw. destruct (wellFormed_is_parsed st now l file Hw) as [e He].
    exists e. split; [done|]. apply list_elem_of_omap. exists l. split; [done|].
    unfold eventOf. by rewrite He.
  - exact Hparse.
  - subst evs. clear Hparse. induction Hall as [|l lines Hl _ IH]; [done|].
    rewrite filter_cons. cbn [omap list_omap]. fold (omap (eventOf st now file) lines).
    destruct Hl as [Hm | Hw].
    + unfold eventOf at 1. rewrite (malformed_is_skipped st now l file Hm).
      assert (Hnw : wellFormed st l = false)
        by (unfold wellFormed; by rewrite Hm).
      rewrite decide_False by (by rewrite Hnw). exact IH.
    + destruct (wellFormed_is_parsed st now l file Hw) as [e He].
      unfold eventOf at 1. rewrite He, decide_True by done. cbn. by rewrite IH.
  - intros fs i i' r Hclosed Hj Hread Hpass.
    rewrite ingestFile_unfold, Hclosed in Hpass. cbn zeta in Hpass.
    rewrite Hread, Hparse in Hpass. clear Hread.
    destruct (bool_decide (lines = [])) eqn:Hnil.
    { apply bool_decide_eq_true in Hnil. subst lines evs. simplify_eq.
      cbn. by rewrite app_nil_r. }
    destruct (bool_decide (evs = [])) eqn:Hevs.
    { apply bool_decide_eq_true in Hevs. rewrite Hevs in *. simplify_eq.
      cbn. by rewrite app_nil_r. }
    rewrite insertEvents_eq in Hpass.
    destruct (insertBatches (length evs) (Pos.to_nat (batchSize i)) now evs (db i))
      as [d1 r1] eqn:Hins.
    apply insertBatches_spec in Hins; [|done|lia|done].
    cbn [fst snd] in Hpass. destruct r1 as [[]|err]; simplify_eq.
    + by cbn.
    + by destruct Hins.
  - intros bad before after Hm. apply skipped_line_is_neutral.
    by apply malformed_is_skipped.
Qed.


(** C7 (amended). On an instance that [close] has closed, [startWatching],
    [ingestExisting] and [status] throw "Ingestor is closed" and leave the
    instance as it is; [ingestFile] throws nothing: it returns 0 and reads
    and writes nothing; [close] is idempotent. *)
Theorem operations_after_close (files : list (string * SourceType))
    (fs : gmap string string) (now : Z) (path : string) (st : SourceType)
    (i : Ingestor) :
  let c := fst (close i) in
  closed c = true
  /\ startWatching files fs now c = (c, Throw ClosedError)
  /\ ingestExisting files fs now c = (c, Throw ClosedError)
  /\ status c = (c, Throw ClosedError)
  /\ ingestFile fs now path st c = (c, Ok 0%nat)
  /\ close c = (c, Ok tt).
Proof.
  intros c.
  assert (Hc : closed c = true).
  { subst c. unfold close, stopWatching. monad_unfold.
    by destruct (closed i) eqn:Hi. }
  split; [exact Hc|].
  unfold startWatching, ingestExisting, status, close. rewrite ingestFile_unfold.
  monad_unfold. rewrite Hc. done.
Qed.

End IngestorProps.

(** *** Instances on the reference host and engine *)

Lemma second_pass_is_idle_witness :
  let i1 := fst (@ingestFile Ref.host Ref.engine traceFs 1000 tracePath CacheTrace fresh) in
  @ingestFile Ref.host Ref.engine traceFs 2000 tracePath CacheTrace i1 = (i1, Ok 0%nat)
  /\ events (db (fst (@ingestFile Ref.host Ref.engine traceFs 2000 tracePath CacheTrace i1)))
     = events (db i1)
  /\ getTrackedFile
       (db (fst (@ingestFile Ref.host Ref.engine traceFs 2000 tracePath CacheTrace i1)))
       tracePath
     = getTrackedFile (db i1) tracePath.
Proof.
  apply (@second_pass_is_idle Ref.host Ref.engine traceFs 1000 2000 tracePath
           CacheTrace CacheTrace fresh
           (fst (@ingestFile Ref.host Ref.engine traceFs 1000 tracePath CacheTrace fresh))
           1%nat).
  vm_compute. reflexivity.
Defined.



(** C5, counterexample: the log was read up to byte 4 and has been emptied.
    The pass reads no line; the read observes size 0 and cursor 0, yet the
    tracked record keeps offset 4, size 4 and the old last-seen time. *)
Lemma zero_line_pass_leaves_record_stale :
  let r := passRead emptiedFs logPath afterFourBytes in
  let out := @ingestFile Ref.host Ref.engine emptiedFs 9 logPath SystemLog afterFourBytes in
  TailReader.nl_lines r = []
  /\ TailReader.newCursor r = 0
  /\ TailReader.fileSize r = 0
  /\ snd out = Ok 0%nat
  /\ tracked_files (db (fst out)) !! logPath
     = Some {| source_type := SystemLog; byte_offset := 4;
               last_seen_at := 1; file_size := 4 |}.
Proof. vm_compute. repeat split; reflexivity. Qed.

Lemma tracked_record_follows_lines_read_witness :
  let i1 := fst (@ingestFile Ref.host Ref.engine traceFs 1000 tracePath CacheTrace fresh) in
  let r := passRead traceFs tracePath fresh in
  (TailReader.nl_lines r = [] -> i1 = fresh /\ 1%nat = 0%nat)
  /\ (TailReader.nl_lines r <> [] ->
      tracked_files (db i1) !! tracePath
      = Some {| source_type := default CacheTrace
                                 (source_type <$> tracked_files (db fresh) !! tracePath);
                byte_offset := TailReader.newCursor r;
                last_seen_at := 1000;
                file_size := TailReader.fileSize r |}
      /\ (1%nat = 0%nat -> events (db i1) = events (db fresh))).
Proof.
  apply (@tracked_record_follows_lines_read Ref.host Ref.engine traceFs 1000 tracePath
           CacheTrace fresh
           (fst (@ingestFile Ref.host Ref.engine traceFs 1000 tracePath CacheTrace fresh))
           1%nat).
  - reflexivity.
  - vm_compute. reflexivity.
Defined.

(** C7, counterexample: on a closed instance [ingestFile] does not fail; it
    returns 0, although the file holds a record that an open instance
    ingests. *)
Lemma ingestFile_after_close_returns_zero :
  let c := fst (@close fresh) in
  closed c = true
  /\ @ingestFile Ref.host Ref.engine traceFs 1000 tracePath CacheTrace c = (c, Ok 0%nat)
  /\ snd (@ingestFile Ref.host Ref.engine traceFs 1000 tracePath CacheTrace fresh) = Ok 1%nat.
Proof. vm_compute. repeat split; reflexivity. Qed.

Lemma malformed_lines_do_not_fail_the_batch_witness :
  parseLines 0 (@getParser Ref.host CacheTrace) mixedLines tracePath
  = Ok (omap (@eventOf Ref.host CacheTrace 0 tracePath) mixedLines)
  /\ length (omap (@eventOf Ref.host CacheTrace 0 tracePath) mixedLines) = 2%nat.
Proof.
  split; [|vm_compute; reflexivity].
  apply (@malformed_lines_do_not_fail_the_batch Ref.host Ref.engine CacheTrace 0
           tracePath mixedLines).
  repeat apply Forall_cons_2; [| | | | apply Forall_nil_2].
  - right. vm_compute. reflexivity.
  - left. vm_compute. reflexivity.
  - left. vm_compute. reflexivity.
  - right. vm_compute. reflexivity.
Defined.

(** The same four lines as a file: the pass returns 2 and the table holds two
    rows. *)
Example mixed_trace_is_ingested :
  let fs : gmap string string := {[ tracePath := join nl mixedLines +:+ nl ]} in
  let out := @ingestFile Ref.host Ref.engine fs 0 tracePath CacheTrace fresh in
  snd out = Ok 2%nat /\ length (events (db (fst out))) = 2%nat.
Proof. vm_compute. done. Qed.

(** A record with the required fields and a numeric [note] is neither
    malformed nor well-formed: the parser throws on it.  So does a record
    whose [error] is an object with a [toString] key. *)
Example numeric_note_throws :
  @malformed Ref.host CacheTrace numericNote = false
  /\ @wellFormed Ref.host CacheTrace numericNote = false
  /\ parseLine (@getParser Ref.host CacheTrace) 0 numericNote tracePath = Throw TypeError.
Proof. vm_compute. done. Qed.

Example own_toString_key_throws :
  let line := Ref.js "{'ts':'t','seq':1,'stage':'s','error':{'toString':1}}" in
  @malformed Ref.host CacheTrace line = false
  /\ @wellFormed Ref.host CacheTrace line = false
  /\ parseLine (@getParser Ref.host CacheTrace) 0 line tracePath = Throw TypeError.
Proof. vm_compute. done. Qed.

(** C10, counterexample: a trace of two records, both valid JSON with the
    required fields; the second has a numeric [note].  The first line alone
    yields its event, but the parser throws on the second, the batch yields
    no event at all, and the pass over the file fails and inserts nothing. *)
Lemma ill_typed_record_fails_the_batch :
  let lines := [loadedLine; numericNote] in
  let fs : gmap string string := {[ tracePath := join nl lines +:+ nl ]} in
  let out := @ingestFile Ref.host Ref.engine fs 0 tracePath CacheTrace fresh in
  @wellFormed Ref.host CacheTrace loadedLine = true
  /\ parseLine (@getParser Ref.host CacheTrace) 0 loadedLine tracePath
     = Ok (Some (loadedEvent tracePath loadedLine))
  /\ @malformed Ref.host CacheTrace numericNote = false
  /\ TailReader.nl_lines (passRead fs tracePath fresh) = lines
  /\ parseLines 0 (@getParser Ref.host CacheTrace) lines tracePath = Throw TypeError
  /\ snd out = Throw TypeError
  /\ events (db (fst out)) = []
  /\ getTrackedFile (db (fst out)) tracePath = None.
Proof. vm_compute. repeat split; reflexivity. Qed.

(** ** Ingestor: what a pass leaves alone *)

Section LoopProps.
Context `{Host} `{Engine}.

Lemma ingestFile_flags (f : Ingestor -> Ingestor) (fs : gmap string string) (now : Z)
    (path : string) (st : SourceType) (i : Ingestor) :
  flagsOnly f ->
  ingestFile fs now path st (f i)
  = (f (fst (ingestFile fs now path st i)), snd (ingestFile fs now path st i)).
Proof.
  intros Hf. destruct (Hf i) as (Hdb & Hcl & Hbs & _ & Hset).
  rewrite !ingestFile_unfold. rewrite Hcl.
  destruct (closed i); [done|]. cbn zeta.
  assert (Hr : passRead fs path (f i) = passRead fs path i)
    by (unfold passRead; by rewrite Hdb).
  rewrite Hr. destruct (bool_decide _); [done|].
  destruct (parseLines _ _ _ _) as [evs|e]; [|done].
  destruct (bool_decide (evs = [])).
  - cbn [fst snd]. by rewrite Hdb, Hset.
  - rewrite !insertEvents_eq, Hdb, Hbs, Hset.
    destruct (insertBatches _ _ _ _ _) as [d1 [[]|err]]; cbn [fst snd db setDb]; [|done].
    destruct (Hf (setDb d1 i)) as (Hdb1 & _ & _ & _ & Hset1).
    by rewrite Hdb1, Hset1.
Qed.

Lemma ingestFile_only_db (fs : gmap string string) (now : Z) (path : string)
    (st : SourceType) (i : Ingestor) :
  fst (ingestFile fs now path st i)
  = setDb (db (fst (ingestFile fs now path st i))) i.
Proof.
  rewrite ingestFile_unfold. destruct (closed i); [by destruct i|]. cbn zeta.
  destruct (bool_decide _); [by destruct i|].
  destruct (parseLines _ _ _ _) as [evs|e]; [|by destruct i].
  destruct (bool_decide (evs = [])); [done|].
  rewrite insertEvents_eq.
  by destruct (insertBatches _ _ _ _ _) as [d1 [[]|err]].
Qed.

Lemma processFile_eq (fs : gmap string string) (now : Z) (path : string) (i : Ingestor) :
  processFile fs now path i
  = match getSourceTypeForFile (watchedPaths i) path with
    | Ok (Some st) => (fst (ingestFile fs now path st i), Ok tt)
    | Ok None => (i, Ok tt)
    | Throw e => (i, Throw e)
    end.
Proof.
  unfold processFile. monad_unfold.
  destruct (getSourceTypeForFile _ _) as [[st|]|e]; try done.
  by destruct (ingestFile fs now path st i) as [i' [n|e]].
Qed.

End LoopProps.

(* ===================================================================== *)
(** * Part III. Further properties of the code                            *)
(* ===================================================================== *)

(** ** Strings *)

Section MoreStringLemmas.
Lemma split_go_nl_line (l rest cur : string) :
  includes l nl = false ->
  split_go nl 0 cur (l +:+ nl +:+ rest) = (strRev cur +:+ l) :: split_go nl 0 "" rest.
Proof.
  revert cur. induction l as [|a s IH]; intros cur Hno.
  - rewrite append_nil_l, append_nil_r. unfold nl at 2. rewrite append_cons, append_nil_l.
    cbn [split_go]. rewrite startsWith_nl, Ascii.eqb_refl. reflexivity.
  - cbn [includes] in Hno. rewrite startsWith_nl in Hno.
    rewrite append_cons. cbn [split_go]. rewrite startsWith_nl.
    destruct (Ascii.eqb a LF); [discriminate|].
    rewrite IH by done. rewrite strRev_cons, append_assoc. reflexivity.
Qed.

Lemma split_unlines (ls : list string) :
  Forall (fun l => includes l nl = false) ls ->
  split (unlines ls) nl = ls ++ [""].
Proof.
  unfold split. induction 1 as [|l ls Hl _ IH]; [reflexivity|].
  cbn [unlines]. rewrite split_go_nl_line by done. rewrite IH. reflexivity.
Qed.

Lemma unlines_app (l1 l2 : list string) : unlines (l1 ++ l2) = unlines l1 +:+ unlines l2.
Proof.
  induction l1 as [|l l1 IH]; [reflexivity|].
  cbn [app unlines]. by rewrite IH, !append_assoc.
Qed.

Lemma substring_app (a b : string) :
  String.substring (String.length a) (String.length b) (a +:+ b) = b.
Proof.
  induction a as [|c a IH]; [apply substring_all|].
  rewrite append_cons. cbn [String.length String.substring]. exact IH.
Qed.

Lemma get_app_r (a b : string) (n : nat) :
  String.get (String.length a + n) (a +:+ b) = String.get n b.
Proof.
  induction a as [|c a IH]; [reflexivity|].
  rewrite append_cons. cbn [String.length Nat.add String.get]. exact IH.
Qed.

Lemma dropLast_snoc {A} (l : list A) (x : A) : dropLast (l ++ [x]) = l.
Proof. unfold dropLast. apply removelast_last. Qed.

Lemma endsWith_app (a x : string) : endsWith (a +:+ x) x = true.
Proof.
  induction a as [|c a IH].
  - rewrite append_nil_l. destruct x; cbn [endsWith]; by rewrite String.eqb_refl.
  - rewrite append_cons. cbn [endsWith]. rewrite IH. by destruct (String.eqb _ _).
Qed.

Lemma snoc_cases (s : string) : s = "" \/ exists b c, s = b +:+ String c "".
Proof.
  induction s as [|a s IH]; [by left|]. right.
  destruct IH as [-> | (b & c & ->)].
  - by exists "", a.
  - exists (String a b), c. by rewrite append_cons.
Qed.

Lemma get_last (b c2 : string) (c : ascii) :
  String.get (String.length b) ((b +:+ String c "") +:+ c2) = Some c.
Proof.
  rewrite append_assoc, <- (Nat.add_0_r (String.length b)), get_app_r.
  reflexivity.
Qed.

Lemma includes_nl_cons (a : ascii) (s : string) :
  includes (String a s) nl = Ascii.eqb a LF || includes s nl.
Proof. cbn [includes]. rewrite startsWith_nl. by destruct (Ascii.eqb a LF). Qed.

Lemma includes_nl_app (a b : string) :
  includes (a +:+ b) nl = includes a nl || includes b nl.
Proof.
  induction a as [|c a IH]; [by rewrite append_nil_l|].
  rewrite append_cons, !includes_nl_cons, IH. by rewrite orb_assoc.
Qed.

Lemma includes_nl_strRev (s : string) : includes (strRev s) nl = includes s nl.
Proof.
  induction s as [|c s IH]; [done|].
  rewrite strRev_cons, includes_nl_app, IH, !includes_nl_cons.
  change (includes "" nl) with false. rewrite orb_false_r. apply orb_comm.
Qed.

Lemma split_go_nl_pieces (s cur : string) :
  includes cur nl = false ->
  Forall (fun l => includes l nl = false) (split_go nl 0 cur s).
Proof.
  revert cur. induction s as [|a s IH]; intros cur Hcur.
  - cbn [split_go]. constructor; [by rewrite includes_nl_strRev | constructor].
  - cbn [split_go]. rewrite startsWith_nl.
    destruct (Ascii.eqb a LF) eqn:Ha.
    + constructor; [by rewrite includes_nl_strRev|]. by apply IH.
    + apply IH. by rewrite includes_nl_cons, Ha.
Qed.

Lemma Forall_dropLast {A} (P : A -> Prop) (l : list A) :
  Forall P l -> Forall P (dropLast l).
Proof.
  unfold dropLast. induction 1 as [|x l Hx Hl IH]; [constructor|].
  cbn [removelast]. destruct l; [constructor|]. by constructor.
Qed.

Lemma sliceTo_length (n : nat) (s : string) : (String.length (sliceTo n s) <= n)%nat.
Proof.
  revert s. induction n as [|n IH]; intros [|a s]; cbn [sliceTo String.length]; try lia.
  specialize (IH s). lia.
Qed.

Lemma startsWith_app (p x : string) : startsWith (p +:+ x) p = true.
Proof.
  induction p as [|a p IH]; [apply startsWith_nil|].
  rewrite append_cons. cbn [startsWith]. by rewrite Ascii.eqb_refl.
Qed.

Lemma substring_0_long (s : string) (m : nat) :
  (String.length s <= m)%nat -> String.substring 0 m s = s.
Proof.
  revert m. induction s as [|a s IH]; intros [|m] Hm; try done.
  - cbn in Hm. lia.
  - cbn [String.substring]. rewrite IH; [done | cbn in Hm; lia].
Qed.

Lemma substring_rest (p s : string) (m : nat) :
  (String.length s <= m)%nat -> String.substring (String.length p) m (p +:+ s) = s.
Proof.
  intros Hm. induction p as [|a p IH]; [by apply substring_0_long|].
  rewrite append_cons. cbn [String.length String.substring]. exact IH.
Qed.

Lemma strRev_app (a b : string) : strRev (a +:+ b) = strRev b +:+ strRev a.
Proof.
  induction a as [|c a IH]; [by rewrite append_nil_l, append_nil_r|].
  by rewrite append_cons, !strRev_cons, IH, append_assoc.
Qed.

Lemma strRev_involutive (s : string) : strRev (strRev s) = s.
Proof.
  induction s as [|c s IH]; [done|].
  by rewrite strRev_cons, strRev_app, IH.
Qed.

Lemma trimStart_cases (s : string) :
  trimStart s = ""
  \/ exists c t, trimStart s = String c t /\ isWhiteSpace c = false.
Proof.
  induction s as [|a s IH]; [by left|].
  cbn [trimStart]. destruct (isWhiteSpace a) eqn:Ha; [exact IH|].
  right. by exists a, s.
Qed.

Lemma trimStart_fix (c : ascii) (t : string) :
  isWhiteSpace c = false -> trimStart (String c t) = String c t.
Proof. intros Hc. cbn [trimStart]. by rewrite Hc. Qed.

Lemma trimStart_idem (s : string) : trimStart (trimStart s) = trimStart s.
Proof.
  destruct (trimStart_cases s) as [-> | (c & t & -> & Hc)]; [done|].
  by apply trimStart_fix.
Qed.

Lemma trimStart_snoc (u : string) (c : ascii) :
  isWhiteSpace c = false -> exists w, trimStart (u +:+ String c "") = w +:+ String c "".
Proof.
  intros Hc. induction u as [|a u IH].
  - exists "". rewrite !append_nil_l. by apply trimStart_fix.
  - rewrite append_cons. cbn [trimStart]. destruct (isWhiteSpace a); [exact IH|].
    exists (String a u). by rewrite append_cons.
Qed.

Lemma trimEnd_idem (s : string) : trimEnd (trimEnd s) = trimEnd s.
Proof. unfold trimEnd. by rewrite strRev_involutive, trimStart_idem. Qed.

Lemma trimEnd_head (c : ascii) (t : string) :
  isWhiteSpace c = false -> exists r, trimEnd (String c t) = String c r.
Proof.
  intros Hc. unfold trimEnd. rewrite strRev_cons.
  destruct (trimStart_snoc (strRev t) c Hc) as [w ->].
  exists (strRev w). by rewrite strRev_app.
Qed.

Lemma trim_idem (s : string) : trim (trim s) = trim s.
Proof.
  unfold trim at 2. unfold trim.
  destruct (trimStart_cases s) as [-> | (c & t & -> & Hc)]; [done|].
  destruct (trimEnd_head c t Hc) as [r Hr].
  rewrite Hr, (trimStart_fix c r Hc), <- Hr. apply trimEnd_idem.
Qed.

Lemma trimStart_snoc_ws (s : string) (c : ascii) :
  isWhiteSpace c = true ->
  trimStart (s +:+ String c "")
  = if String.eqb (trimStart s) "" then "" else trimStart s +:+ String c "".
Proof.
  intros Hc. induction s as [|a s IH].
  - rewrite append_nil_l. cbn [trimStart]. by rewrite Hc.
  - rewrite append_cons. cbn [trimStart]. destruct (isWhiteSpace a); [exact IH|].
    by rewrite append_cons.
Qed.

Lemma trimEnd_snoc_ws (t : string) (c : ascii) :
  isWhiteSpace c = true -> trimEnd (t +:+ String c "") = trimEnd t.
Proof.
  intros Hc. unfold trimEnd. rewrite strRev_app.
  change (strRev (String c "")) with (String c "").
  rewrite append_cons, append_nil_l. cbn [trimStart]. by rewrite Hc.
Qed.

Lemma trim_snoc_ws (s : string) (c : ascii) :
  isWhiteSpace c = true -> trim (s +:+ String c "") = trim s.
Proof.
  intros Hc. unfold trim. rewrite trimStart_snoc_ws by done.
  destruct (String.eqb_spec (trimStart s) "") as [-> | _]; [done|].
  by apply trimEnd_snoc_ws.
Qed.

Lemma trim_cons_ws (s : string) (c : ascii) :
  isWhiteSpace c = true -> trim (String c s) = trim s.
Proof. intros Hc. unfold trim. cbn [trimStart]. by rewrite Hc. Qed.

Lemma startsWith_prefix (f p : string) :
  startsWith f p = true -> exists r, f = p +:+ r.
Proof.
  revert f. induction p as [|b p IH]; intros f Hs; [by exists f|].
  destruct f as [|a f]; [done|]. cbn [startsWith] in Hs.
  destruct (Ascii.eqb_spec a b) as [-> | _]; [|done].
  destruct (IH f Hs) as [r ->]. by exists r.
Qed.

Lemma includes_cons_char (a c : ascii) (s : string) :
  includes (String a s) (String c "") = Ascii.eqb a c || includes s (String c "").
Proof.
  cbn [includes startsWith]. rewrite startsWith_nil.
  by destruct (Ascii.eqb a c).
Qed.

Lemma includes_app_char (s t : string) (c : ascii) :
  includes (s +:+ t) (String c "") = includes s (String c "") || includes t (String c "").
Proof.
  induction s as [|a s IH]; [by rewrite append_nil_l|].
  by rewrite append_cons, !includes_cons_char, IH, orb_assoc.
Qed.

Lemma longer_is_not_equal (a : ascii) (x s : string) :
  String.eqb (String a (x +:+ s)) s = false.
Proof.
  apply String.eqb_neq. intros Heq.
  apply (f_equal String.length) in Heq. cbn [String.length] in Heq.
  rewrite append_length in Heq. lia.
Qed.

Lemma startsWith_app_includes (f d q : string) :
  startsWith f (d +:+ q) = true -> includes f q = true.
Proof.
  revert f. induction d as [|b d IH]; intros f Hs.
  - rewrite append_nil_l in Hs. destruct f; cbn [includes]; by rewrite Hs.
  - destruct f as [|a f]; [done|]. rewrite append_cons in Hs. cbn [startsWith] in Hs.
    destruct (Ascii.eqb a b); [|done].
    cbn [includes]. rewrite (IH f Hs). by destruct (startsWith (String a f) q).
Qed.

Lemma eqb_startsWith (f p : string) : String.eqb f p = true -> startsWith f p = true.
Proof. intros ->%String.eqb_eq. rewrite <- (append_nil_r p) at 1. apply startsWith_app. Qed.

Lemma startsWith_app_l (f p q : string) :
  startsWith f (p +:+ q) = true -> startsWith f p = true.
Proof.
  revert f. induction p as [|b p IH]; intros f Hs; [apply startsWith_nil|].
  destruct f as [|a f]; [done|]. rewrite append_cons in Hs. cbn [startsWith] in *.
  destruct (Ascii.eqb a b); [by apply IH|done].
Qed.

Lemma includes_char_strRev (s : string) (c : ascii) :
  includes (strRev s) (String c "") = includes s (String c "").
Proof.
  induction s as [|a s IH]; [done|].
  rewrite strRev_cons, includes_app_char, IH, !includes_cons_char.
  change (includes "" (String c "")) with false. rewrite orb_false_r. apply orb_comm.
Qed.

Lemma strRev_nonempty (s : string) : s <> "" -> strRev s <> "".
Proof.
  intros Hne Hrev. apply Hne. rewrite <- (strRev_involutive s), Hrev. reflexivity.
Qed.

Lemma dropSlashes_star (s : string) :
  includes (dropSlashes s) "*" = includes s "*".
Proof.
  induction s as [|a s IH]; [done|].
  cbn [dropSlashes]. destruct (Ascii.eqb_spec a "/") as [-> | _]; [|done].
  rewrite IH. by rewrite includes_cons_char.
Qed.

Lemma dropTrailingSlashes_star (s : string) :
  includes (dropTrailingSlashes s) "*" = includes s "*".
Proof.
  unfold dropTrailingSlashes.
  by rewrite includes_char_strRev, dropSlashes_star, includes_char_strRev.
Qed.

Lemma dropSlashes_fix (a : ascii) (s : string) :
  Ascii.eqb a "/" = false -> dropSlashes (String a s) = String a s.
Proof. intros Ha. cbn [dropSlashes]. by rewrite Ha. Qed.

End MoreStringLemmas.

(** ** Tail reader: reads of whole lines, capped reads *)

Section TailReaderMore.
Import TailReader.

(** The first piece of the split is dropped exactly when the read begins
    after a byte that is not a line feed. *)
Lemma linesFrom_app (c1 c2 : string) :
  linesFrom (c1 +:+ c2) (Z.of_nat (String.length c1))
  = let pieces := split c2 nl in
    let pieces :=
      if bool_decide (c1 = "") || endsWith c1 nl then pieces else drop 1 pieces in
    match last pieces with
    | Some "" => dropLast pieces
    | _ => pieces
    end.
Proof.
  unfold linesFrom. rewrite append_length.
  replace (Z.max 0 (Z.of_nat (String.length c1 + String.length c2)
                    - Z.of_nat (String.length c1)))
    with (Z.of_nat (String.length c2)) by lia.
  rewrite !Nat2Z.id, substring_app. cbn zeta.
  destruct (snoc_cases c1) as [-> | (b & c & ->)].
  - cbn [String.length]. change (0 <? Z.of_nat 0) with false. reflexivity.
  - rewrite append_length. cbn [String.length].
    destruct (Z.ltb_spec 0 (Z.of_nat (String.length b + 1))); [|lia].
    replace (Z.to_nat (Z.of_nat (String.length b + 1) - 1)) with (String.length b) by lia.
    rewrite get_last. cbn [andb].
    assert (Hne : b +:+ String c "" <> "")
      by (destruct b; rewrite ?append_cons, ?append_nil_l; done).
    rewrite (bool_decide_eq_false_2 _ Hne).
    cbn [orb].
    destruct (Ascii.eqb_spec c LF) as [-> | Hc].
    + rewrite bool_decide_eq_true_2 by done. fold nl. by rewrite endsWith_app.
    + rewrite bool_decide_eq_false_2 by congruence. cbn [negb].
      assert (endsWith (b +:+ String c "") nl = false) as ->; [|done].
      clear -Hc. induction b as [|a b IH].
      * rewrite append_nil_l. cbn. destruct (Ascii.eqb_spec c LF); done.
      * rewrite append_cons. cbn [endsWith]. rewrite IH.
        assert (String.eqb (String a (b +:+ String c "")) nl = false) as ->; [|done].
        apply String.eqb_neq. unfold nl. intros [= -> Hb]. by destruct b.
Qed.

(** A read from an offset inside the file with a backlog within the cap. *)
Lemma readLogSlice_at (fs : gmap string string) (file c1 c2 : string) (maxBytes : option Z) :
  fs !! file = Some (c1 +:+ c2) ->
  Z.of_nat (String.length c2) <= default DEFAULT_MAX_BYTES maxBytes ->
  readLogSlice fs file (Some (Z.of_nat (String.length c1))) maxBytes
  = {| cursor := Z.of_nat (String.length (c1 +:+ c2));
       size := Z.of_nat (String.length (c1 +:+ c2));
       lines := if bool_decide (c2 = "") then []
                else linesFrom (c1 +:+ c2) (Z.of_nat (String.length c1));
       truncated := false; reset := false |}.
Proof.
  intros Hfile Hcap. unfold readLogSlice. rewrite Hfile.
  unfold window. cbn [fmap option_fmap option_map].
  rewrite Z.max_r by lia. rewrite append_length.
  destruct (Z.ltb_spec (Z.of_nat (String.length c1 + String.length c2))
              (Z.of_nat (String.length c1))); [lia|].
  destruct (Z.ltb_spec (default DEFAULT_MAX_BYTES maxBytes)
              (Z.of_nat (String.length c1 + String.length c2)
               - Z.of_nat (String.length c1))); [lia|].
  cbn [start w_reset w_truncated].
  destruct c2 as [|a c2].
  - rewrite bool_decide_eq_true_2 by done. cbn [String.length].
    rewrite Nat.add_0_r.
    destruct (Z.leb_spec (Z.of_nat (String.length c1)) (Z.of_nat (String.length c1))); [|lia].
    by rewrite orb_true_r.
  - rewrite bool_decide_eq_false_2 by done. cbn [String.length].
    destruct (Z.eqb_spec (Z.of_nat (String.length c1 + S (String.length c2))) 0); [lia|].
    destruct (Z.leb_spec (Z.of_nat (String.length c1 + S (String.length c2)))
                (Z.of_nat (String.length c1))); [lia|].
    reflexivity.
Qed.

Lemma lines_of_unlines (ls : list string) :
  Forall (fun l => includes l nl = false) ls ->
  match last (split (unlines ls) nl) with
  | Some "" => dropLast (split (unlines ls) nl)
  | _ => split (unlines ls) nl
  end = ls.
Proof.
  intros Hls. rewrite split_unlines by done.
  rewrite last_snoc. apply dropLast_snoc.
Qed.

(** A read that begins at the start of the file or right after a line
    feed returns the lines appended since, whole. *)
Lemma readLogSlice_appended (fs : gmap string string) (file before : string)
    (ls : list string) (maxBytes : option Z) :
  fs !! file = Some (before +:+ unlines ls) ->
  before = "" \/ endsWith before nl = true ->
  Forall (fun l => includes l nl = false) ls ->
  Z.of_nat (String.length (unlines ls)) <= default DEFAULT_MAX_BYTES maxBytes ->
  readLogSlice fs file (Some (Z.of_nat (String.length before))) maxBytes
  = {| cursor := Z.of_nat (String.length (before +:+ unlines ls));
       size := Z.of_nat (String.length (before +:+ unlines ls));
       lines := ls; truncated := false; reset := false |}.
Proof.
  intros Hfile Hbefore Hls Hcap.
  rewrite (readLogSlice_at fs file before (unlines ls)) by done.
  f_equal. destruct ls as [|l ls].
  { by rewrite bool_decide_eq_true_2. }
  rewrite bool_decide_eq_false_2.
  2:{ cbn [unlines]. destruct l; by rewrite ?append_cons. }
  rewrite linesFrom_app. cbn zeta.
  assert (bool_decide (before = "") || endsWith before nl = true) as ->.
  { destruct Hbefore as [-> | ->]; [done | by rewrite orb_true_r]. }
  by apply lines_of_unlines.
Qed.

(** X1. [readNewLines] from a cursor that stands at the start of the file or
    right after a line feed, on a file whose text from there on is a sequence
    of lines each ended by a line feed (within the cap of 1,000,000 bytes),
    returns exactly those lines, in order; the new cursor and the file size
    are the length of the file and [reset] is false. *)
Theorem appended_lines_are_read (fs : gmap string string) (file before : string)
    (ls : list string) :
  fs !! file = Some (before +:+ unlines ls) ->
  before = "" \/ endsWith before nl = true ->
  Forall (fun l => includes l nl = false) ls ->
  Z.of_nat (String.length (unlines ls)) <= DEFAULT_MAX_BYTES ->
  readNewLines fs file (Z.of_nat (String.length before)) None
  = {| nl_lines := ls;
       newCursor := Z.of_nat (String.length (before +:+ unlines ls));
       fileSize := Z.of_nat (String.length (before +:+ unlines ls));
       nl_reset := false |}.
Proof.
  intros Hfile Hbefore Hls Hcap. unfold readNewLines.
  by rewrite (readLogSlice_appended fs file before ls None).
Qed.

Lemma appended_lines_are_read_witness :
  readNewLines {[ "f.log" := "{a}" +:+ nl +:+ "{b}" +:+ nl +:+ "{c}" +:+ nl ]} "f.log" 4 None
  = {| nl_lines := ["{b}"; "{c}"]; newCursor := 12; fileSize := 12; nl_reset := false |}.
Proof.
  apply (appended_lines_are_read
           {[ "f.log" := "{a}" +:+ nl +:+ "{b}" +:+ nl +:+ "{c}" +:+ nl ]}
           "f.log" ("{a}" +:+ nl) ["{b}"; "{c}"]).
  - reflexivity.
  - right. reflexivity.
  - repeat constructor.
  - vm_compute. discriminate.
Defined.

(** X2. A read whose cursor stands inside a line (the byte before it is not a
    line feed) drops the rest of that line and returns the lines after it;
    the cursor moves to the end of the file and [reset] stays false. *)
Theorem mid_line_start_skips_to_next_line (fs : gmap string string)
    (file before frag : string) (ls : list string) (maxBytes : option Z) :
  fs !! file = Some (before +:+ (frag +:+ nl +:+ unlines ls)) ->
  before <> "" -> endsWith before nl = false ->
  includes frag nl = false ->
  Forall (fun l => includes l nl = false) ls ->
  Z.of_nat (String.length (frag +:+ nl +:+ unlines ls)) <= default DEFAULT_MAX_BYTES maxBytes ->
  let r := readLogSlice fs file (Some (Z.of_nat (String.length before))) maxBytes in
  lines r = ls
  /\ cursor r = Z.of_nat (String.length (before +:+ (frag +:+ nl +:+ unlines ls)))
  /\ reset r = false.
Proof.
  intros Hfile Hne Hends Hfrag Hls Hcap r. subst r.
  rewrite (readLogSlice_at fs file before (frag +:+ nl +:+ unlines ls)) by done.
  cbn [lines cursor reset]. split; [|done].
  rewrite bool_decide_eq_false_2.
  2:{ destruct frag; by rewrite ?append_cons. }
  rewrite linesFrom_app. cbn zeta.
  rewrite bool_decide_eq_false_2, Hends by done. cbn [orb].
  change (frag +:+ nl +:+ unlines ls) with (unlines (frag :: ls)).
  rewrite split_unlines by (by constructor).
  cbn [app drop]. rewrite drop_0, last_snoc. apply dropLast_snoc.
Qed.

Lemma mid_line_start_skips_to_next_line_witness :
  let r := readLogSlice {[ "f.log" := "{a}" +:+ nl +:+ "{b}" +:+ nl +:+ "{c}" +:+ nl ]}
             "f.log" (Some 5) None in
  lines r = ["{c}"] /\ cursor r = 12 /\ reset r = false.
Proof.
  apply (mid_line_start_skips_to_next_line
           {[ "f.log" := "{a}" +:+ nl +:+ "{b}" +:+ nl +:+ "{c}" +:+ nl ]}
           "f.log" ("{a}" +:+ nl +:+ "{") "b}" ["{c}"] None).
  - reflexivity.
  - discriminate.
  - reflexivity.
  - reflexivity.
  - repeat constructor.
  - vm_compute. discriminate.
Defined.

(** X3. Reads compose: for a file of complete lines that grows by complete
    lines, the read from byte 0 before the growth followed by the read from
    the cursor it returned gives the same lines, and ends at the same cursor,
    as one read of the grown file from byte 0. *)
Theorem two_reads_compose (fs1 fs2 : gmap string string) (file : string)
    (l1 l2 : list string) (maxBytes : option Z) :
  fs1 !! file = Some (unlines l1) ->
  fs2 !! file = Some (unlines (l1 ++ l2)) ->
  Forall (fun l => includes l nl = false) (l1 ++ l2) ->
  Z.of_nat (String.length (unlines (l1 ++ l2))) <= default DEFAULT_MAX_BYTES maxBytes ->
  let r1 := readLogSlice fs1 file (Some 0) maxBytes in
  let r2 := readLogSlice fs2 file (Some (cursor r1)) maxBytes in
  let whole := readLogSlice fs2 file (Some 0) maxBytes in
  lines r1 = l1 /\ lines r2 = l2
  /\ lines whole = lines r1 ++ lines r2
  /\ cursor r2 = cursor whole.
Proof.
  intros Hf1 Hf2 [Hl1 Hl2]%Forall_app Hcap r1 r2 whole.
  rewrite unlines_app in Hf2, Hcap. rewrite append_length in Hcap.
  assert (H1 : r1 = {| cursor := Z.of_nat (String.length (unlines l1));
                       size := Z.of_nat (String.length (unlines l1));
                       lines := l1; truncated := false; reset := false |}).
  { subst r1. apply (readLogSlice_appended fs1 file "" l1 maxBytes); [done|by left|done|lia]. }
  assert (H2 : r2 = {| cursor := Z.of_nat (String.length (unlines l1 +:+ unlines l2));
                       size := Z.of_nat (String.length (unlines l1 +:+ unlines l2));
                       lines := l2; truncated := false; reset := false |}).
  { subst r2. rewrite H1. cbn [cursor].
    apply (readLogSlice_appended fs2 file (unlines l1) l2 maxBytes); [done| |done|lia].
    destruct l1 as [|l l1 _] using rev_ind; [by left|right].
    rewrite unlines_app. cbn [unlines]. rewrite append_nil_r, <- append_assoc.
    apply endsWith_app. }
  assert (H3 : whole = {| cursor := Z.of_nat (String.length (unlines (l1 ++ l2)));
                          size := Z.of_nat (String.length (unlines (l1 ++ l2)));
                          lines := l1 ++ l2; truncated := false; reset := false |}).
  { subst whole. apply (readLogSlice_appended fs2 file "" (l1 ++ l2) maxBytes).
    - by rewrite unlines_app.
    - by left.
    - by apply Forall_app.
    - rewrite unlines_app, append_length. lia. }
  rewrite H1, H2, H3. cbn [lines cursor]. by rewrite unlines_app.
Qed.

Lemma two_reads_compose_witness :
  let fs1 : gmap string string := {[ "f.log" := "{a}" +:+ nl ]} in
  let fs2 : gmap string string := {[ "f.log" := "{a}" +:+ nl +:+ "{b}" +:+ nl +:+ "{c}" +:+ nl ]} in
  let r1 := readLogSlice fs1 "f.log" (Some 0) None in
  let r2 := readLogSlice fs2 "f.log" (Some (cursor r1)) None in
  let whole := readLogSlice fs2 "f.log" (Some 0) None in
  lines r1 = ["{a}"] /\ lines r2 = ["{b}"; "{c}"]
  /\ lines whole = lines r1 ++ lines r2
  /\ cursor r2 = cursor whole.
Proof.
  apply (two_reads_compose
           {[ "f.log" := "{a}" +:+ nl ]}
           {[ "f.log" := "{a}" +:+ nl +:+ "{b}" +:+ nl +:+ "{c}" +:+ nl ]}
           "f.log" ["{a}"] ["{b}"; "{c}"] None).
  - reflexivity.
  - reflexivity.
  - repeat constructor.
  - vm_compute. discriminate.
Defined.

Lemma linesFrom_pieces (content : string) (start : Z) :
  Forall (fun l => includes l nl = false) (linesFrom content start).
Proof.
  unfold linesFrom. cbn zeta.
  set (pieces := if _ && _ then _ else _).
  assert (Hp : Forall (fun l => includes l nl = false) pieces).
  { subst pieces. destruct (_ && _); [apply Forall_drop|]; by apply split_go_nl_pieces. }
  destruct (last pieces) as [[|]|]; try done. by apply Forall_dropLast.
Qed.

(** X4. Whatever the file system, the cursor and the cap: no returned line
    contains a line feed, the returned cursor is the returned size, and the
    size is the length of the file (0 for a file that does not exist). *)
Theorem read_result_invariants (fs : gmap string string) (file : string)
    (c maxBytes : option Z) :
  let r := readLogSlice fs file c maxBytes in
  Forall (fun l => includes l nl = false) (lines r)
  /\ cursor r = size r
  /\ size r = Z.of_nat (String.length (default "" (fs !! file))).
Proof.
  unfold readLogSlice. destruct (fs !! file) as [content|]; [|by repeat constructor].
  cbn [default]. destruct (_ || _); cbn [lines cursor size].
  - by repeat constructor.
  - split; [apply linesFrom_pieces | done].
Qed.

(** X5. When the bytes after the cursor (or the whole file, without a cursor)
    exceed the cap, the read skips to the last [cap] bytes: it returns what a
    read from cursor [size - cap] returns, so the bytes between the cursor
    and that offset are never returned; [truncated] is true, and [reset] is
    true exactly when a cursor was supplied, although the file was not
    rotated. *)
Theorem oversized_backlog_is_skipped (fs : gmap string string) (file content : string)
    (c : option Z) (cap : Z) :
  fs !! file = Some content ->
  0 <= cap -> 0 <= default 0 c ->
  cap < Z.of_nat (String.length content) - default 0 c ->
  let size := Z.of_nat (String.length content) in
  let r := readLogSlice fs file c (Some cap) in
  truncated r = true
  /\ reset r = bool_decide (is_Some c)
  /\ cursor r = size
  /\ lines r = lines (readLogSlice fs file (Some (size - cap)) (Some cap)).
Proof.
  intros Hfile Hcap Hc Hgap size r. subst r. unfold readLogSlice. rewrite Hfile.
  fold size. fold size in Hgap. change (default DEFAULT_MAX_BYTES (Some cap)) with cap.
  assert (Hto : window size (Some (size - cap)) cap
                = {| start := size - cap; w_reset := false; w_truncated := false |}).
  { unfold window. cbn [fmap option_fmap option_map].
    rewrite Z.max_r by lia.
    destruct (Z.ltb_spec size (size - cap)); [lia|].
    by destruct (Z.ltb_spec cap (size - (size - cap))); [lia|]. }
  rewrite Hto. clear Hto.
  destruct c as [c|]; unfold window; cbn [fmap option_fmap option_map].
  - change (default 0 (Some c)) with c in Hc, Hgap.
    rewrite (Z.max_r 0 c) by lia.
    destruct (Z.ltb_spec size c); [lia|].
    destruct (Z.ltb_spec cap (size - c)); [|lia].
    rewrite (Z.max_r 0 (size - cap)) by lia.
    cbn [start w_reset w_truncated].
    rewrite bool_decide_eq_true_2 by (by eexists).
    destruct (_ || _); cbn [reset truncated cursor lines]; done.
  - change (default 0 None) with 0 in Hc, Hgap.
    rewrite (Z.max_r 0 (size - cap)) by lia.
    cbn [start w_reset w_truncated].
    destruct (Z.ltb_spec 0 (size - cap)); [|lia].
    rewrite bool_decide_eq_false_2 by (by intros [? ?]).
    destruct (_ || _); cbn [reset truncated cursor lines]; done.
Qed.

Lemma oversized_backlog_is_skipped_witness :
  let fs : gmap string string := {[ "f.log" := "{a}" +:+ nl +:+ "{b}" +:+ nl +:+ "{c}" +:+ nl ]} in
  let r := readLogSlice fs "f.log" (Some 0) (Some 4) in
  truncated r = true
  /\ reset r = bool_decide (is_Some (Some 0))
  /\ cursor r = 12
  /\ lines r = lines (readLogSlice fs "f.log" (Some (12 - 4)) (Some 4)).
Proof.
  apply (oversized_backlog_is_skipped
           {[ "f.log" := "{a}" +:+ nl +:+ "{b}" +:+ nl +:+ "{c}" +:+ nl ]}
           "f.log" ("{a}" +:+ nl +:+ "{b}" +:+ nl +:+ "{c}" +:+ nl) (Some 0) 4).
  - reflexivity.
  - lia.
  - cbn. lia.
  - vm_compute. reflexivity.
Defined.
End TailReaderMore.

(** ** Parsers: what every event satisfies, batches, white space *)

Ltac event_of H :=
  cbn [mbind result_bind] in H;
  match type of H with
  | Ok (Some ?x) = Ok (Some ?e) => assert (e = x) as -> by congruence
  end.

Section ParserMore.
Context `{Host}.

Lemma firstTextBlock_length (blocks : list value) (s : string) :
  firstTextBlock blocks = Some s -> (String.length s <= MAX_PREVIEW)%nat.
Proof.
  revert s. induction blocks as [|b blocks IH]; intros s; [done|].
  cbn [firstTextBlock]. destruct (_ || _); [by apply IH|].
  destruct (isStr _ _); [|by apply IH].
  destruct (getProp b "text"); try (by apply IH).
  intros Hs. assert (s = sliceTo MAX_PREVIEW s0) as -> by congruence.
  apply sliceTo_length.
Qed.

Lemma previewSlice_fits (v w : value) : previewSlice v = Ok w -> previewFits w = true.
Proof.
  destruct v; cbn [previewSlice]; intros Hw; try done.
  - by assert (w = VUndef) as -> by congruence.
  - by assert (w = VUndef) as -> by congruence.
  - assert (w = VStr (sliceTo MAX_PREVIEW s)) as -> by congruence.
    apply Nat.leb_le, sliceTo_length.
  - assert (w = VArr (take MAX_PREVIEW items)) as -> by congruence.
    apply Nat.leb_le. rewrite length_take. lia.
Qed.

(** The shape of the events of the three parsers. *)
Lemma parseSystemLogLine_event (now : Z) (line file : string) (e : ParsedEvent) :
  parseSystemLogLine now line file = Ok (Some e) ->
  exists entry lvl eventType,
    JSON_parse (trim line) = Some entry
    /\ extractLogLevel entry = Ok lvl
    /\ startsWith eventType "log" = true
    /\ e = {| ts := extractTimestamp now entry; sourceType := SystemLog;
              sourceFile := file; eventType := eventType; level := lvl;
              sessionId := VUndef; agentId := None; runId := VUndef;
              provider := VUndef; modelId := VUndef; role := VUndef;
              messagePreview := optString (sliceTo MAX_PREVIEW <$> extractMessage entry);
              rawJson := trim line |}.
Proof.
  unfold parseSystemLogLine. intros Hp.
  destruct (_ || _); [done|]. destruct (JSON_parse _) as [entry|] eqn:Hparse; [|done].
  destruct (_ || _); [done|].
  destruct (extractLogLevel entry) as [lvl|] eqn:Hlvl; [|done].
  cbn [mbind result_bind] in Hp.
  destruct (truthy (extractSubsystem entry)).
  - destruct (toString (extractSubsystem entry)) as [name|]; [|done].
    event_of Hp. exists entry, lvl, ("log:" +:+ name).
    by repeat split.
  - event_of Hp. by exists entry, lvl, "log".
Qed.

Lemma parseCacheTraceLine_event (now : Z) (line file : string) (e : ParsedEvent) :
  parseCacheTraceLine now line file = Ok (Some e) ->
  exists entry stage preview,
    JSON_parse (trim line) = Some entry
    /\ isCacheTraceEvent entry = true
    /\ previewFits preview = true
    /\ e = {| ts := getProp entry "ts"; sourceType := CacheTrace;
              sourceFile := file; eventType := "cache:" +:+ stage; level := None;
              sessionId := getProp entry "sessionId"; agentId := None;
              runId := getProp entry "runId"; provider := getProp entry "provider";
              modelId := getProp entry "modelId"; role := VUndef;
              messagePreview := preview; rawJson := trim line |}.
Proof.
  unfold parseCacheTraceLine. intros Hp.
  destruct (_ || _); [done|]. destruct (JSON_parse _) as [entry|] eqn:Hparse; [|done].
  destruct (isCacheTraceEvent entry) eqn:Hc; [|done]. cbn [negb] in Hp.
  destruct (if truthy (getProp entry "note") then _ else _) as [m|]; [|done].
  cbn [mbind result_bind] in Hp.
  destruct (toString (getProp entry "stage")) as [stage|]; [|done].
  cbn [mbind result_bind] in Hp.
  destruct (previewSlice m) as [w|] eqn:Hw; [|done].
  event_of Hp. exists entry, stage, w. repeat split; try done.
  by eapply previewSlice_fits.
Qed.

Lemma parseSessionLine_event (now : Z) (line file : string) (e : ParsedEvent) :
  parseSessionLine now line file = Ok (Some e) ->
  exists entry,
    JSON_parse (trim line) = Some entry
    /\ ((isSessionHeader entry = true
         /\ e = {| ts := getProp entry "timestamp"; sourceType := Session;
                   sourceFile := file; eventType := "session:start"; level := None;
                   sessionId := getProp entry "id";
                   agentId := extractAgentIdFromPath file; runId := VUndef;
                   provider := VUndef; modelId := VUndef; role := VUndef;
                   messagePreview := VUndef; rawJson := trim line |})
        \/ (exists t role,
              e = {| ts := VStr t; sourceType := Session; sourceFile := file;
                     eventType := "session:message:" +:+ role; level := None;
                     sessionId := VUndef; agentId := extractAgentIdFromPath file;
                     runId := VUndef;
                     provider := getProp (getProp entry "message") "provider";
                     modelId := getProp (getProp entry "message") "model";
                     role := getProp (getProp entry "message") "role";
                     messagePreview :=
                       optString (extractTextPreview
                                    (getProp (getProp entry "message") "content"));
                     rawJson := trim line |})
        \/ (exists type,
              e = {| ts := VStr (Date_toISOString now); sourceType := Session;
                     sourceFile := file; eventType := "session:" +:+ type;
                     level := None; sessionId := VUndef;
                     agentId := extractAgentIdFromPath file; runId := VUndef;
                     provider := VUndef; modelId := VUndef; role := VUndef;
                     messagePreview := VUndef; rawJson := trim line |})).
Proof.
  unfold parseSessionLine. intros Hp.
  destruct (_ || _); [done|]. destruct (JSON_parse _) as [entry|] eqn:Hparse; [|done].
  destruct (_ || _); [done|]. exists entry. split; [done|].
  destruct (isSessionHeader entry) eqn:Hh.
  { event_of Hp. by left. }
  destruct (isSessionMessage entry).
  - destruct (if truthy _ then _ else _) as [t|]; [|done].
    cbn [mbind result_bind] in Hp.
    destruct (toString _) as [role|]; [|done].
    event_of Hp. right. left. by exists t, role.
  - destruct (toString _) as [type|]; [|done].
    event_of Hp. right. right. by exists type.
Qed.

(** X6. Whenever one of the three parsers returns an event, its message
    preview is absent or has at most 500 characters (at most 500 items when a
    cache-trace [note] is an array). *)
Theorem preview_is_at_most_500_chars (st : SourceType) (now : Z) (line file : string)
    (e : ParsedEvent) :
  parseLine (getParser st) now line file = Ok (Some e) ->
  previewFits (messagePreview e) = true.
Proof.
  destruct st; cbn [getParser PARSERS parseLine systemLogParser cacheTraceParser sessionParser];
    intros Hp.
  - apply parseSystemLogLine_event in Hp as (entry & lvl & evt & _ & _ & _ & ->).
    cbn [messagePreview].
    destruct (extractMessage entry); cbn [fmap option_fmap option_map optString previewFits];
      [|done].
    apply Nat.leb_le, sliceTo_length.
  - by apply parseCacheTraceLine_event in Hp as (entry & stage & w & _ & _ & Hw & ->).
  - apply parseSessionLine_event in Hp
      as (entry & _ & [[_ ->] | [(t & role & ->) | (type & ->)]]); try done.
    cbn [messagePreview]. unfold extractTextPreview.
    destruct (getProp (getProp entry "message") "content") as [| | | |s|blocks|];
      cbn [optString previewFits]; try done.
    + apply Nat.leb_le, sliceTo_length.
    + destruct (firstTextBlock blocks) as [s|] eqn:Hb; cbn [optString previewFits]; [|done].
      by eapply Nat.leb_le, firstTextBlock_length.
Qed.

Lemma event_source_type (st : SourceType) (now : Z) (line file : string)
    (e : ParsedEvent) :
  parseLine (getParser st) now line file = Ok (Some e) -> sourceType e = st.
Proof.
  destruct st; cbn [getParser PARSERS parseLine systemLogParser cacheTraceParser sessionParser];
    intros Hp.
  - by apply parseSystemLogLine_event in Hp as (entry & lvl & evt & _ & _ & _ & ->).
  - by apply parseCacheTraceLine_event in Hp as (entry & stage & w & _ & _ & Hw & ->).
  - by apply parseSessionLine_event in Hp
      as (entry & _ & [[_ ->] | [(t & role & ->) | (type & ->)]]).
Qed.

(** X7. An event carries the source type of the parser that produced it and
    the source file it was given, and its event type lies in the name space
    of the parser: [log], [cache:] or [session:]. *)
Theorem event_is_tagged_with_its_source (st : SourceType) (now : Z) (line file : string)
    (e : ParsedEvent) :
  parseLine (getParser st) now line file = Ok (Some e) ->
  sourceType e = st /\ sourceFile e = file
  /\ startsWith (eventType e) (eventNamespace st) = true.
Proof.
  destruct st; cbn [getParser PARSERS parseLine systemLogParser cacheTraceParser sessionParser];
    intros Hp.
  - by apply parseSystemLogLine_event in Hp as (entry & lvl & evt & _ & _ & ? & ->).
  - apply parseCacheTraceLine_event in Hp as (entry & stage & w & _ & _ & Hw & ->).
    cbn [sourceType sourceFile eventType eventNamespace].
    repeat split; try apply startsWith_app; done.
  - apply parseSessionLine_event in Hp
      as (entry & _ & [[_ ->] | [(t & role & ->) | (type & ->)]]);
      cbn [sourceType sourceFile eventType eventNamespace];
      repeat split; try apply startsWith_app; done.
Qed.

Lemma parseLines_app_eq (now : Z) (p : LogParser) (l1 l2 : list string) (file : string) :
  parseLines now p (l1 ++ l2) file
  = (e1 ← parseLines now p l1 file;
     e2 ← parseLines now p l2 file;
     Ok (e1 ++ e2))
  /\ (forall evs, parseLines now p l1 file = Ok evs -> (length evs <= length l1)%nat).
Proof.
  split.
  - induction l1 as [|l l1 IH].
    + cbn [app parseLines mbind result_bind]. by destruct (parseLines now p l2 file).
    + cbn [app]. rewrite !parseLines_cons, IH.
      destruct (parseLine p now l file) as [r|]; [|done]. cbn [mbind result_bind].
      destruct (parseLines now p l1 file) as [e1|]; [|done]. cbn [mbind result_bind].
      destruct (parseLines now p l2 file) as [e2|]; [|done]. cbn [mbind result_bind].
      by destruct r.
  - induction l1 as [|l l1 IH]; intros evs.
    + cbn [parseLines]. intros Hp. assert (evs = []) as -> by congruence. done.
    + rewrite parseLines_cons.
      destruct (parseLine p now l file) as [r|]; [|done]. cbn [mbind result_bind].
      destruct (parseLines now p l1 file) as [e1|]; [|done]. cbn [mbind result_bind].
      specialize (IH e1 eq_refl). intros Hp.
      assert (evs = match r with Some e => e :: e1 | None => e1 end) as -> by congruence.
      destruct r; cbn [length]; lia.
Qed.

(** X8. [parseLines] distributes over concatenation: the events of two
    batches parsed as one are the events of the first followed by those of
    the second, and the batch throws exactly when the first part throws or,
    the first part being parsed, the second throws.  A batch never yields
    more events than it has lines. *)
Theorem parseLines_app (now : Z) (p : LogParser) (l1 l2 : list string) (file : string) :
  parseLines now p (l1 ++ l2) file
  = (e1 ← parseLines now p l1 file;
     e2 ← parseLines now p l2 file;
     Ok (e1 ++ e2))
  /\ (forall evs, parseLines now p l1 file = Ok evs -> (length evs <= length l1)%nat)
  /\ (forall e, parseLines now p (l1 ++ l2) file = Throw e ->
        parseLines now p l1 file = Throw e
        \/ exists e1, parseLines now p l1 file = Ok e1
                      /\ parseLines now p l2 file = Throw e).
Proof.
  destruct (parseLines_app_eq now p l1 l2 file) as [Happ Hlen].
  split; [done|]. split; [done|].
  intros e. rewrite Happ.
  destruct (parseLines now p l1 file) as [e1|err]; cbn [mbind result_bind].
  - destruct (parseLines now p l2 file) as [e2|err2]; cbn [mbind result_bind]; [done|].
    intros [= ->]. right. by exists e1.
  - intros [= ->]. by left.
Qed.

Lemma spanSegment_app (seg rest : string) :
  includes seg "/" = false ->
  spanSegment (seg +:+ "/" +:+ rest) = (seg, "/" +:+ rest).
Proof.
  induction seg as [|a seg IH]; intros Hno.
  - reflexivity.
  - rewrite append_cons. cbn [spanSegment].
    cbn [includes startsWith] in Hno. rewrite startsWith_nil in Hno.
    destruct (Ascii.eqb a "/"); [done|]. by rewrite IH.
Qed.

Lemma agentId_here (id f : string) :
  id <> "" -> includes id "/" = false ->
  extractAgentIdFromPath ("agents/" +:+ id +:+ "/sessions/" +:+ f) = Some id.
Proof.
  intros Hne Hno.
  assert (Hseg : spanSegment (String.substring 7
                   (String.length ("agents/" +:+ id +:+ "/sessions/" +:+ f))
                   ("agents/" +:+ id +:+ "/sessions/" +:+ f))
                 = (id, "/sessions/" +:+ f)).
  { rewrite (substring_rest "agents/" (id +:+ "/sessions/" +:+ f)).
    - change ("/sessions/" +:+ f) with ("/" +:+ ("sessions/" +:+ f)).
      by apply spanSegment_app.
    - rewrite (append_length "agents/"). lia. }
  change ("agents/" +:+ id +:+ "/sessions/" +:+ f)
    with (String "a" ("gents/" +:+ id +:+ "/sessions/" +:+ f)) at 1.
  cbn [extractAgentIdFromPath].
  change (String "a" ("gents/" +:+ id +:+ "/sessions/" +:+ f))
    with ("agents/" +:+ id +:+ "/sessions/" +:+ f).
  rewrite (startsWith_app "agents/"), Hseg.
  destruct id as [|c id]; [done|].
  cbn [String.eqb negb andb]. by rewrite (startsWith_app "/sessions/").
Qed.

Lemma startsWith_agents_app (d rest : string) :
  startsWith d "agents/" = false ->
  startsWith (d +:+ "agents/" +:+ rest) "agents/" = false \/ d = "".
Proof.
  intros Hs. destruct d as [|a0 d]; [by right|left]. revert Hs.
  rewrite append_cons. cbn [startsWith].
  destruct (Ascii.eqb a0 "a"); [|done].
  do 6 (let a := fresh "a" in
        destruct d as [|a d]; [reflexivity|];
        rewrite append_cons; cbn [startsWith];
        destruct (Ascii.eqb a _); [|done]).
  by rewrite startsWith_nil.
Qed.

Lemma agentId_absent (p : string) :
  includes p "agents/" = false -> extractAgentIdFromPath p = None.
Proof.
  induction p as [|a p IH]; [done|].
  cbn [includes]. destruct (startsWith (String a p) "agents/") eqn:Hs; [done|].
  intros Hp. cbn [extractAgentIdFromPath]. rewrite Hs. by apply IH.
Qed.

Lemma session_agentId (now : Z) (line file : string) (e : ParsedEvent) :
  parseSessionLine now line file = Ok (Some e) ->
  agentId e = extractAgentIdFromPath file.
Proof. unfold parseSessionLine. intros Hp. parser_cases Hp. Qed.

(** X9. The agent id of a session event is read from the path of the file:
    for a path [<dir>agents/<id>/sessions/<rest>], where [<id>] is a
    non-empty segment and [agents/] does not occur in [<dir>], it is [<id>],
    on every event the session parser returns for a line of that file; a
    path in which [agents/] does not occur gives none. *)
Theorem agent_id_is_read_from_the_path (dir id f : string) :
  includes dir "agents/" = false ->
  id <> "" -> includes id "/" = false ->
  let path := dir +:+ "agents/" +:+ id +:+ "/sessions/" +:+ f in
  extractAgentIdFromPath path = Some id
  /\ (forall now line e, parseSessionLine now line path = Ok (Some e) ->
                         agentId e = Some id)
  /\ (forall now line e, parseSessionLine now line dir = Ok (Some e) ->
                         agentId e = None).
Proof.
  intros Hdir Hne Hno path. subst path.
  assert (Hid : extractAgentIdFromPath (dir +:+ "agents/" +:+ id +:+ "/sessions/" +:+ f)
                = Some id).
  { induction dir as [|c dir IH].
    - rewrite append_nil_l. by apply agentId_here.
    - cbn [includes] in Hdir.
      destruct (startsWith (String c dir) "agents/") eqn:Hs; [done|].
      specialize (IH Hdir).
      destruct (startsWith_agents_app (String c dir) (id +:+ "/sessions/" +:+ f) Hs)
        as [Hhere | ?]; [|done].
      rewrite append_cons in *. cbn [extractAgentIdFromPath].
      rewrite Hhere. exact IH. }
  split; [exact Hid|]. split.
  - intros now line e Hp. by rewrite (session_agentId now line _ e Hp).
  - intros now line e Hp. rewrite (session_agentId now line _ e Hp).
    by apply agentId_absent.
Qed.

Lemma lowerChar_idem (a : ascii) : lowerChar (lowerChar a) = lowerChar a.
Proof. destruct a as [[] [] [] [] [] [] [] []]; reflexivity. Qed.

Lemma toLowerCase_idem (s : string) : toLowerCase (toLowerCase s) = toLowerCase s.
Proof.
  induction s as [|a s IH]; [done|].
  cbn [toLowerCase]. by rewrite lowerChar_idem, IH.
Qed.

Lemma LOG_LEVEL_MAP_lower (n : number) (l : string) :
  LOG_LEVEL_MAP n = Some l -> toLowerCase l = l.
Proof.
  unfold LOG_LEVEL_MAP. intros Hl.
  repeat (case_match; try done); assert (Some l = Some _) as [= ->] by (symmetry; eassumption);
  reflexivity.
Qed.

Lemma extractLogLevel_lower (entry : value) (l : string) :
  extractLogLevel entry = Ok (Some l) -> toLowerCase l = l.
Proof.
  unfold extractLogLevel, callToLowerCase.
  destruct (truthy (getPropOpt _ _)).
  { destruct (getProp (getProp entry "_meta") "logLevelName"); try done.
    intros Hl. assert (l = toLowerCase s) as -> by congruence. apply toLowerCase_idem. }
  destruct (truthy (getProp entry "logLevelName")).
  { destruct (getProp entry "logLevelName"); try done.
    intros Hl. assert (l = toLowerCase s) as -> by congruence. apply toLowerCase_idem. }
  destruct (nullish _ _); try done.
  intros Hl. apply (LOG_LEVEL_MAP_lower n). congruence.
Qed.

(** X10. Only the system-log parser sets a level, and the level it sets is in
    lower case, whether it comes from a level name of the record or from the
    table of numeric levels. *)
Theorem level_is_lower_case (st : SourceType) (now : Z) (line file : string)
    (e : ParsedEvent) (l : string) :
  parseLine (getParser st) now line file = Ok (Some e) ->
  level e = Some l ->
  st = SystemLog /\ toLowerCase l = l.
Proof.
  destruct st; cbn [getParser PARSERS parseLine systemLogParser cacheTraceParser sessionParser];
    intros Hp.
  - apply parseSystemLogLine_event in Hp as (entry & lvl & evt & _ & Hlvl & _ & ->).
    cbn [level]. intros ->. split; [done|].
    by eapply extractLogLevel_lower.
  - by apply parseCacheTraceLine_event in Hp as (entry & stage & w & _ & _ & Hw & ->).
  - by apply parseSessionLine_event in Hp
      as (entry & _ & [[_ ->] | [(t & role & ->) | (type & ->)]]).
Qed.

(** X11. The [ts] of an event is null or undefined only for a session header
    whose record has no [timestamp]: events of the system-log and cache-trace
    parsers, session messages and other session entries always have a [ts].
    (The [ts] column of the store is NOT NULL.) *)
Theorem only_a_session_header_lacks_ts (st : SourceType) (now : Z) (line file : string)
    (e : ParsedEvent) :
  parseLine (getParser st) now line file = Ok (Some e) ->
  isNullish (ts e) = true ->
  st = Session /\ eventType e = "session:start" /\ sessionId e <> VUndef.
Proof.
  destruct st; cbn [getParser PARSERS parseLine systemLogParser cacheTraceParser sessionParser];
    intros Hp.
  - apply parseSystemLogLine_event in Hp as (entry & lvl & evt & _ & _ & _ & ->).
    cbn [ts]. unfold extractTimestamp.
    destruct (truthy (getPropOpt _ _)) eqn:Hd.
    { unfold getPropOpt in Hd. destruct (isNullish (getProp entry "_meta")); [done|].
      by destruct (getProp (getProp entry "_meta") "date"). }
    destruct (truthy (getProp entry "date") && _) eqn:Hd2; [|done].
    by destruct (getProp entry "date").
  - apply parseCacheTraceLine_event in Hp as (entry & stage & w & _ & Hc & _ & ->).
    cbn [ts]. unfold isCacheTraceEvent in Hc.
    destruct (_ || _); [done|].
    apply andb_true_iff in Hc as [[Hts _]%andb_true_iff _].
    by destruct (getProp entry "ts").
  - apply parseSessionLine_event in Hp
      as (entry & _ & [[Hh ->] | [(t & role & ->) | (type & ->)]]); try done.
    cbn [ts eventType sessionId]. intros _. split; [done|]. split; [done|].
    unfold isSessionHeader in Hh. destruct (_ || _); [done|].
    apply andb_true_iff in Hh as [_ Hid].
    by destruct (getProp entry "id").
Qed.

Lemma parseLine_trim_eq (st : SourceType) (now : Z) (l1 l2 file : string) :
  trim l1 = trim l2 ->
  parseLine (getParser st) now l1 file = parseLine (getParser st) now l2 file.
Proof.
  intros Heq.
  destruct st; cbn [getParser PARSERS parseLine systemLogParser cacheTraceParser sessionParser];
    unfold parseSystemLogLine, parseCacheTraceLine, parseSessionLine;
    by rewrite Heq.
Qed.

(** X12. Parsing the stored raw text of an event again, for the same file and
    clock reading, gives the same event. *)
Theorem stored_text_parses_to_the_same_event (st : SourceType) (now : Z)
    (line file : string) (e : ParsedEvent) :
  parseLine (getParser st) now line file = Ok (Some e) ->
  parseLine (getParser st) now (rawJson e) file = Ok (Some e).
Proof.
  intros Hp.
  assert (Hraw : rawJson e = trim line).
  { destruct st; cbn in Hp.
    - by apply systemLog_rawJson in Hp.
    - by apply cacheTrace_rawJson in Hp.
    - by apply session_rawJson in Hp. }
  rewrite <- Hp, Hraw. apply parseLine_trim_eq, trim_idem.
Qed.

(** X13. A white-space character before or after a line does not change what
    a parser returns for it; in particular the carriage return that ends the
    lines of a file with CRLF line ends. *)
Theorem surrounding_white_space_is_ignored (st : SourceType) (now : Z)
    (line file : string) (c : ascii) :
  isWhiteSpace c = true ->
  parseLine (getParser st) now (line +:+ String c "") file
  = parseLine (getParser st) now line file
  /\ parseLine (getParser st) now (String c line) file
     = parseLine (getParser st) now line file.
Proof.
  intros Hc. split; apply parseLine_trim_eq.
  - by apply trim_snoc_ws.
  - by apply trim_cons_ws.
Qed.

(** The clock decides neither whether a line yields an event nor whether the
    parser throws, and of the event it decides the [ts] only. *)
Lemma parseLine_clock (st : SourceType) (now now' : Z) (line file : string) :
  match parseLine (getParser st) now line file,
        parseLine (getParser st) now' line file with
  | Ok (Some e), Ok (Some e') => timeless (rowOf now e) = timeless (rowOf now' e')
  | Ok None, Ok None => True
  | Throw err, Throw err' => err = err'
  | _, _ => False
  end.
Proof.
  destruct st; cbn [getParser PARSERS parseLine systemLogParser cacheTraceParser sessionParser];
    unfold parseSystemLogLine, parseCacheTraceLine, parseSessionLine.
  - destruct (_ || _); [done|]. destruct (JSON_parse _) as [entry|]; [|done].
    destruct (_ || _); [done|].
    destruct (extractLogLevel entry) as [lvl|]; cbn [mbind result_bind]; [|done].
    destruct (truthy (extractSubsystem entry)); [|reflexivity].
    destruct (toString (extractSubsystem entry)); cbn [mbind result_bind]; reflexivity.
  - destruct (_ || _); [done|]. destruct (JSON_parse _) as [entry|]; [|done].
    destruct (negb _); [done|].
    destruct (if truthy (getProp entry "note") then _ else _) as [m|];
      cbn [mbind result_bind]; [|done].
    destruct (toString (getProp entry "stage")); cbn [mbind result_bind]; [|done].
    destruct (previewSlice m); cbn [mbind result_bind]; reflexivity.
  - destruct (_ || _); [done|]. destruct (JSON_parse _) as [entry|]; [|done].
    destruct (_ || _); [done|].
    destruct (isSessionHeader entry); [reflexivity|].
    destruct (isSessionMessage entry).
    + destruct (truthy (getProp (getProp entry "message") "timestamp")).
      * destruct (dateToISOString _); cbn [mbind result_bind]; [|done].
        destruct (toString _); cbn [mbind result_bind]; reflexivity.
      * cbn [mbind result_bind].
        destruct (toString _); cbn [mbind result_bind]; reflexivity.
    + destruct (toString _); cbn [mbind result_bind]; reflexivity.
Qed.

Lemma parseLines_clock (st : SourceType) (now now' : Z) (lines : list string)
    (file : string) (evs evs' : list ParsedEvent) :
  parseLines now (getParser st) lines file = Ok evs ->
  parseLines now' (getParser st) lines file = Ok evs' ->
  timeless <$> map (rowOf now) evs = timeless <$> map (rowOf now') evs'.
Proof.
  revert evs evs'. induction lines as [|l lines IH]; intros evs evs'.
  - cbn. intros Ha Hb. assert (evs = []) as -> by congruence.
    by assert (evs' = []) as -> by congruence.
  - rewrite !parseLines_cons. pose proof (parseLine_clock st now now' l file) as Hl.
    destruct (parseLine (getParser st) now l file) as [r|];
      destruct (parseLine (getParser st) now' l file) as [r'|]; try done;
      cbn [mbind result_bind].
    destruct (parseLines now (getParser st) lines file) as [es|]; [|done].
    destruct (parseLines now' (getParser st) lines file) as [es'|]; [|by destruct r].
    cbn [mbind result_bind]. specialize (IH es es' eq_refl eq_refl).
    destruct r as [e|], r' as [e'|]; try done; intros Ha Hb.
    + assert (evs = e :: es) as -> by congruence.
      assert (evs' = e' :: es') as -> by congruence.
      cbn [map fmap list_fmap]. f_equal; [exact Hl|exact IH].
    + assert (evs = es) as -> by congruence.
      by assert (evs' = es') as -> by congruence.
Qed.

End ParserMore.

(** *** Instances on the reference host *)

Lemma preview_is_at_most_500_chars_witness :
  exists e, parseLine (@getParser Ref.host CacheTrace) 0 notedLine tracePath = Ok (Some e)
            /\ previewFits (messagePreview e) = true
            /\ messagePreview e = VStr (sliceTo 500 longNote).
Proof.
  eexists. split; [vm_compute; reflexivity|]. split; [|vm_compute; reflexivity].
  eapply (@preview_is_at_most_500_chars Ref.host CacheTrace 0 notedLine tracePath).
  vm_compute. reflexivity.
Defined.

Lemma event_is_tagged_with_its_source_witness :
  exists e, parseLine (@getParser Ref.host CacheTrace) 0 loadedLine tracePath = Ok (Some e)
            /\ (sourceType e = CacheTrace /\ sourceFile e = tracePath
                /\ startsWith (eventType e) (eventNamespace CacheTrace) = true).
Proof.
  eexists. split; [vm_compute; reflexivity|].
  eapply (@event_is_tagged_with_its_source Ref.host CacheTrace 0 loadedLine tracePath).
  vm_compute. reflexivity.
Defined.

Lemma agent_id_is_read_from_the_path_witness :
  let path := "/home/u/.openclaw/" +:+ "agents/" +:+ "a1" +:+ "/sessions/" +:+ "s.jsonl" in
  extractAgentIdFromPath path = Some "a1"
  /\ (forall now line e, @parseSessionLine Ref.host now line path = Ok (Some e) ->
                         agentId e = Some "a1")
  /\ (forall now line e, @parseSessionLine Ref.host now line "/home/u/.openclaw/" = Ok (Some e) ->
                         agentId e = None).
Proof.
  apply (@agent_id_is_read_from_the_path Ref.host "/home/u/.openclaw/" "a1" "s.jsonl").
  - reflexivity.
  - discriminate.
  - reflexivity.
Defined.

Lemma level_is_lower_case_witness :
  exists e l, parseLine (@getParser Ref.host SystemLog) 0 warnLine logPath = Ok (Some e)
              /\ level e = Some l
              /\ (SystemLog = SystemLog /\ toLowerCase l = l)
              /\ l = "warn".
Proof.
  eexists _, _. split; [vm_compute; reflexivity|]. split; [reflexivity|].
  split; [|reflexivity].
  eapply (@level_is_lower_case Ref.host SystemLog 0 warnLine logPath).
  - vm_compute. reflexivity.
  - reflexivity.
Defined.

Lemma only_a_session_header_lacks_ts_witness :
  exists e, parseLine (@getParser Ref.host Session) 0 bareHeader sessionPath = Ok (Some e)
            /\ isNullish (ts e) = true
            /\ (Session = Session /\ eventType e = "session:start" /\ sessionId e <> VUndef).
Proof.
  eexists. split; [vm_compute; reflexivity|]. split; [reflexivity|].
  eapply (@only_a_session_header_lacks_ts Ref.host Session 0 bareHeader sessionPath).
  - vm_compute. reflexivity.
  - reflexivity.
Defined.

Lemma stored_text_parses_to_the_same_event_witness :
  let e := loadedEvent tracePath loadedLine in
  parseLine (@getParser Ref.host CacheTrace) 0 ("  " +:+ loadedLine +:+ CR) tracePath
  = Ok (Some e)
  /\ parseLine (@getParser Ref.host CacheTrace) 0 (rawJson e) tracePath = Ok (Some e).
Proof.
  split; [vm_compute; reflexivity|].
  eapply (@stored_text_parses_to_the_same_event Ref.host CacheTrace 0
           ("  " +:+ loadedLine +:+ CR) tracePath).
  vm_compute. reflexivity.
Defined.

Lemma surrounding_white_space_is_ignored_witness :
  parseLine (@getParser Ref.host CacheTrace) 0 (loadedLine +:+ String "013" "") tracePath
  = parseLine (@getParser Ref.host CacheTrace) 0 loadedLine tracePath
  /\ parseLine (@getParser Ref.host CacheTrace) 0 (String "013" loadedLine) tracePath
     = parseLine (@getParser Ref.host CacheTrace) 0 loadedLine tracePath.
Proof.
  apply (@surrounding_white_space_is_ignored Ref.host CacheTrace 0 loadedLine tracePath
           "013"%char).
  reflexivity.
Defined.

(** ** Event store: the tracked record, batches *)

Section StoreMore.
Context `{Engine}.

Lemma batchFails_app (now : Z) (table : list Row) (a b : list DbEvent) :
  batchFails now table (a ++ b)
  = batchFails now table a || batchFails now (table ++ map (rowOf now) a) b.
Proof.
  revert table. induction a as [|e a IH]; intros table.
  - cbn [app batchFails map orb]. by rewrite app_nil_r.
  - cbn [app batchFails map]. rewrite IH, <- app_assoc. cbn [app].
    by rewrite orb_assoc.
Qed.

Lemma insertBatches_ok (fuel size : nat) (now : Z) (evs : list DbEvent) (d : Db) :
  journal d = None -> (0 < size)%nat -> (length evs <= fuel)%nat ->
  batchFails now (events d) evs = false ->
  insertBatches fuel size now evs d = (addRows d (map (rowOf now) evs), Ok tt).
Proof.
  intros Hj Hsize. revert evs d Hj.
  induction fuel as [|fuel IH]; intros evs d Hj Hlen Hok.
  - destruct evs; [|cbn in Hlen; lia]. cbn. unfold ret. by rewrite addRows_nil.
  - destruct evs as [|e evs].
    { cbn. unfold ret. by rewrite addRows_nil. }
    cbn [insertBatches]. unfold bindM.
    rewrite <- (take_drop size (e :: evs)) in Hok.
    rewrite batchFails_app in Hok. apply orb_false_elim in Hok as [Hok1 Hok2].
    rewrite insertEventsBatch_spec, Hok1 by exact Hj.
    rewrite IH.
    + rewrite addRows_app, <- map_app, take_drop. reflexivity.
    + done.
    + rewrite length_drop. cbn [length] in *. lia.
    + exact Hok2.
Qed.

(** X15. When the engine refuses none of the rows, [insertEvents] appends the
    rows of all the events, in order, whatever the batch size, and leaves no
    transaction open. *)
Theorem accepted_rows_are_inserted_whatever_the_batch_size (now : Z)
    (evs : list ParsedEvent) (i : Ingestor) :
  journal (db i) = None ->
  batchFails now (events (db i)) evs = false ->
  insertEvents now evs i = (setDb (addRows (db i) (map (rowOf now) evs)) i, Ok tt).
Proof.
  intros Hj Hok. rewrite insertEvents_eq.
  rewrite insertBatches_ok; [done | done | lia | lia | done].
Qed.

End StoreMore.

Lemma accepted_rows_are_inserted_whatever_the_batch_size_witness :
  let evs := [loadedEvent tracePath "a"; loadedEvent tracePath "b"; loadedEvent tracePath "c"] in
  @insertEvents Ref.engine 7 evs smallBatches
  = (setDb (addRows (db smallBatches) (map (rowOf 7) evs)) smallBatches, Ok tt).
Proof.
  apply (@accepted_rows_are_inserted_whatever_the_batch_size Ref.engine 7
           [loadedEvent tracePath "a"; loadedEvent tracePath "b"; loadedEvent tracePath "c"]
           smallBatches).
  - reflexivity.
  - reflexivity.
Defined.

(** ** Watcher: the three kinds of pattern, classification, discovery *)

Section WatcherMore.

Lemma matchesPattern_exact_self (pattern : string) :
  includes pattern "*" = false -> matchesPattern pattern pattern = Ok true.
Proof. intros Hno. unfold matchesPattern. by rewrite Hno, String.eqb_refl. Qed.

(** X16. A pattern without a star matches the path equal to it and every
    path beneath it (the pattern, a separator, anything), and nothing else;
    such a match never throws. *)
Theorem exact_pattern_matches_the_path_and_what_is_beneath (pattern : string) :
  includes pattern "*" = false ->
  matchesPattern pattern pattern = Ok true
  /\ (forall rest, matchesPattern (pattern +:+ "/" +:+ rest) pattern = Ok true)
  /\ (forall filePath, matchesPattern filePath pattern = Ok true ->
        filePath = pattern \/ exists rest, filePath = pattern +:+ "/" +:+ rest)
  /\ (forall filePath, exists b, matchesPattern filePath pattern = Ok b).
Proof.
  intros Hno. unfold matchesPattern. rewrite Hno. cbn [negb]. unfold sep.
  repeat split.
  - by rewrite String.eqb_refl.
  - intros rest. rewrite <- append_assoc, startsWith_app. by rewrite orb_true_r.
  - intros filePath Hm.
    assert (Hb : String.eqb filePath pattern || startsWith filePath (pattern +:+ "/") = true)
      by congruence.
    apply orb_true_iff in Hb as [Heq%String.eqb_eq | Hs]; [by left|right].
    destruct (startsWith_prefix _ _ Hs) as [r ->]. exists r. by rewrite append_assoc.
  - intros filePath. by eexists.
Qed.

Lemma exact_pattern_matches_the_path_and_what_is_beneath_witness :
  matchesPattern "/s/logs" "/s/logs" = Ok true
  /\ (forall rest, matchesPattern ("/s/logs" +:+ "/" +:+ rest) "/s/logs" = Ok true)
  /\ (forall filePath, matchesPattern filePath "/s/logs" = Ok true ->
        filePath = "/s/logs" \/ exists rest, filePath = "/s/logs" +:+ "/" +:+ rest)
  /\ (forall filePath, exists b, matchesPattern filePath "/s/logs" = Ok b).
Proof. apply (exact_pattern_matches_the_path_and_what_is_beneath "/s/logs"). reflexivity. Defined.

Lemma compileGlob_lits (lit p : string) (quant : nat) (acc : list RegexItem) :
  includes lit "*" = false -> includes lit "?" = false ->
  compileGlob (lit +:+ p) quant acc
  = compileGlob p (if String.eqb lit "" then quant else 2%nat) (rev (lits lit) ++ acc).
Proof.
  revert quant acc. induction lit as [|c lit IH]; intros quant acc Hs Hq; [done|].
  rewrite includes_cons_char in Hs, Hq.
  apply orb_false_elim in Hs as [Hs1 Hs2]. apply orb_false_elim in Hq as [Hq1 Hq2].
  rewrite append_cons. cbn [compileGlob]. rewrite Hs1, Hq1.
  rewrite IH by done. cbn [lits rev String.eqb]. rewrite <- app_assoc. cbn [app].
  by destruct (String.eqb lit "").
Qed.

Lemma compileGlob_single_star (pre suf : string) :
  includes pre "*" = false -> includes pre "?" = false ->
  includes suf "*" = false -> includes suf "?" = false ->
  compileGlob (pre +:+ "*" +:+ suf) 0 [] = Some (lits pre ++ NonSlashes :: lits suf).
Proof.
  intros Hp1 Hp2 Hs1 Hs2. rewrite compileGlob_lits by done.
  change ("*" +:+ suf) with (String "*" suf). cbn [compileGlob].
  change (Ascii.eqb "*" "*") with true. cbn match.
  rewrite <- (append_nil_r suf) at 1. rewrite compileGlob_lits by done.
  cbn [compileGlob]. rewrite app_nil_r, rev_app_distr, rev_involutive.
  cbn [rev]. by rewrite rev_involutive, <- app_assoc.
Qed.

Lemma matchItems_lits (p : string) (rest : list RegexItem) (s : string) :
  matchItems (lits p ++ rest) (p +:+ s) = matchItems rest s.
Proof.
  induction p as [|c p IH]; [done|].
  rewrite append_cons. cbn [lits app matchItems]. by rewrite Ascii.eqb_refl.
Qed.

Lemma matchItems_lits_eq (p s : string) : matchItems (lits p) s = String.eqb s p.
Proof.
  revert s. induction p as [|c p IH]; intros s.
  - cbn [lits matchItems]. reflexivity.
  - cbn [lits matchItems]. destruct s as [|a s]; [done|].
    cbn [String.eqb]. rewrite IH. by destruct (Ascii.eqb a c).
Qed.

Lemma matchItems_star (rest : list RegexItem) (s : string) :
  matchItems (NonSlashes :: rest) s
  = matchItems rest s
    || match s with
       | String a s' => negb (Ascii.eqb a "/") && matchItems (NonSlashes :: rest) s'
       | EmptyString => false
       end.
Proof. by destruct s. Qed.

Lemma star_stays_in_segment (x suf : string) :
  matchItems (NonSlashes :: lits suf) (x +:+ suf) = negb (includes x "/").
Proof.
  induction x as [|a x IH].
  - rewrite append_nil_l, matchItems_star, matchItems_lits_eq, String.eqb_refl. done.
  - rewrite append_cons, matchItems_star, matchItems_lits_eq, longer_is_not_equal.
    rewrite IH, includes_cons_char. cbn [orb]. by rewrite negb_orb.
Qed.

Lemma no_star_no_double_star (s : string) :
  includes s "*" = false -> includes s "**" = false.
Proof.
  induction s as [|a s IH]; [done|].
  rewrite includes_cons_char. intros [Ha Hs]%orb_false_elim.
  cbn [includes startsWith]. rewrite Ha. by apply IH.
Qed.

Lemma single_star_no_double_star (pre suf : string) :
  includes pre "*" = false -> includes suf "*" = false ->
  includes (pre +:+ "*" +:+ suf) "**" = false.
Proof.
  intros Hp Hs. induction pre as [|a pre IH].
  - rewrite append_nil_l. change ("*" +:+ suf) with (String "*" suf).
    cbn [includes startsWith]. change (Ascii.eqb "*" "*") with true. cbn match.
    rewrite (no_star_no_double_star suf Hs).
    destruct suf as [|b suf]; [done|].
    rewrite includes_cons_char in Hs. apply orb_false_elim in Hs as [Hb _].
    cbn [startsWith]. by rewrite Hb.
  - rewrite includes_cons_char in Hp. apply orb_false_elim in Hp as [Ha Hp].
    rewrite append_cons. cbn [includes startsWith]. rewrite Ha. by apply IH.
Qed.

Lemma matchesPattern_single_star (pre x suf : string) :
  includes pre "*" = false -> includes pre "?" = false ->
  includes suf "*" = false -> includes suf "?" = false ->
  matchesPattern (pre +:+ x +:+ suf) (pre +:+ "*" +:+ suf) = Ok (negb (includes x "/")).
Proof.
  intros Hp1 Hp2 Hs1 Hs2. unfold matchesPattern.
  assert (includes (pre +:+ "*" +:+ suf) "*" = true) as ->.
  { rewrite !includes_app_char. change (includes "*" "*") with true.
    by rewrite orb_true_r. }
  rewrite single_star_no_double_star by done. cbn [negb].
  rewrite compileGlob_single_star by done.
  by rewrite matchItems_lits, star_stays_in_segment.
Qed.

(** X17. A single star stands for any run of characters inside one path
    segment: for literal text before and after the star (no star, no question
    mark), the pattern matches the path made of that text around [x] exactly
    when [x] has no separator, and the watcher emits the event for such a
    path and drops the others. *)
Theorem single_star_stays_in_one_segment (pre x suf : string) (st : SourceType)
    (kind : ChangeKind) :
  includes pre "*" = false -> includes pre "?" = false ->
  includes suf "*" = false -> includes suf "?" = false ->
  let filePath := pre +:+ x +:+ suf in
  let watched := [{| pattern := pre +:+ "*" +:+ suf; wp_sourceType := st |}] in
  matchesPattern filePath (pre +:+ "*" +:+ suf) = Ok (negb (includes x "/"))
  /\ emitEvent watched kind filePath
     = if includes x "/" then None
       else Some {| fc_path := filePath; fc_sourceType := st; fc_eventType := kind |}.
Proof.
  intros Hp1 Hp2 Hs1 Hs2 filePath watched. subst filePath watched.
  unfold emitEvent. cbn [getSourceTypeForFile pattern wp_sourceType].
  rewrite matchesPattern_single_star by done. split; [done|].
  by destruct (includes x "/").
Qed.

Lemma single_star_stays_in_one_segment_witness :
  let filePath := "/tmp/openclaw/openclaw-" +:+ "2024-01-01" +:+ ".log" in
  let watched := [{| pattern := "/tmp/openclaw/openclaw-" +:+ "*" +:+ ".log";
                     wp_sourceType := SystemLog |}] in
  matchesPattern filePath ("/tmp/openclaw/openclaw-" +:+ "*" +:+ ".log")
  = Ok (negb (includes "2024-01-01" "/"))
  /\ emitEvent watched Change filePath
     = if includes "2024-01-01" "/" then None
       else Some {| fc_path := filePath; fc_sourceType := SystemLog;
                    fc_eventType := Change |}.
Proof.
  apply (single_star_stays_in_one_segment "/tmp/openclaw/openclaw-" "2024-01-01" ".log"
           SystemLog Change); reflexivity.
Defined.

Lemma dropTrailingSlash_app (d : string) : dropTrailingSlash (d +:+ "/") = d.
Proof.
  induction d as [|a d IH]; [done|].
  rewrite append_cons. cbn [dropTrailingSlash]. rewrite IH.
  destruct d; by rewrite ?append_cons, ?append_nil_l.
Qed.

(** X18. A pattern [<dir>/**] is a test on the text of the path: it matches
    exactly the paths that begin with [<dir>], among them those of a sibling
    whose name only begins like the directory ([/s/agentsX/...] for
    [/s/agents/**]). *)
Theorem double_star_is_a_textual_prefix_test (dir filePath : string) :
  includes dir "*" = false ->
  matchesPattern filePath (dir +:+ "/**") = Ok (startsWith filePath dir).
Proof.
  intros Hno. unfold matchesPattern.
  assert (includes (dir +:+ "/**") "*" = true) as ->.
  { rewrite includes_app_char. change (includes "/**" "*") with true.
    by rewrite orb_true_r. }
  assert (includes (dir +:+ "/**") "**" = true) as -> by (by apply includes_app_r).
  cbn [negb]. unfold split.
  change (dir +:+ "/**") with (dir +:+ ("/" +:+ "**" +:+ "")).
  rewrite <- append_assoc, split_go_stars.
  2:{ rewrite includes_app_char, Hno. reflexivity. }
  cbn [split_go nth]. rewrite append_nil_l, dropTrailingSlash_app.
  change (dropLeadingSlash (strRev "")) with "". cbn [String.eqb orb].
  rewrite andb_true_r.
  destruct dir; [by rewrite startsWith_nil|done].
Qed.

Lemma double_star_is_a_textual_prefix_test_witness :
  matchesPattern "/s/agentsX/notes.txt" ("/s/agents" +:+ "/**")
  = Ok (startsWith "/s/agentsX/notes.txt" "/s/agents").
Proof.
  apply (double_star_is_a_textual_prefix_test "/s/agents" "/s/agentsX/notes.txt").
  reflexivity.
Defined.

Lemma no_slash_no_logs (s : string) :
  includes s "/" = false -> includes s "/logs/cache-trace.jsonl" = false.
Proof.
  induction s as [|a s IH]; [done|].
  rewrite includes_cons_char. intros [Ha Hs]%orb_false_elim.
  cbn [includes startsWith]. rewrite Ha. by apply IH.
Qed.

Lemma system_log_is_no_cache_trace (stateDir x : string) :
  includes x "/" = false ->
  matchesPattern ("/tmp/openclaw/openclaw-" +:+ x +:+ ".log")
    (pathJoin stateDir "logs/cache-trace.jsonl") = Ok false
  \/ includes stateDir "*" = true.
Proof.
  intros Hx. destruct (includes stateDir "*") eqn:Hdir; [by right|left].
  unfold matchesPattern, pathJoin, sep.
  assert (includes (stateDir +:+ "/" +:+ "logs/cache-trace.jsonl") "*" = false) as ->.
  { rewrite !includes_app_char, Hdir. reflexivity. }
  cbn [negb]. f_equal.
  set (file := "/tmp/openclaw/openclaw-" +:+ x +:+ ".log").
  assert (Hinc : includes file "/logs/cache-trace.jsonl" = false).
  { subst file.
    assert (Htail : includes (x +:+ ".log") "/logs/cache-trace.jsonl" = false).
    { apply no_slash_no_logs. rewrite includes_app_char, Hx. reflexivity. }
    revert Htail. generalize (x +:+ ".log"). intros t Ht.
    cbn [append includes startsWith]. cbn. exact Ht. }
  assert (Hpre : startsWith file (stateDir +:+ "/logs/cache-trace.jsonl") = false).
  { destruct (startsWith file _) eqn:Hs; [|done].
    apply startsWith_app_includes in Hs. congruence. }
  change (stateDir +:+ "/" +:+ "logs/cache-trace.jsonl")
    with (stateDir +:+ "/logs/cache-trace.jsonl").
  apply orb_false_intro.
  - destruct (String.eqb file _) eqn:He; [|done].
    apply eqb_startsWith in He. congruence.
  - destruct (startsWith file ((stateDir +:+ "/logs/cache-trace.jsonl") +:+ "/")) eqn:Hs; [|done].
    apply startsWith_app_l in Hs. congruence.
Qed.

(** X19. Under the default descriptors of a state directory without a star,
    the cache trace of that directory is classified as cache trace, a path
    [/tmp/openclaw/openclaw-<x>.log] with [<x>] inside one segment is
    classified as system log, and no path with a separator in the place of
    the star is. *)
Theorem default_paths_classify_trace_and_system_logs (stateDir : string) :
  includes stateDir "*" = false ->
  getSourceTypeForFile (getDefaultWatchedPaths stateDir)
    (pathJoin stateDir "logs/cache-trace.jsonl") = Ok (Some CacheTrace)
  /\ (forall x, includes x "/" = false -> includes x "*" = false ->
        getSourceTypeForFile (getDefaultWatchedPaths stateDir)
          ("/tmp/openclaw/openclaw-" +:+ x +:+ ".log") = Ok (Some SystemLog))
  /\ (forall x rest,
        getSourceTypeForFile (getDefaultWatchedPaths stateDir)
          ("/tmp/openclaw/openclaw-" +:+ x +:+ "/" +:+ rest +:+ ".log")
        <> Ok (Some SystemLog)).
Proof.
  intros Hdir. unfold getDefaultWatchedPaths. cbn [getSourceTypeForFile pattern wp_sourceType].
  split; [|split].
  - rewrite session_pattern_matches_no_plain_path; [|done|].
    2:{ unfold pathJoin, sep. rewrite !includes_app_char, Hdir. reflexivity. }
    cbn [mbind result_bind].
    rewrite matchesPattern_exact_self; [done|].
    unfold pathJoin, sep. rewrite !includes_app_char, Hdir. reflexivity.
  - intros x Hx Hstar.
    rewrite session_pattern_matches_no_plain_path; [|done|].
    2:{ rewrite !includes_app_char, Hstar. reflexivity. }
    cbn [mbind result_bind].
    destruct (system_log_is_no_cache_trace stateDir x Hx) as [-> | ?]; [|congruence].
    cbn [mbind result_bind].
    change "/tmp/openclaw/openclaw-*.log" with ("/tmp/openclaw/openclaw-" +:+ "*" +:+ ".log").
    rewrite matchesPattern_single_star by done. by rewrite Hx.
  - intros x rest.
    destruct (matchesPattern _ (sessionPattern stateDir)) as [[|]|];
      cbn [mbind result_bind]; try done.
    destruct (matchesPattern _ (pathJoin stateDir "logs/cache-trace.jsonl")) as [[|]|];
      cbn [mbind result_bind]; try done.
    change "/tmp/openclaw/openclaw-*.log" with ("/tmp/openclaw/openclaw-" +:+ "*" +:+ ".log").
    replace (x +:+ "/" +:+ rest +:+ ".log") with ((x +:+ "/" +:+ rest) +:+ ".log")
      by (by rewrite !append_assoc).
    rewrite matchesPattern_single_star by done.
    rewrite !includes_app_char. change (includes "/" "/") with true.
    by rewrite orb_true_r.
Qed.

Lemma default_paths_classify_trace_and_system_logs_witness :
  getSourceTypeForFile (getDefaultWatchedPaths stateDir)
    (pathJoin stateDir "logs/cache-trace.jsonl") = Ok (Some CacheTrace)
  /\ (forall x, includes x "/" = false -> includes x "*" = false ->
        getSourceTypeForFile (getDefaultWatchedPaths stateDir)
          ("/tmp/openclaw/openclaw-" +:+ x +:+ ".log") = Ok (Some SystemLog))
  /\ (forall x rest,
        getSourceTypeForFile (getDefaultWatchedPaths stateDir)
          ("/tmp/openclaw/openclaw-" +:+ x +:+ "/" +:+ rest +:+ ".log")
        <> Ok (Some SystemLog)).
Proof. apply (default_paths_classify_trace_and_system_logs stateDir). reflexivity. Defined.

(** X20. The source type of a path is that of the first descriptor whose
    pattern matches it: the lookup returns a type exactly when some
    descriptor matches and all descriptors before it were tried and did not
    (none threw). *)
Theorem first_matching_descriptor_wins (watched : list WatchedPath) (filePath : string)
    (st : SourceType) :
  getSourceTypeForFile watched filePath = Ok (Some st)
  <-> exists before wp after,
        watched = before ++ wp :: after
        /\ Forall (fun w => matchesPattern filePath (pattern w) = Ok false) before
        /\ matchesPattern filePath (pattern wp) = Ok true
        /\ wp_sourceType wp = st.
Proof.
  induction watched as [|w watched IH].
  - split; [done|]. intros (before & wp & after & Heq & _). by destruct before.
  - cbn [getSourceTypeForFile].
    destruct (matchesPattern filePath (pattern w)) as [[|]|e] eqn:Hm; cbn [mbind result_bind].
    + split.
      * intros Hst. exists [], w, watched. repeat split; [constructor | done | congruence].
      * intros (before & wp & after & Heq & Hbefore & Hwp & Hst).
        destruct before as [|b before].
        -- cbn in Heq. injection Heq as -> ->. congruence.
        -- cbn in Heq. injection Heq as <- ->.
           apply Forall_cons_1 in Hbefore as [Hb _]. congruence.
    + rewrite IH. split.
      * intros (before & wp & after & -> & Hbefore & Hwp & Hst).
        exists (w :: before), wp, after. repeat split; [by constructor | done | done].
      * intros (before & wp & after & Heq & Hbefore & Hwp & Hst).
        destruct before as [|b before].
        -- cbn in Heq. injection Heq as -> ->. congruence.
        -- cbn in Heq. injection Heq as <- ->.
           apply Forall_cons_1 in Hbefore as [_ Hbefore].
           by exists before, wp, after.
    + split; [done|].
      intros (before & wp & after & Heq & Hbefore & Hwp & Hst).
      destruct before as [|b before].
      * cbn in Heq. injection Heq as -> ->. congruence.
      * cbn in Heq. injection Heq as <- ->.
        apply Forall_cons_1 in Hbefore as [Hb _]. congruence.
Qed.

Lemma basename_join (dir name : string) :
  name <> "" -> includes name "/" = false ->
  basename (dir +:+ "/" +:+ name) = name.
Proof.
  intros Hne Hno. unfold basename. rewrite !strRev_app.
  change (strRev "/") with "/".
  pose proof (strRev_nonempty name Hne) as Hrev.
  assert (Hno' : includes (strRev name) "/" = false) by (by rewrite includes_char_strRev).
  rewrite append_assoc.
  assert (dropSlashes (strRev name +:+ "/" +:+ strRev dir)
          = strRev name +:+ "/" +:+ strRev dir) as ->.
  { destruct (strRev name) as [|c t]; [done|].
    rewrite includes_cons_char in Hno'. apply orb_false_elim in Hno' as [Hc _].
    rewrite append_cons. by apply dropSlashes_fix. }
  rewrite spanSegment_app by done. cbn [fst]. apply strRev_involutive.
Qed.

Lemma basename_trailing_slash (p : string) : basename (p +:+ "/") = basename p.
Proof.
  unfold basename. rewrite strRev_app. change (strRev "/") with "/".
  rewrite append_cons, append_nil_l. reflexivity.
Qed.

(** X21. The filter of the watcher ignores an entry named [<name>] (a
    non-empty segment) exactly when the name begins with a dot, is not
    [.openclaw] and ends neither in [.jsonl] nor in [.log]; a trailing
    separator does not change the verdict. *)
Theorem only_hidden_entries_are_ignored (dir name : string) :
  name <> "" -> includes name "/" = false ->
  ignored (dir +:+ "/" +:+ name)
  = startsWith name "." && negb (String.eqb name ".openclaw")
    && negb (endsWith name ".jsonl") && negb (endsWith name ".log")
  /\ ignored (dir +:+ "/" +:+ name +:+ "/") = ignored (dir +:+ "/" +:+ name).
Proof.
  intros Hne Hno. split.
  - unfold ignored. rewrite basename_join by done.
    destruct (String.eqb name ".openclaw"); [by rewrite andb_false_r|].
    rewrite andb_true_r. by destruct (_ && _).
  - unfold ignored.
    replace (dir +:+ "/" +:+ name +:+ "/") with ((dir +:+ "/" +:+ name) +:+ "/")
      by (by rewrite !append_assoc).
    by rewrite basename_trailing_slash.
Qed.

Lemma only_hidden_entries_are_ignored_witness :
  ignored ("/home/u" +:+ "/" +:+ ".git")
  = startsWith ".git" "." && negb (String.eqb ".git" ".openclaw")
    && negb (endsWith ".git" ".jsonl") && negb (endsWith ".git" ".log")
  /\ ignored ("/home/u" +:+ "/" +:+ ".git" +:+ "/") = ignored ("/home/u" +:+ "/" +:+ ".git").
Proof.
  apply (only_hidden_entries_are_ignored "/home/u" ".git"); [discriminate | reflexivity].
Defined.

End WatcherMore.

Section DiscoveryProps.
Context `{Disk}.

Lemma split_go_no_stars (s cur : string) :
  includes s "**" = false -> split_go "**" 0 cur s = [strRev cur +:+ s].
Proof.
  revert cur. induction s as [|a s IH]; intros cur Hno.
  - cbn [split_go]. by rewrite append_nil_r.
  - cbn [includes] in Hno.
    destruct (startsWith (String a s) "**") eqn:Hs; [done|].
    cbn [split_go]. rewrite Hs, IH by done.
    by rewrite strRev_cons, append_assoc.
Qed.

(** X22. The discovery of existing files takes a pattern with a star but
    without [**] as the name of a directory: when nothing of that name
    exists, the pattern contributes no file, so that the files it matches
    are not ingested when watching starts. *)
Theorem single_star_pattern_discovers_nothing (pat : string) (st : SourceType)
    (rest : list WatchedPath) :
  includes pat "*" = true -> includes pat "**" = false ->
  fs_stat (dropTrailingSlashes pat) = None ->
  resolveGlobPattern pat = []
  /\ resolveWatchedFiles ({| pattern := pat; wp_sourceType := st |} :: rest)
     = resolveWatchedFiles rest.
Proof.
  intros Hstar Hno Hstat.
  assert (Hnil : resolveGlobPattern pat = []).
  { unfold resolveGlobPattern. rewrite Hstar. cbn [negb].
    unfold split. rewrite split_go_no_stars by done.
    cbn [nth strRev strRev_go]. rewrite append_nil_l, Hstat.
    by destruct (String.eqb _ _). }
  split; [done|].
  unfold resolveWatchedFiles. cbn [flat_map pattern]. by rewrite Hnil.
Qed.

Lemma walk_prefix (node : Node) (dir f : string) :
  In f (walkDirectory dir node) -> startsWith f (dir +:+ "/") = true.
Proof.
  revert node dir f. fix IH 1. intros [|entries| |] dir f; cbn [walkDirectory]; try done.
  induction entries as [|[name child] rest IHrest]; [done|].
  intros [Hin | Hin]%in_app_or; [|by apply IHrest].
  assert (Hsub : forall g, startsWith g (pathJoin dir name +:+ "/") = true ->
                           startsWith g (dir +:+ "/") = true).
  { intros g Hg. unfold pathJoin, sep in Hg.
    rewrite <- !append_assoc in Hg. rewrite append_assoc in Hg.
    by apply startsWith_app_l in Hg. }
  pose proof (IH child (pathJoin dir name) f) as IHchild.
  destruct child as [|sub| |].
  - destruct Hin as [<- | []]. unfold pathJoin, sep.
    rewrite <- append_assoc. apply startsWith_app.
  - apply Hsub, IHchild, Hin.
  - apply Hsub, IHchild, Hin.
  - done.
Qed.

Lemma dropTrailingSlashes_agents (stateDir : string) :
  dropTrailingSlashes (stateDir +:+ "/agents/") = stateDir +:+ "/agents".
Proof.
  unfold dropTrailingSlashes. rewrite strRev_app.
  change (strRev "/agents/") with "/stnega/".
  change ("/stnega/" +:+ strRev stateDir) with (String "/" (String "s" ("tnega/" +:+ strRev stateDir))).
  cbn [dropSlashes]. change (Ascii.eqb "/" "/") with true. change (Ascii.eqb "s" "/") with false.
  cbn match.
  change (String "s" ("tnega/" +:+ strRev stateDir)) with (strRev "/agents" +:+ strRev stateDir).
  by rewrite <- strRev_app, strRev_involutive.
Qed.

(** X23. For the default session pattern the discovery returns the files
    beneath [<stateDir>/agents] whose path contains [/sessions/] and ends in
    [.jsonl]; each of them lies beneath that directory, and [matchesPattern]
    with the same pattern rejects each of them (that has no star in its
    path): a file found at start is not recognised when it changes. *)
Theorem session_files_are_discovered_but_not_matched (stateDir : string) (node : Node) :
  includes stateDir "*" = false ->
  fs_stat (stateDir +:+ "/agents") = Some node -> isDirectory node = true ->
  resolveGlobPattern (sessionPattern stateDir)
  = List.filter (fun f => includes f "/sessions/" && endsWith f ".jsonl")
      (walkDirectory (stateDir +:+ "/agents") node)
  /\ (forall f, In f (resolveGlobPattern (sessionPattern stateDir)) ->
        startsWith f (stateDir +:+ "/agents/") = true
        /\ includes f "/sessions/" = true /\ endsWith f ".jsonl" = true
        /\ (includes f "*" = false ->
            matchesPattern f (sessionPattern stateDir) = Ok false)).
Proof.
  intros Hdir Hstat Hisdir.
  assert (Heq : resolveGlobPattern (sessionPattern stateDir)
                = List.filter (fun f => includes f "/sessions/" && endsWith f ".jsonl")
                    (walkDirectory (stateDir +:+ "/agents") node)).
  { unfold resolveGlobPattern.
    assert (includes (sessionPattern stateDir) "*" = true) as ->.
    { unfold sessionPattern, pathJoin. by rewrite !includes_app_r. }
    cbn [negb]. rewrite sessionPattern_parts by done. cbn [nth].
    rewrite dropTrailingSlashes_agents, Hstat, Hisdir.
    assert (String.eqb (stateDir +:+ "/agents") "" = false) as ->.
    { apply String.eqb_neq. by destruct stateDir. }
    reflexivity. }
  split; [exact Heq|].
  intros f Hin. rewrite Heq in Hin. apply filter_In in Hin as [Hin [Hs He]%andb_true_iff].
  split; [|split; [done|split; [done|]]].
  - apply walk_prefix in Hin. rewrite append_assoc in Hin. exact Hin.
  - intros Hf. by apply session_pattern_matches_no_plain_path.
Qed.

End DiscoveryProps.

Example discovery_of_default_paths :
  @resolveWatchedFiles homeDisk (getDefaultWatchedPaths stateDir)
  = [("/home/u/.openclaw/agents/a1/sessions/s.jsonl", Session);
     ("/home/u/.openclaw/logs/cache-trace.jsonl", CacheTrace)].
Proof. vm_compute. reflexivity. Qed.

Lemma single_star_pattern_discovers_nothing_witness :
  @resolveGlobPattern homeDisk "/tmp/openclaw/openclaw-*.log" = []
  /\ @resolveWatchedFiles homeDisk
       ({| pattern := "/tmp/openclaw/openclaw-*.log"; wp_sourceType := SystemLog |} :: [])
     = @resolveWatchedFiles homeDisk [].
Proof.
  apply (@single_star_pattern_discovers_nothing homeDisk "/tmp/openclaw/openclaw-*.log"
           SystemLog []); reflexivity.
Defined.

Lemma session_files_are_discovered_but_not_matched_witness :
  let node := DirNode [("a1", DirNode [("sessions", DirNode [("s.jsonl", FileNode);
                                                             ("notes.txt", FileNode)]);
                                       ("agent.json", FileNode)]);
                       (".cache", LockedDir)] in
  @resolveGlobPattern homeDisk (sessionPattern stateDir)
  = List.filter (fun f => includes f "/sessions/" && endsWith f ".jsonl")
      (walkDirectory (stateDir +:+ "/agents") node)
  /\ (forall f, In f (@resolveGlobPattern homeDisk (sessionPattern stateDir)) ->
        startsWith f (stateDir +:+ "/agents/") = true
        /\ includes f "/sessions/" = true /\ endsWith f ".jsonl" = true
        /\ (includes f "*" = false ->
            matchesPattern f (sessionPattern stateDir) = Ok false)).
Proof.
  apply (@session_files_are_discovered_but_not_matched homeDisk stateDir
           (DirNode [("a1", DirNode [("sessions", DirNode [("s.jsonl", FileNode);
                                                           ("notes.txt", FileNode)]);
                                     ("agent.json", FileNode)]);
                     (".cache", LockedDir)])); reflexivity.
Defined.

(** ** Ingestor: passes, start-up, status, the loop after close *)

Section IngestorMore.
Context `{Host} `{Engine}.

(** X24. A pass over a file that does not exist, or that is empty, returns 0
    and changes nothing: no event, no tracked record, and a stored cursor
    stays as it was. *)
Theorem missing_or_empty_file_is_skipped (fs : gmap string string) (now : Z)
    (path : string) (st : SourceType) (i : Ingestor) :
  fs !! path = None \/ fs !! path = Some "" ->
  ingestFile fs now path st i = (i, Ok 0%nat).
Proof.
  intros Hfile. rewrite ingestFile_unfold. destruct (closed i); [done|]. cbn zeta.
  assert (TailReader.nl_lines (passRead fs path i) = []) as ->; [|done].
  unfold passRead, TailReader.readNewLines, TailReader.readLogSlice.
  destruct Hfile as [-> | ->]; reflexivity.
Qed.

Lemma ingestFile_ok_spec (fs : gmap string string) (now : Z) (path : string)
    (st : SourceType) (i i' : Ingestor) (n : nat) :
  closed i = false -> journal (db i) = None ->
  ingestFile fs now path st i = (i', Ok n) ->
  let r := passRead fs path i in
  (TailReader.nl_lines r = [] /\ i' = i /\ n = 0%nat)
  \/ (TailReader.nl_lines r <> []
      /\ exists evs,
           parseLines now (getParser st) (TailReader.nl_lines r) path = Ok evs
           /\ n = length evs
           /\ i' = setDb (fst (updateTrackedFile now (passParams path st r)
                                 (addRows (db i) (map (rowOf now) evs)))) i).
Proof.
  intros Hclosed Hj Hpass r. rewrite ingestFile_unfold, Hclosed in Hpass.
  cbn zeta in Hpass. fold r in Hpass.
  destruct (bool_decide (TailReader.nl_lines r = [])) eqn:Hnil.
  { apply bool_decide_eq_true in Hnil. left. by simplify_eq. }
  apply bool_decide_eq_false in Hnil. right. split; [done|].
  destruct (parseLines _ _ _ _) as [evs|e]; [|done].
  exists evs. split; [done|].
  destruct (bool_decide (evs = [])) eqn:Hevs.
  { apply bool_decide_eq_true in Hevs. subst evs. simplify_eq.
    cbn [map]. by rewrite addRows_nil. }
  rewrite insertEvents_eq in Hpass.
  destruct (insertBatches (length evs) (Pos.to_nat (batchSize i)) now evs (db i))
    as [d1 r1] eqn:Hins.
  apply insertBatches_spec in Hins; [|done|lia|done].
  cbn [fst snd] in Hpass. destruct r1 as [[]|err]; [|done].
  subst d1. by simplify_eq.
Qed.

Lemma passRead_appended (fs : gmap string string) (path before : string)
    (ls : list string) (i : Ingestor) :
  fs !! path = Some (before +:+ unlines ls) ->
  before = "" \/ endsWith before nl = true ->
  Forall (fun l => includes l nl = false) ls ->
  Z.of_nat (String.length (unlines ls)) <= TailReader.DEFAULT_MAX_BYTES ->
  default 0 (byteOffset <$> getTrackedFile (db i) path) = Z.of_nat (String.length before) ->
  passRead fs path i
  = {| TailReader.nl_lines := ls;
       TailReader.newCursor := Z.of_nat (String.length (before +:+ unlines ls));
       TailReader.fileSize := Z.of_nat (String.length (before +:+ unlines ls));
       TailReader.nl_reset := false |}.
Proof.
  intros Hfile Hbefore Hls Hcap Hoff. unfold passRead, TailReader.readNewLines.
  rewrite Hoff. by rewrite (readLogSlice_appended fs path before ls None).
Qed.

Lemma unlines_ends (ls : list string) : unlines ls = "" \/ endsWith (unlines ls) nl = true.
Proof.
  destruct ls as [|l ls _] using rev_ind; [by left|right].
  rewrite unlines_app. cbn [unlines]. rewrite append_nil_r, <- append_assoc.
  apply endsWith_app.
Qed.

Lemma updateTrackedFile_other (now : Z) (params : TrackedParams) (d : Db) (other : string) :
  other <> p_path params ->
  tracked_files (fst (updateTrackedFile now params d)) !! other = tracked_files d !! other.
Proof. intros Hne. cbn. by rewrite lookup_insert_ne. Qed.

(** A completed pass over a file that holds the complete lines [ls] from the
    stored cursor on. *)
Lemma pass_over_lines (fs : gmap string string) (now : Z) (path before : string)
    (st : SourceType) (ls : list string) (i i' : Ingestor) (n : nat) :
  closed i = false -> journal (db i) = None ->
  fs !! path = Some (before +:+ unlines ls) ->
  before = "" \/ endsWith before nl = true ->
  Forall (fun l => includes l nl = false) ls ->
  Z.of_nat (String.length (unlines ls)) <= TailReader.DEFAULT_MAX_BYTES ->
  default 0 (byteOffset <$> getTrackedFile (db i) path) = Z.of_nat (String.length before) ->
  ingestFile fs now path st i = (i', Ok n) ->
  exists evs,
    parseLines now (getParser st) ls path = Ok evs
    /\ n = length evs
    /\ events (db i') = events (db i) ++ map (rowOf now) evs
    /\ closed i' = false /\ journal (db i') = None
    /\ (ls = [] -> i' = i)
    /\ (ls <> [] ->
        getTrackedFile (db i') path
        = Some {| byteOffset := Z.of_nat (String.length (before +:+ unlines ls));
                  fileSize := Z.of_nat (String.length (before +:+ unlines ls)) |})
    /\ (forall other, other <> path ->
          tracked_files (db i') !! other = tracked_files (db i) !! other).
Proof.
  intros Hc Hj Hfile Hbefore Hls Hcap Hoff Hpass.
  apply ingestFile_ok_spec in Hpass; [|done|done]. cbn zeta in Hpass.
  rewrite (passRead_appended fs path before ls i) in Hpass by done.
  cbn [TailReader.nl_lines] in Hpass.
  destruct Hpass as [(-> & -> & ->) | (Hne & evs & Hparse & -> & ->)].
  - exists []. cbn. rewrite app_nil_r. by repeat split.
  - exists evs. split; [done|]. split; [done|]. split; [done|].
    split; [done|]. split; [done|]. split; [done|]. split.
    + intros _. cbn [db setDb].
      exact (updateTrackedFile_lookup now
               {| p_path := path; p_sourceType := st; p_byteOffset := _;
                  p_fileSize := _ |} _).
    + intros other Hother. cbn [db setDb]. unfold passParams.
      by rewrite updateTrackedFile_other.
Qed.

Lemma incremental_same_clock (fs1 fs2 : gmap string string) (now : Z)
    (path : string) (st : SourceType) (l1 l2 : list string)
    (i i1 i2 one : Ingestor) (n1 n2 n : nat) :
  closed i = false -> journal (db i) = None ->
  tracked_files (db i) !! path = None ->
  fs1 !! path = Some (unlines l1) ->
  fs2 !! path = Some (unlines (l1 ++ l2)) ->
  Forall (fun l => includes l nl = false) (l1 ++ l2) ->
  Z.of_nat (String.length (unlines (l1 ++ l2))) <= TailReader.DEFAULT_MAX_BYTES ->
  ingestFile fs1 now path st i = (i1, Ok n1) ->
  ingestFile fs2 now path st i1 = (i2, Ok n2) ->
  ingestFile fs2 now path st i = (one, Ok n) ->
  i2 = one.
Proof.
  intros Hclosed Hj Hfresh Hf1 Hf2 [Hl1 Hl2]%Forall_app Hcap Hp1 Hp2 Hone.
  assert (Hoff0 : default 0 (byteOffset <$> getTrackedFile (db i) path)
                  = Z.of_nat (String.length "")).
  { unfold getTrackedFile. by rewrite Hfresh. }
  assert (Hcap' := Hcap). rewrite unlines_app, append_length in Hcap'.
  pose proof (passRead_appended fs1 path "" l1 i Hf1 (or_introl eq_refl) Hl1
                ltac:(lia) Hoff0) as Hr1.
  pose proof (passRead_appended fs2 path "" (l1 ++ l2) i Hf2 (or_introl eq_refl)
                ltac:(by apply Forall_app) Hcap Hoff0) as Hr.
  rewrite append_nil_l in Hr1, Hr.
  pose proof Hone as Hone0.
  apply ingestFile_ok_spec in Hp1; [|done|done].
  apply ingestFile_ok_spec in Hone; [|done|done].
  cbn zeta in Hp1, Hone. rewrite Hr1 in Hp1. rewrite Hr in Hone.
  cbn [TailReader.nl_lines] in Hp1, Hone.
  destruct Hp1 as [(-> & -> & ->) | (Hne1 & e1 & Hpe1 & -> & ->)].
  - rewrite Hone0 in Hp2. by simplify_eq.
  - set (d1 := fst (updateTrackedFile now _ _)) in *.
    assert (Hc1 : closed (setDb d1 i) = false) by done.
    assert (Hj1 : journal (db (setDb d1 i)) = None) by done.
    assert (Hoff1 : default 0 (byteOffset <$> getTrackedFile (db (setDb d1 i)) path)
                    = Z.of_nat (String.length (unlines l1))).
    { subst d1. cbn [db setDb]. unfold passParams.
      rewrite (updateTrackedFile_lookup now
                 {| p_path := path; p_sourceType := st;
                    p_byteOffset := _; p_fileSize := _ |}). done. }
    rewrite unlines_app in Hf2.
    pose proof (passRead_appended fs2 path (unlines l1) l2 (setDb d1 i) Hf2
                  (unlines_ends l1) Hl2 ltac:(lia) Hoff1) as Hr2.
    apply ingestFile_ok_spec in Hp2; [|done|done].
    cbn zeta in Hp2. rewrite Hr2 in Hp2. cbn [TailReader.nl_lines] in Hp2.
    destruct Hone as [(Hnil & _) | (_ & e & Hpe & -> & ->)].
    { by destruct l1. }
    destruct (parseLines_app_eq now (getParser st) l1 l2 path) as [Happ _].
    rewrite Hpe, Hpe1 in Happ. cbn [mbind result_bind] in Happ.
    destruct Hp2 as [(-> & -> & ->) | (Hne2 & e2 & Hpe2 & -> & ->)].
    + cbn [parseLines mbind result_bind] in Happ.
      assert (e = e1 ++ []) as -> by congruence. rewrite !app_nil_r.
      subst d1. by unfold passParams.
    + rewrite Hpe2 in Happ. cbn [mbind result_bind] in Happ.
      assert (e = e1 ++ e2) as -> by congruence.
      subst d1. unfold passParams, updateTrackedFile, modify, addRows.
      cbn [fst db setDb tracked_files events journal p_path p_sourceType p_byteOffset
           p_fileSize TailReader.newCursor TailReader.fileSize].
      rewrite lookup_insert_eq, Hfresh, insert_insert_eq.
      cbn [source_type]. rewrite unlines_app, map_app, app_assoc. reflexivity.
Qed.

(** The parser of cache traces does not read the clock. *)
Lemma parseLines_trace_clock (now now' : Z) (lines : list string) (file : string) :
  parseLines now (getParser CacheTrace) lines file
  = parseLines now' (getParser CacheTrace) lines file.
Proof.
  induction lines as [|l lines IH]; [done|].
  cbn [parseLines]. by rewrite IH.
Qed.

Lemma rowOf_ts (now : Z) (evs : list ParsedEvent) :
  r_ts <$> map (rowOf now) evs = ts <$> evs.
Proof. induction evs as [|e evs IH]; [done|]. cbn. by f_equal. Qed.

(** X25. Ingesting a file of complete lines in two passes, before and after it
    grows by complete lines, stores what one pass over the grown file stores:
    the two counts add up to the count of the one pass, the rows are the same
    in the same order but for the time of ingestion and the [ts] (a record
    without a time of its own gets the clock reading of its pass), and the
    tracked cursor and size are the same.  The records of a cache trace carry
    their time, so their [ts] agree as well.  When the clock reads the same
    at all three passes, the two instances are equal. *)
Theorem incremental_ingestion_equals_one_pass (fs1 fs2 : gmap string string)
    (now1 now2 now : Z) (path : string) (st : SourceType) (l1 l2 : list string)
    (i i1 i2 one : Ingestor) (n1 n2 n : nat) :
  closed i = false -> journal (db i) = None ->
  tracked_files (db i) !! path = None ->
  fs1 !! path = Some (unlines l1) ->
  fs2 !! path = Some (unlines (l1 ++ l2)) ->
  Forall (fun l => includes l nl = false) (l1 ++ l2) ->
  Z.of_nat (String.length (unlines (l1 ++ l2))) <= TailReader.DEFAULT_MAX_BYTES ->
  ingestFile fs1 now1 path st i = (i1, Ok n1) ->
  ingestFile fs2 now2 path st i1 = (i2, Ok n2) ->
  ingestFile fs2 now path st i = (one, Ok n) ->
  n = (n1 + n2)%nat
  /\ timeless <$> events (db i2) = timeless <$> events (db one)
  /\ getTrackedFile (db i2) path = getTrackedFile (db one) path
  /\ (forall other, other <> path ->
        tracked_files (db i2) !! other = tracked_files (db one) !! other)
  /\ (st = CacheTrace -> r_ts <$> events (db i2) = r_ts <$> events (db one))
  /\ (now1 = now -> now2 = now -> i2 = one).
Proof.
  intros Hclosed Hj Hfresh Hf1 Hf2 Hall Hcap Hp1 Hp2 Hone.
  assert (Hsame : now1 = now -> now2 = now -> i2 = one).
  { intros -> ->. by eapply (incremental_same_clock fs1 fs2 now path st l1 l2 i i1 i2 one). }
  pose proof Hall as [Hl1 Hl2]%Forall_app.
  assert (Hoff0 : default 0 (byteOffset <$> getTrackedFile (db i) path)
                  = Z.of_nat (String.length "")).
  { unfold getTrackedFile. by rewrite Hfresh. }
  assert (Hcap' := Hcap). rewrite unlines_app, append_length in Hcap'.
  assert (Hf1' : fs1 !! path = Some ("" +:+ unlines l1)) by (by rewrite append_nil_l).
  assert (Hf2' : fs2 !! path = Some ("" +:+ unlines (l1 ++ l2)))
    by (by rewrite append_nil_l).
  destruct (pass_over_lines fs1 now1 path "" st l1 i i1 n1 Hclosed Hj Hf1'
              (or_introl eq_refl) Hl1 ltac:(lia) Hoff0 Hp1)
    as (e1 & Hpe1 & -> & Hev1 & Hc1 & Hj1 & Hnil1 & Hcur1 & Hoth1).
  destruct (pass_over_lines fs2 now path "" st (l1 ++ l2) i one n Hclosed Hj Hf2'
              (or_introl eq_refl) Hall Hcap Hoff0 Hone)
    as (e & Hpe & -> & Hev & _ & _ & Hnil & Hcur & Hoth).
  assert (Hoff1 : default 0 (byteOffset <$> getTrackedFile (db i1) path)
                  = Z.of_nat (String.length (unlines l1))).
  { destruct l1 as [|l l1]; [by rewrite Hnil1|].
    rewrite Hcur1 by done. by rewrite append_nil_l. }
  assert (Hf2'' := Hf2). rewrite unlines_app in Hf2''.
  destruct (pass_over_lines fs2 now2 path (unlines l1) st l2 i1 i2 n2 Hc1 Hj1 Hf2''
              (unlines_ends l1) Hl2 ltac:(lia) Hoff1 Hp2)
    as (e2 & Hpe2 & -> & Hev2 & _ & _ & Hnil2 & Hcur2 & Hoth2).
  (* the events of the one pass, split at the growth *)
  destruct (parseLines_app_eq now (getParser st) l1 l2 path) as [Happ _].
  rewrite Hpe in Happ.
  destruct (parseLines now (getParser st) l1 path) as [e1'|] eqn:Hpe1'; [|done].
  destruct (parseLines now (getParser st) l2 path) as [e2'|] eqn:Hpe2'; [|done].
  cbn [mbind result_bind] in Happ. assert (e = e1' ++ e2') as -> by congruence.
  pose proof (parseLines_clock st now1 now l1 path e1 e1' Hpe1 Hpe1') as Hrows1.
  pose proof (parseLines_clock st now2 now l2 path e2 e2' Hpe2 Hpe2') as Hrows2.
  assert (Hrows : timeless <$> events (db i2) = timeless <$> events (db one)).
  { assert (Hm : map (rowOf now) (e1' ++ e2')
                 = map (rowOf now) e1' ++ map (rowOf now) e2') by apply map_app.
    rewrite Hev2, Hev1, Hev, Hm, !fmap_app, Hrows1, Hrows2.
    by rewrite app_assoc. }
  split.
  { apply (f_equal length) in Hrows1, Hrows2.
    rewrite !length_fmap in Hrows1, Hrows2.
    rewrite length_app. lia. }
  split; [exact Hrows|]. split; [|split; [|split; [|exact Hsame]]].
  - destruct l2 as [|l l2].
    + rewrite (Hnil2 eq_refl). rewrite app_nil_r in *.
      destruct l1 as [|l l1].
      * by rewrite (Hnil1 eq_refl), (Hnil eq_refl).
      * rewrite Hcur1, Hcur by done. done.
    + rewrite Hcur2 by done. rewrite Hcur by (by destruct l1).
      by rewrite append_nil_l, unlines_app.
  - intros other Hother. by rewrite Hoth2, Hoth1, Hoth.
  - intros ->.
    rewrite (parseLines_trace_clock now1 now) in Hpe1.
    rewrite (parseLines_trace_clock now2 now) in Hpe2.
    assert (e1' = e1) as -> by congruence. assert (e2' = e2) as -> by congruence.
    rewrite Hev2, Hev1, Hev, !fmap_app, !rowOf_ts.
    by rewrite <- app_assoc.
Qed.

Lemma ingestFile_grows (fs : gmap string string) (now : Z) (path : string)
    (st : SourceType) (i : Ingestor) :
  journal (db i) = None ->
  journal (db (fst (ingestFile fs now path st i))) = None
  /\ exists rows,
       events (db (fst (ingestFile fs now path st i))) = events (db i) ++ rows
       /\ match snd (ingestFile fs now path st i) with
          | Ok n => n = length rows
                    /\ Forall (fun r => r_source_type r = st) rows
          | Throw _ => True
          end.
Proof.
  intros Hj. rewrite ingestFile_unfold.
  destruct (closed i).
  { split; [done|]. exists []. by rewrite app_nil_r. }
  cbn zeta. destruct (bool_decide _).
  { split; [done|]. exists []. by rewrite app_nil_r. }
  destruct (parseLines _ _ _ _) as [evs|e] eqn:Hparse.
  2:{ split; [done|]. exists []. by rewrite app_nil_r. }
  destruct (bool_decide (evs = [])) eqn:Hevs.
  { apply bool_decide_eq_true in Hevs. subst evs. cbn. split; [done|].
    exists []. by rewrite app_nil_r. }
  rewrite insertEvents_eq.
  destruct (insertBatches (length evs) (Pos.to_nat (batchSize i)) now evs (db i))
    as [d1 r1] eqn:Hins.
  apply insertBatches_spec in Hins; [|done|lia|done].
  cbn [fst snd]. destruct r1 as [[]|err].
  - subst d1. cbn. split; [done|]. exists (map (rowOf now) evs).
    split; [done|]. split; [by rewrite length_map|].
    apply Forall_map. cbn [rowOf r_source_type].
    clear -Hparse. revert evs Hparse.
    induction (TailReader.nl_lines (passRead fs path i)) as [|l ls IH]; intros evs Hp.
    + cbn in Hp. assert (evs = []) as -> by congruence. constructor.
    + rewrite parseLines_cons in Hp.
      destruct (parseLine (getParser st) now l path) as [r|] eqn:Hl; [|done].
      cbn [mbind result_bind] in Hp.
      destruct (parseLines now (getParser st) ls path) as [es|]; [|done].
      cbn [mbind result_bind] in Hp. specialize (IH es eq_refl).
      destruct r as [e|].
      * assert (evs = e :: es) as -> by congruence. constructor; [|done].
        by apply (event_source_type st now l path e).
      * by assert (evs = es) as -> by congruence.
  - destruct Hins as (_ & k & _ & -> & _). cbn. split; [done|]. by eexists.
Qed.

Lemma setDb_db (i : Ingestor) : setDb (db i) i = i.
Proof. by destruct i. Qed.

Lemma ingestAll_spec (fs : gmap string string) (now : Z)
    (files : list (string * SourceType)) (total : nat) (i : Ingestor) :
  journal (db i) = None ->
  exists i' n rows,
    ingestAll fs now files total i = (i', Ok n)
    /\ i' = setDb (db i') i
    /\ journal (db i') = None
    /\ events (db i') = events (db i) ++ rows
    /\ (total <= n <= total + length rows)%nat.
Proof.
  revert total i. induction files as [|[path st] files IH]; intros total i Hj.
  - exists i, total, []. cbn [ingestAll]. unfold ret.
    rewrite setDb_db, app_nil_r. repeat split; [done | lia | cbn; lia].
  - cbn [ingestAll]. unfold bindM, tryCatch, ret.
    destruct (ingestFile_grows fs now path st i Hj) as (Hj1 & rows1 & Hev1 & Hr1).
    pose proof (ingestFile_only_db fs now path st i) as Hdb1.
    destruct (ingestFile fs now path st i) as [i1 r1]. cbn [fst snd] in *.
    destruct r1 as [count|err].
    + destruct Hr1 as [-> _].
      destruct (IH (total + length rows1)%nat i1 Hj1) as (i' & n & rows & -> & Hi' & Hj' & Hev & Hn).
      exists i', n, (rows1 ++ rows). split; [done|]. split.
      { rewrite Hi', Hdb1. reflexivity. }
      split; [done|]. split; [by rewrite Hev, Hev1, app_assoc|].
      rewrite length_app. lia.
    + destruct (IH total i1 Hj1) as (i' & n & rows & -> & Hi' & Hj' & Hev & Hn).
      exists i', n, (rows1 ++ rows). split; [done|]. split.
      { rewrite Hi', Hdb1. reflexivity. }
      split; [done|]. split; [by rewrite Hev, Hev1, app_assoc|].
      rewrite length_app. lia.
Qed.

Lemma initial_ingestion_aux (files : list (string * SourceType))
    (fs : gmap string string) (now : Z) (i : Ingestor) :
  closed i = false -> journal (db i) = None ->
  exists i' er, ingestExisting files fs now i = (i', Ok er) /\ i' = setDb (db i') i.
Proof.
  intros Hclosed Hj. unfold ingestExisting, bindM, gets, throw, ret. rewrite Hclosed.
  destruct (ingestAll_spec fs now files 0 i Hj) as (i' & n & rows & -> & Hi' & _).
  by eexists _, _.
Qed.

(** X26. On an open instance [ingestExisting] does not throw, whatever
    happens to the single files: it reports the number of files it was given
    and a number of events that is at most the number of rows it added, and
    it changes nothing of the instance but the store. *)
Theorem initial_ingestion_never_fails (files : list (string * SourceType))
    (fs : gmap string string) (now : Z) (i : Ingestor) :
  closed i = false -> journal (db i) = None ->
  exists i' n rows,
    ingestExisting files fs now i
    = (i', Ok {| er_files := length files; er_events := n |})
    /\ i' = setDb (db i') i
    /\ events (db i') = events (db i) ++ rows
    /\ (n <= length rows)%nat.
Proof.
  intros Hclosed Hj. unfold ingestExisting, bindM, gets, throw, ret. rewrite Hclosed.
  destruct (ingestAll_spec fs now files 0 i Hj) as (i' & n & rows & -> & Hi' & _ & Hev & Hn).
  exists i', n, rows. repeat split; [done | done | lia].
Qed.

Lemma startWatching_eq (files : list (string * SourceType))
    (fs : gmap string string) (now : Z) (i : Ingestor) :
  startWatching files fs now i
  = if closed i then (i, Throw ClosedError)
    else if watcher i then (i, Ok tt)
    else match ingestExisting files fs now i with
         | (i', Ok _) => (setWatcher true i', Ok tt)
         | (i', Throw e) => (i', Throw e)
         end.
Proof.
  unfold startWatching, bindM, gets, throw, ret, modify.
  destruct (closed i); [done|]. destruct (watcher i); [done|].
  by destruct (ingestExisting files fs now i) as [i' [er|e]].
Qed.

(** X27. On an open instance [startWatching] does not throw and leaves the
    watcher attached: without a watcher it ingests the existing files and
    attaches one; with a watcher it does nothing, so that a second call
    changes nothing; [stopWatching] then detaches the watcher and clears the
    timer, and nothing else. *)
Theorem startWatching_attaches_once (files : list (string * SourceType))
    (fs : gmap string string) (now : Z) (i : Ingestor) :
  closed i = false -> journal (db i) = None ->
  let i1 := fst (startWatching files fs now i) in
  snd (startWatching files fs now i) = Ok tt
  /\ watcher i1 = true /\ closed i1 = false
  /\ (watcher i = false ->
      i1 = setWatcher true (fst (ingestExisting files fs now i)))
  /\ (watcher i = true -> i1 = i)
  /\ (forall files' fs' now', startWatching files' fs' now' i1 = (i1, Ok tt))
  /\ stopWatching i1 = (setWatcher false (setIngestTimer false i1), Ok tt).
Proof.
  intros Hclosed Hj i1. subst i1.
  destruct (initial_ingestion_aux files fs now i Hclosed Hj) as (i' & er & Hex & Hi').
  assert (Hc' : closed i' = false) by (rewrite Hi'; exact Hclosed).
  rewrite startWatching_eq, Hclosed.
  destruct (watcher i) eqn:Hw.
  - cbn [fst snd]. repeat split; try done.
    intros files' fs' now'. by rewrite startWatching_eq, Hclosed, Hw.
  - rewrite Hex. cbn [fst snd]. repeat split; try done.
    intros files' fs' now'. rewrite startWatching_eq. cbn [closed watcher setWatcher].
    by rewrite Hc'.
Qed.

Lemma filter_by_type (t : SourceType) (l : list Row) :
  Forall (fun r => r_source_type r = t) l ->
  forall t', length (filter (fun r => r_source_type r = t') l)
             = if decide (t = t') then length l else 0%nat.
Proof.
  intros Hl t'. induction Hl as [|r l Hr _ IH]; [by destruct (decide _)|].
  rewrite filter_cons. destruct (decide (t = t')) as [<- | Hne].
  - rewrite decide_True by done. cbn [length]. by rewrite IH.
  - rewrite decide_False by congruence. exact IH.
Qed.

Lemma count_by_type (l : list Row) :
  length l
  = (length (filter (fun r => r_source_type r = SystemLog) l)
     + length (filter (fun r => r_source_type r = CacheTrace) l)
     + length (filter (fun r => r_source_type r = Session) l))%nat.
Proof.
  induction l as [|r l IH]; [done|].
  rewrite !filter_cons. cbn [length]. rewrite IH.
  destruct (r_source_type r);
    repeat (first [rewrite decide_True by done | rewrite decide_False by done]);
    cbn [length]; lia.
Qed.

(** X28. [status] after a pass that returned [n]: the total number of events
    and the number for the source type of the pass have grown by [n], the
    numbers of the other source types are as before, and the total is the sum
    of the numbers by type. *)
Theorem status_reflects_a_pass (fs : gmap string string) (now : Z) (path : string)
    (st : SourceType) (i i' : Ingestor) (n : nat) :
  closed i = false -> journal (db i) = None ->
  ingestFile fs now path st i = (i', Ok n) ->
  exists s0 s1,
    status i = (i, Ok s0) /\ status i' = (i', Ok s1)
    /\ st_totalEvents s1 = (st_totalEvents s0 + n)%nat
    /\ st_eventsByType s1 st = (st_eventsByType s0 st + n)%nat
    /\ (forall t, t <> st -> st_eventsByType s1 t = st_eventsByType s0 t)
    /\ st_totalEvents s1
       = (st_eventsByType s1 SystemLog + st_eventsByType s1 CacheTrace
          + st_eventsByType s1 Session)%nat
    /\ st_watching s1 = watcher i.
Proof.
  intros Hclosed Hj Hpass.
  destruct (ingestFile_grows fs now path st i Hj) as (_ & rows & Hev & Hr).
  pose proof (ingestFile_only_db fs now path st i) as Hdb.
  rewrite Hpass in Hev, Hr, Hdb. cbn [fst snd] in *. destruct Hr as [-> Hrows].
  assert (Hc' : closed i' = false) by (by rewrite Hdb).
  unfold status. monad_unfold. rewrite Hclosed, Hc'.
  eexists _, _. split; [done|]. split; [done|].
  cbn [st_totalEvents st_eventsByType st_watching].
  rewrite Hev. split; [by rewrite length_app|].
  split; [|split; [|split]].
  - rewrite filter_app, length_app, (filter_by_type st rows Hrows).
    by rewrite decide_True.
  - intros t Ht. rewrite filter_app, length_app, (filter_by_type st rows Hrows).
    rewrite decide_False by congruence. lia.
  - apply count_by_type.
  - by rewrite Hdb.
Qed.

End IngestorMore.

(** *** Instances on the reference host and engine *)

Lemma missing_or_empty_file_is_skipped_witness :
  @ingestFile Ref.host Ref.engine emptiedFs 9 logPath SystemLog afterFourBytes
  = (afterFourBytes, Ok 0%nat).
Proof.
  apply (@missing_or_empty_file_is_skipped Ref.host Ref.engine emptiedFs 9 logPath
           SystemLog afterFourBytes).
  right. reflexivity.
Defined.

Lemma incremental_ingestion_equals_one_pass_witness :
  let i1 := fst (@ingestFile Ref.host Ref.engine traceFs 1000 tracePath CacheTrace fresh) in
  let i2 := fst (@ingestFile Ref.host Ref.engine grownFs 2000 tracePath CacheTrace i1) in
  let one := fst (@ingestFile Ref.host Ref.engine grownFs 3000 tracePath CacheTrace fresh) in
  2%nat = (1 + 1)%nat
  /\ timeless <$> events (db i2) = timeless <$> events (db one)
  /\ getTrackedFile (db i2) tracePath = getTrackedFile (db one) tracePath
  /\ (forall other, other <> tracePath ->
        tracked_files (db i2) !! other = tracked_files (db one) !! other)
  /\ (CacheTrace = CacheTrace -> r_ts <$> events (db i2) = r_ts <$> events (db one))
  /\ (1000 = 3000 -> 2000 = 3000 -> i2 = one).
Proof.
  intros i1 i2 one.
  eapply (@incremental_ingestion_equals_one_pass Ref.host Ref.engine traceFs grownFs
            1000 2000 3000 tracePath CacheTrace [loadedLine]
            [Ref.js "{'ts':'t2','seq':2,'stage':'prompt:before'}"] fresh).
  - reflexivity.
  - reflexivity.
  - reflexivity.
  - vm_compute. reflexivity.
  - vm_compute. reflexivity.
  - repeat constructor.
  - vm_compute. discriminate.
  - vm_compute. reflexivity.
  - vm_compute. reflexivity.
  - vm_compute. reflexivity.
Defined.

(** The two passes at times 1000 and 2000 and the one pass at time 3000 store
    the same two records; the times of ingestion tell them apart. *)
Example passes_differ_in_ingestion_time :
  let i1 := fst (@ingestFile Ref.host Ref.engine traceFs 1000 tracePath CacheTrace fresh) in
  let i2 := fst (@ingestFile Ref.host Ref.engine grownFs 2000 tracePath CacheTrace i1) in
  let one := fst (@ingestFile Ref.host Ref.engine grownFs 3000 tracePath CacheTrace fresh) in
  map r_ingested_at (events (db i2)) = [1000; 2000]
  /\ map r_ingested_at (events (db one)) = [3000; 3000]
  /\ map r_raw_json (events (db i2)) = map r_raw_json (events (db one)).
Proof. vm_compute. repeat split; reflexivity. Qed.

Lemma initial_ingestion_never_fails_witness :
  exists i' n rows,
    @ingestExisting Ref.host Ref.engine
      [(sessionPath, Session); (tracePath, CacheTrace)] (sessionFs ∪ traceFs) 1000 smallBatches
    = (i', Ok {| er_files := length [(sessionPath, Session); (tracePath, CacheTrace)];
                 er_events := n |})
    /\ i' = setDb (db i') smallBatches
    /\ events (db i') = events (db smallBatches) ++ rows
    /\ (n <= length rows)%nat.
Proof.
  apply (@initial_ingestion_never_fails Ref.host Ref.engine
           [(sessionPath, Session); (tracePath, CacheTrace)] (sessionFs ∪ traceFs) 1000
           smallBatches); reflexivity.
Defined.

Example failed_file_is_not_counted :
  let out := @ingestExisting Ref.host Ref.engine
               [(sessionPath, Session); (tracePath, CacheTrace)] (sessionFs ∪ traceFs) 1000
               smallBatches in
  snd out = Ok {| er_files := 2; er_events := 1 |}
  /\ length (events (db (fst out))) = 3%nat.
Proof. vm_compute. split; reflexivity. Qed.

Lemma startWatching_attaches_once_witness :
  let i1 := fst (@startWatching Ref.host Ref.engine [(tracePath, CacheTrace)] traceFs 1000
                   fresh) in
  snd (@startWatching Ref.host Ref.engine [(tracePath, CacheTrace)] traceFs 1000 fresh)
  = Ok tt
  /\ watcher i1 = true /\ closed i1 = false
  /\ (watcher fresh = false ->
      i1 = setWatcher true
             (fst (@ingestExisting Ref.host Ref.engine [(tracePath, CacheTrace)] traceFs 1000
                     fresh)))
  /\ (watcher fresh = true -> i1 = fresh)
  /\ (forall files' fs' now',
        @startWatching Ref.host Ref.engine files' fs' now' i1 = (i1, Ok tt))
  /\ stopWatching i1 = (setWatcher false (setIngestTimer false i1), Ok tt).
Proof.
  apply (@startWatching_attaches_once Ref.host Ref.engine [(tracePath, CacheTrace)] traceFs
           1000 fresh); reflexivity.
Defined.

Lemma status_reflects_a_pass_witness :
  let i' := fst (@ingestFile Ref.host Ref.engine traceFs 1000 tracePath CacheTrace fresh) in
  exists s0 s1,
    status fresh = (fresh, Ok s0) /\ status i' = (i', Ok s1)
    /\ st_totalEvents s1 = (st_totalEvents s0 + 1)%nat
    /\ st_eventsByType s1 CacheTrace = (st_eventsByType s0 CacheTrace + 1)%nat
    /\ (forall t, t <> CacheTrace -> st_eventsByType s1 t = st_eventsByType s0 t)
    /\ st_totalEvents s1
       = (st_eventsByType s1 SystemLog + st_eventsByType s1 CacheTrace
          + st_eventsByType s1 Session)%nat
    /\ st_watching s1 = watcher fresh.
Proof.
  apply (@status_reflects_a_pass Ref.host Ref.engine traceFs 1000 tracePath CacheTrace fresh).
  - reflexivity.
  - reflexivity.
  - vm_compute. reflexivity.
Defined.

(* ===================================================================== *)
(** * Part IV. The event loop                                             *)
(* ===================================================================== *)

(** ** Ingestor: the debounced processing of notifications, [close] *)

Section LoopInv.
Context `{Host} `{Engine}.

Lemma setAdd_elem (p q : string) (l : list string) :
  q ∈ setAdd p l <-> q = p \/ q ∈ l.
Proof.
  unfold setAdd. case_bool_decide as Hin.
  - split; [by right | intros [-> | ?]; done].
  - rewrite elem_of_app, list_elem_of_singleton. tauto.
Qed.

Lemma setAdd_nonempty (p : string) (l : list string) : setAdd p l <> [].
Proof.
  unfold setAdd. case_bool_decide as Hin.
  - intros ->. by apply not_elem_of_nil in Hin.
  - by destruct l.
Qed.

Lemma processFinally_eq (i : Ingestor) :
  processFinally i
  = (setIngestTimer
       (ingestTimer i || negb (bool_decide (pendingFiles i = [])) && negb (closed i))
       (setProcessing false i), Ok tt).
Proof.
  unfold processFinally, scheduleIngest. monad_unfold.
  destruct i as [d wps bs w pend timer proc cl]. cbn.
  by destruct pend, cl, timer.
Qed.

Lemma ingestFileResume_unfold (fs : gmap string string) (now : Z) (path : string)
    (st : SourceType) (c : Z) (i : Ingestor) :
  ingestFileResume fs now path st c i
  = let r := TailReader.readNewLines fs path c None in
    if bool_decide (TailReader.nl_lines r = []) then (i, Ok 0%nat) else
    match parseLines now (getParser st) (TailReader.nl_lines r) path with
    | Throw e => (i, Throw e)
    | Ok evs =>
        match (if bool_decide (evs = []) then (i, Ok tt) else insertEvents now evs i) with
        | (i1, Ok _) =>
            (setDb (fst (updateTrackedFile now (passParams path st r) (db i1))) i1,
             Ok (length evs))
        | (i1, Throw e) => (i1, Throw e)
        end
    end.
Proof.
  unfold ingestFileResume, passParams. monad_unfold. cbn zeta.
  destruct (bool_decide _); [done|].
  destruct (parseLines _ _ _ _) as [evs|e]; [|done].
  destruct (bool_decide (evs = [])); [done|].
  by destruct (insertEvents now evs i) as [i1 [[]|e]].
Qed.

(** The second half of a pass writes the store and nothing else, and what it
    writes depends on the store and the batch size only. *)
Lemma ingestFileResume_only_db (fs : gmap string string) (now : Z) (path : string)
    (st : SourceType) (c : Z) (i : Ingestor) :
  fst (ingestFileResume fs now path st c i)
  = setDb (db (fst (ingestFileResume fs now path st c i))) i.
Proof.
  rewrite ingestFileResume_unfold. cbn zeta.
  destruct (bool_decide _); [by destruct i|].
  destruct (parseLines _ _ _ _) as [evs|e]; [|by destruct i].
  destruct (bool_decide (evs = [])); [done|].
  rewrite insertEvents_eq.
  by destruct (insertBatches _ _ _ _ _) as [d1 [[]|err]].
Qed.

Lemma ingestFileResume_db (fs : gmap string string) (now : Z) (path : string)
    (st : SourceType) (c : Z) (i j : Ingestor) :
  db i = db j -> batchSize i = batchSize j ->
  db (fst (ingestFileResume fs now path st c i))
  = db (fst (ingestFileResume fs now path st c j)).
Proof.
  intros Hdb Hbs. rewrite !ingestFileResume_unfold. cbn zeta.
  destruct (bool_decide _); [done|].
  destruct (parseLines _ _ _ _) as [evs|e]; [|done].
  destruct (bool_decide (evs = [])).
  - cbn [fst db setDb]. by rewrite Hdb.
  - rewrite !insertEvents_eq, Hdb, Hbs.
    by destruct (insertBatches _ _ _ _ _) as [d1 [[]|err]].
Qed.

Lemma processLoop_closed (i : Ingestor) (open : bool) (files : list string) :
  closed i = true -> processLoop i open files = (Ok None, []).
Proof. intros Hc. destruct files; cbn [processLoop]; [done|]. by rewrite Hc. Qed.

Lemma processLoop_next (i : Ingestor) (f : string) (st : SourceType) (rest : list string) :
  closed i = false -> getSourceTypeForFile (watchedPaths i) f = Ok (Some st) ->
  processLoop i true (f :: rest)
  = (Ok (Some (Reading f st (default 0 (byteOffset <$> getTrackedFile (db i) f)) rest)),
     [f]).
Proof.
  intros Hc Hst. cbn [processLoop]. rewrite Hc, Hst.
  unfold callIngestFile. by rewrite ingestFileBegin_eq, Hc.
Qed.

Lemma runLoop_closed (i : Ingestor) (open : bool) (files : list string) :
  closed i = true -> runLoop i open files = (setProcessing false i, None, []).
Proof.
  intros Hc. unfold runLoop. rewrite processLoop_closed by done.
  rewrite processFinally_eq, Hc. cbn [fst]. rewrite andb_false_r, orb_false_r.
  by destruct i.
Qed.

Lemma runLoop_nil (i : Ingestor) (open : bool) :
  runLoop i open [] = (fst (processFinally i), None, []).
Proof. reflexivity. Qed.

Lemma runLoop_next (i : Ingestor) (f : string) (st : SourceType) (rest : list string) :
  closed i = false -> getSourceTypeForFile (watchedPaths i) f = Ok (Some st) ->
  runLoop i true (f :: rest)
  = (i, Some (Reading f st (default 0 (byteOffset <$> getTrackedFile (db i) f)) rest),
     [f]).
Proof. intros Hc Hst. unfold runLoop. by rewrite (processLoop_next i f st). Qed.

Lemma idle_inv (s : Sys) :
  idle s -> dbOpen s = true -> closing s = None -> loopInv s.
Proof.
  destruct s as [[d wps bs w pend timer proc cl] o ts c log].
  unfold idle, loopInv. cbn. intros (-> & -> & -> & ->) -> ->.
  repeat split; try done; cbn; lia.
Qed.

#[local] Set Warnings "-clear-no-such-hyp".

Ltac forall_sub H :=
  let Hq := fresh "Hq" in
  apply Forall_forall; intros ? Hq; apply (proj1 (Forall_forall _ _) H);
  set_solver.

Lemma callsIngest_setDb (d : Db) (i : Ingestor) (p : string) :
  callsIngest (setDb d i) p = callsIngest i p.
Proof. reflexivity. Qed.

Lemma step_timer (s : Sys) :
  step TimerFires s
  = if ingestTimer (ing s) then
      if closed (ing s) || processing (ing s) then
        {| ing := setIngestTimer false (ing s); dbOpen := dbOpen s; tasks := tasks s;
           closing := closing s; ingested := ingested s |}
      else
        let '(i', task, called) :=
          runLoop (setPendingFiles [] (setProcessing true (setIngestTimer false (ing s))))
                  (dbOpen s) (pendingFiles (ing s)) in
        {| ing := i'; dbOpen := dbOpen s; tasks := tasks s ++ option_list task;
           closing := closing s; ingested := ingested s ++ called |}
    else s.
Proof.
  cbn [step]. destruct (ingestTimer (ing s)); [|done].
  unfold processStart. monad_unfold. cbn [closed processing setIngestTimer].
  by destruct (closed (ing s)), (processing (ing s)).
Qed.

Lemma step_close (s : Sys) :
  step CloseCalled s
  = if closed (ing s) then s
    else {| ing := setIngestTimer false (setClosed true (ing s)); dbOpen := dbOpen s;
            tasks := tasks s;
            closing := Some (if watcher (ing s) then AwaitWatcher else AwaitStop);
            ingested := ingested s |}.
Proof.
  cbn [step]. unfold closeBegin. monad_unfold.
  destruct (closed (ing s)) eqn:Hc; [by destruct s|]. reflexivity.
Qed.

Lemma step_inv (l : Label) (s : Sys) : loopInv s -> loopInv (step l s).
Proof.
  destruct s as [[d wps bs w pend timer proc cl] o ts c log].
  unfold loopInv.
  cbn [ing tasks processing closed pendingFiles ingestTimer dbOpen closing].
  intros (H1 & H2 & H3 & H4 & H5).
  destruct l as [kind path | | n fs now | n | | ].
  - (* a notification *)
    cbn [step ing watcher watchedPaths]. destruct w; [|done].
    unfold emitEvent.
    destruct (getSourceTypeForFile wps path) as [[st|]|] eqn:Hst; try done.
    destruct kind; try done.
    all: unfold withIng, onFileChange, scheduleIngest; monad_unfold;
      cbn; destruct timer; cbn.
    all: repeat split; try tauto; try (by left).
    all: try (rewrite Forall_app in *; destruct H4 as [H4 H4']; split; [|done];
              apply Forall_forall; intros q [-> | Hq]%setAdd_elem;
              [unfold callsIngest; cbn; by rewrite Hst
              | by apply (proj1 (Forall_forall _ _) H4)]).
  - (* the timer fires *)
    rewrite step_timer. cbn [ing ingestTimer closed processing dbOpen tasks closing
                             ingested pendingFiles].
    destruct timer; [|done].
    destruct cl; cbn [orb].
    { cbn. repeat split; try tauto; done. }
    destruct proc; cbn [orb].
    { cbn. repeat split; try tauto; try (intros; by right). }
    assert (ts = []) as ->.
    { destruct ts; [done|]. by assert (false = true) by (apply H2; done). }
    destruct (H5 eq_refl) as [-> ->].
    cbn [fmap list_fmap concat] in H4. rewrite app_nil_r in H4.
    destruct pend as [|p pend].
    { rewrite runLoop_nil, processFinally_eq. cbn.
      repeat split; try tauto; try done; lia. }
    assert (Hp : callsIngest {| db := d; watchedPaths := wps; batchSize := bs;
                                watcher := w; pendingFiles := p :: pend;
                                ingestTimer := true; processing := false;
                                closed := false |} p = true).
    { apply (proj1 (Forall_forall _ _) H4). by left. }
    unfold callsIngest in Hp. cbn [watchedPaths] in Hp.
    destruct (getSourceTypeForFile wps p) as [[st|]|] eqn:Hst; try done.
    rewrite (runLoop_next _ p st) by done.
    cbn. repeat split; try done; try lia.
    by rewrite app_nil_r.
  - (* the read of the pass in flight resolves *)
    cbn [step tasks ing closed dbOpen closing ingested].
    destruct ts as [|t ts]; [by destruct n|].
    destruct ts; [|cbn in H1; lia].
    destruct n as [|n]; [|done]. cbn [lookup list_lookup].
    destruct t as [f st cur rest|rest]; [|done].
    assert (proc = true) as -> by (by apply H2).
    cbn [list_insert insert].
    assert (Hi : exists d', (if o then fst (ingestFileResume fs now f st cur
                   {| db := d; watchedPaths := wps; batchSize := bs; watcher := w;
                      pendingFiles := pend; ingestTimer := timer; processing := true;
                      closed := cl |})
                 else {| db := d; watchedPaths := wps; batchSize := bs; watcher := w;
                         pendingFiles := pend; ingestTimer := timer; processing := true;
                         closed := cl |})
                = {| db := d'; watchedPaths := wps; batchSize := bs; watcher := w;
                     pendingFiles := pend; ingestTimer := timer; processing := true;
                     closed := cl |}).
    { destruct o; [|by eexists]. rewrite ingestFileResume_only_db. by eexists. }
    destruct Hi as [d' ->].
    cbn [ing tasks processing closed pendingFiles ingestTimer dbOpen closing
         fmap list_fmap concat taskFiles] in *.
    rewrite app_nil_r in *.
    repeat split; try tauto; try done; try lia.
    forall_sub H4.
  - (* the pass in flight takes up its loop *)
    cbn [step tasks ing closed dbOpen closing ingested].
    destruct ts as [|t ts]; [by destruct n|].
    destruct ts; [|cbn in H1; lia].
    destruct n as [|n]; [|done]. cbn [lookup list_lookup].
    destruct t as [f st cur rest|rest]; [done|].
    assert (proc = true) as -> by (by apply H2).
    cbn [fmap list_fmap concat taskFiles] in H4. rewrite app_nil_r in H4.
    destruct rest as [|g rest].
    { rewrite runLoop_nil, processFinally_eq. cbn.
      destruct pend, cl, timer; cbn; repeat split; try tauto; try done; try lia;
        try (intros; by left); try forall_sub H4. }
    destruct cl.
    { rewrite runLoop_closed by done. cbn.
      repeat split; try tauto; try done; try lia.
      all: try forall_sub H4. }
    destruct (H5 eq_refl) as [-> ->].
    assert (Hg : callsIngest {| db := d; watchedPaths := wps; batchSize := bs;
                                watcher := w; pendingFiles := pend;
                                ingestTimer := timer; processing := true;
                                closed := false |} g = true).
    { apply (proj1 (Forall_forall _ _) H4).
      rewrite elem_of_app, elem_of_cons. tauto. }
    unfold callsIngest in Hg. cbn [watchedPaths] in Hg.
    destruct (getSourceTypeForFile wps g) as [[st|]|] eqn:Hst; try done.
    rewrite (runLoop_next _ g st) by done.
    cbn. rewrite app_nil_r.
    repeat split; try tauto; try done; try lia; try (intros; by right).
  - (* close is called *)
    rewrite step_close. cbn.
    destruct cl; cbn; repeat split; try tauto; done.
  - (* close goes on *)
    cbn [step closing].
    destruct c as [[]|]; cbn; [| |repeat split; tauto].
    all: destruct cl; [|by destruct (H5 eq_refl)].
    all: repeat split; try tauto; done.
Qed.

Lemma run_inv (ls : list Label) (s : Sys) : loopInv s -> loopInv (run ls s).
Proof.
  revert s. induction ls as [|l ls IH]; intros s Hs; [done|].
  cbn. apply IH. by apply step_inv.
Qed.

(** While a pass is in flight the timer starts no other pass, and what is
    pending stays pending. *)
Lemma timer_during_pass (s : Sys) :
  loopInv s -> tasks s <> [] ->
  tasks (step TimerFires s) = tasks s
  /\ pendingFiles (ing (step TimerFires s)) = pendingFiles (ing s)
  /\ ingested (step TimerFires s) = ingested s
  /\ db (ing (step TimerFires s)) = db (ing s).
Proof.
  intros (_ & H2 & _) Hts. apply H2 in Hts.
  rewrite step_timer, Hts, orb_true_r. by destruct (ingestTimer (ing s)).
Qed.

(** A notification of a classified path puts it into the pending set and
    leaves the timer armed, whatever the loop is doing. *)
Lemma notification_is_queued (s : Sys) (kind : ChangeKind) (p : string) (st : SourceType) :
  watcher (ing s) = true -> kind <> Unlink ->
  getSourceTypeForFile (watchedPaths (ing s)) p = Ok (Some st) ->
  p ∈ pendingFiles (ing (step (Notify kind p) s))
  /\ ingestTimer (ing (step (Notify kind p) s)) = true
  /\ (forall q, q ∈ pendingFiles (ing s) -> q ∈ pendingFiles (ing (step (Notify kind p) s)))
  /\ tasks (step (Notify kind p) s) = tasks s
  /\ db (ing (step (Notify kind p) s)) = db (ing s).
Proof.
  intros Hw Hk Hst. cbn [step]. rewrite Hw. unfold emitEvent. rewrite Hst.
  unfold withIng, onFileChange, scheduleIngest. monad_unfold.
  cbn [fc_eventType fc_path].
  destruct s as [[d wps bs w pend timer proc cl] o ts c log].
  destruct kind; try done; cbn; destruct timer; cbn;
    (split; [apply setAdd_elem; by left|]); (split; [done|]);
    (split; [intros q Hq; apply setAdd_elem; by right|]); done.
Qed.

(** A pending path stays pending until the timer starts a pass, which takes
    the whole pending set. *)
Lemma pending_is_kept (l : Label) (s : Sys) (p : string) :
  loopInv s -> p ∈ pendingFiles (ing s) ->
  p ∈ pendingFiles (ing (step l s))
  \/ (l = TimerFires /\ tasks s = []
      /\ exists t, tasks (step l s) = [t] /\ taskFiles t = pendingFiles (ing s)).
Proof.
  destruct s as [[d wps bs w pend timer proc cl] o ts c log].
  unfold loopInv.
  cbn [ing tasks processing closed pendingFiles ingestTimer dbOpen closing].
  intros (H1 & H2 & _ & H4 & H5) Hp.
  destruct l as [kind path | | n fs now | n | | ].
  - left. cbn [step ing watcher watchedPaths]. destruct w; [|done].
    destruct (emitEvent wps kind path) as [ev|]; [|done].
    unfold withIng, onFileChange, scheduleIngest; monad_unfold.
    destruct (fc_eventType ev); cbn; try done.
    all: destruct timer; cbn; apply setAdd_elem; by right.
  - rewrite step_timer. cbn [ing ingestTimer closed processing dbOpen tasks closing
                             ingested pendingFiles].
    destruct timer; [|by left].
    destruct cl; cbn [orb]; [by left|]. destruct proc; cbn [orb]; [by left|].
    assert (ts = []) as ->.
    { destruct ts; [done|]. by assert (false = true) by (apply H2; done). }
    destruct (H5 eq_refl) as [-> ->].
    right. split; [done|]. split; [done|].
    cbn [fmap list_fmap concat] in H4. rewrite app_nil_r in H4.
    destruct pend as [|f pend]; [by apply not_elem_of_nil in Hp|].
    assert (Hf : callsIngest {| db := d; watchedPaths := wps; batchSize := bs;
                                watcher := w; pendingFiles := f :: pend;
                                ingestTimer := true; processing := false;
                                closed := false |} f = true).
    { apply (proj1 (Forall_forall _ _) H4). by left. }
    unfold callsIngest in Hf. cbn [watchedPaths] in Hf.
    destruct (getSourceTypeForFile wps f) as [[st|]|] eqn:Hst; try done.
    rewrite (runLoop_next _ f st) by done. cbn. by eexists.
  - left. cbn [step tasks ing closed dbOpen].
    destruct (ts !! n) as [[f st cur rest|rest]|]; try done.
    cbn [ing]. destruct o; [|done].
    rewrite ingestFileResume_only_db. done.
  - left. cbn [step tasks ing closed dbOpen].
    destruct (ts !! n) as [[f st cur rest|rest]|]; try done.
    unfold runLoop.
    destruct (processLoop _ _ _) as [[[t|]|] called]; cbn [ing pendingFiles]; try done;
      by rewrite processFinally_eq.
  - left. rewrite step_close. cbn. by destruct cl.
  - left. cbn [step closing]. by destruct c as [[]|].
Qed.

(** The read of the pass in flight resolves: the second half of [ingestFile]
    runs, on the cursor that the first half has read. *)
Lemma read_completes (s : Sys) (fs : gmap string string) (now : Z) (f : string)
    (st : SourceType) (c : Z) (rest : list string) :
  tasks s = [Reading f st c rest] ->
  step (ReadCompletes 0 fs now) s
  = {| ing := if dbOpen s then fst (ingestFileResume fs now f st c (ing s)) else ing s;
       dbOpen := dbOpen s; tasks := [Returning rest]; closing := closing s;
       ingested := ingested s |}.
Proof. intros Ht. cbn [step]. by rewrite Ht. Qed.

(** The pass in flight calls [ingestFile] on its next file. *)
Lemma pass_takes_next (s : Sys) (g : string) (rest : list string) :
  loopInv s -> tasks s = [Returning (g :: rest)] -> closed (ing s) = false ->
  exists st,
    getSourceTypeForFile (watchedPaths (ing s)) g = Ok (Some st)
    /\ step (PassResumes 0) s
       = {| ing := ing s; dbOpen := dbOpen s;
            tasks := [Reading g st
                        (default 0 (byteOffset <$> getTrackedFile (db (ing s)) g)) rest];
            closing := closing s; ingested := ingested s ++ [g] |}.
Proof.
  intros (_ & _ & _ & H4 & H5) Ht Hc. destruct (H5 Hc) as [Ho _].
  rewrite Ht in H4. cbn [fmap list_fmap concat taskFiles] in H4.
  assert (Hg : callsIngest (ing s) g = true).
  { apply (proj1 (Forall_forall _ _) H4). rewrite !elem_of_app, elem_of_cons. tauto. }
  unfold callsIngest in Hg.
  destruct (getSourceTypeForFile (watchedPaths (ing s)) g) as [[st|]|] eqn:Hst; try done.
  exists st. split; [done|].
  cbn [step]. rewrite Ht. cbn [lookup list_lookup]. rewrite Ho.
  by rewrite (runLoop_next _ g st).
Qed.

(** The pass has visited its last file: it ends, and arms the timer when
    paths have become pending meanwhile. *)
Lemma pass_finishes (s : Sys) :
  tasks s = [Returning []] ->
  step (PassResumes 0) s
  = {| ing := setIngestTimer
                (ingestTimer (ing s)
                 || negb (bool_decide (pendingFiles (ing s) = [])) && negb (closed (ing s)))
                (setProcessing false (ing s));
       dbOpen := dbOpen s; tasks := []; closing := closing s; ingested := ingested s |}.
Proof.
  intros Ht. cbn [step]. rewrite Ht. cbn [lookup list_lookup].
  rewrite runLoop_nil, processFinally_eq. cbn [fst]. by rewrite app_nil_r.
Qed.

Lemma notify_burst (s : Sys) (p : string) (kinds : list ChangeKind) :
  watcher (ing s) = true -> callsIngest (ing s) p = true ->
  pendingFiles (ing s) = [] \/ (pendingFiles (ing s) = [p] /\ ingestTimer (ing s) = true) ->
  kinds <> [] -> Unlink ∉ kinds ->
  run (map (fun kind => Notify kind p) kinds) s
  = {| ing := setIngestTimer true (setPendingFiles [p] (ing s)); dbOpen := dbOpen s;
       tasks := tasks s; closing := closing s; ingested := ingested s |}.
Proof.
  intros Hw Hp Hpend Hne Hun. revert s Hw Hp Hpend.
  induction kinds as [|kind kinds IH]; intros s Hw Hp Hpend; [done|].
  assert (Hstep : step (Notify kind p) s
                  = {| ing := setIngestTimer true (setPendingFiles [p] (ing s));
                       dbOpen := dbOpen s; tasks := tasks s; closing := closing s;
                       ingested := ingested s |}).
  { destruct s as [[d wps bs w pend timer proc cl] o ts c log].
    cbn in Hw, Hp, Hpend. subst w.
    cbn [step ing watcher watchedPaths]. unfold emitEvent.
    unfold callsIngest in Hp. cbn [watchedPaths] in Hp.
    destruct (getSourceTypeForFile wps p) as [[st|]|]; try done.
    assert (kind <> Unlink) by (intros ->; apply Hun; by left).
    unfold withIng, onFileChange, scheduleIngest; monad_unfold.
    destruct Hpend as [-> | [-> ->]]; destruct kind; try done; cbn.
    all: try (by destruct timer).
    all: unfold setAdd; by rewrite bool_decide_eq_true_2 by (by left). }
  cbn [map run foldl]. fold (run (map (fun kind => Notify kind p) kinds) (step (Notify kind p) s)).
  rewrite Hstep. destruct kinds as [|kind' kinds]; [done|].
  rewrite IH; [done | done | | done | done | by right].
  intros Hin. apply Hun. by right.
Qed.

Lemma fire_starts_pass (s : Sys) (p : string) (ps : list string) (st : SourceType) :
  ingestTimer (ing s) = true -> closed (ing s) = false ->
  processing (ing s) = false -> dbOpen s = true -> pendingFiles (ing s) = p :: ps ->
  getSourceTypeForFile (watchedPaths (ing s)) p = Ok (Some st) ->
  step TimerFires s
  = {| ing := setPendingFiles [] (setProcessing true (setIngestTimer false (ing s)));
       dbOpen := true;
       tasks := tasks s ++ [Reading p st
                              (default 0 (byteOffset <$> getTrackedFile (db (ing s)) p)) ps];
       closing := closing s; ingested := ingested s ++ [p] |}.
Proof.
  intros Ht Hc Hp Ho Hpend Hst. rewrite step_timer, Ht, Hc, Hp, Ho, Hpend. cbn [orb].
  by rewrite (runLoop_next _ p st).
Qed.

Lemma notify_step (s : Sys) (kind : ChangeKind) (q : string) (st : SourceType) :
  watcher (ing s) = true -> kind <> Unlink ->
  getSourceTypeForFile (watchedPaths (ing s)) q = Ok (Some st) ->
  step (Notify kind q) s
  = {| ing := setIngestTimer true
                (setPendingFiles (setAdd q (pendingFiles (ing s))) (ing s));
       dbOpen := dbOpen s; tasks := tasks s; closing := closing s;
       ingested := ingested s |}.
Proof.
  intros Hw Hk Hst. cbn [step]. rewrite Hw. unfold emitEvent. rewrite Hst.
  unfold withIng, onFileChange, scheduleIngest. monad_unfold.
  destruct s as [[d wps bs w pend timer proc cl] o ts c log].
  destruct kind; try done; cbn; by destruct timer.
Qed.

(** One debounced pass over one pending file, with nothing arriving
    meanwhile: the state it leaves is that of [ingestFile] on the file as the
    read saw it. *)
Lemma debounced_pass (s : Sys) (p : string) (st : SourceType)
    (fs : gmap string string) (now : Z) :
  tasks s = [] -> ingestTimer (ing s) = true -> closed (ing s) = false ->
  processing (ing s) = false -> dbOpen s = true -> pendingFiles (ing s) = [p] ->
  getSourceTypeForFile (watchedPaths (ing s)) p = Ok (Some st) ->
  run [TimerFires; ReadCompletes 0 fs now; PassResumes 0] s
  = {| ing := setIngestTimer false
                (setPendingFiles [] (fst (ingestFile fs now p st (ing s))));
       dbOpen := true; tasks := []; closing := closing s;
       ingested := ingested s ++ [p] |}.
Proof.
  intros Hts Ht Hc Hp Ho Hpend Hst. unfold run. cbn [foldl].
  rewrite (fire_starts_pass s p [] st) by done. rewrite Hts. cbn [app].
  erewrite read_completes by reflexivity. cbn [dbOpen ing closing ingested].
  erewrite pass_finishes by reflexivity. cbn [dbOpen ing closing ingested].
  rewrite (ingestFile_resume fs now p st (ing s)) by done.
  rewrite ingestFileResume_only_db.
  rewrite (ingestFileResume_only_db fs now p st _ (ing s)).
  rewrite (ingestFileResume_db fs now p st _ _ (ing s)) by done.
  destruct s as [[d wps bs w pend timer proc cl] o ts c log].
  cbn in *. subst. reflexivity.
Qed.

(** The same pass with a notification for [q] arriving while the file is
    read: [q] is pending and the timer armed when the pass has ended. *)
Lemma pass_with_arrival (s : Sys) (p q : string) (st stq : SourceType)
    (kind : ChangeKind) (fs : gmap string string) (now : Z) :
  tasks s = [] -> ingestTimer (ing s) = true -> closed (ing s) = false ->
  processing (ing s) = false -> dbOpen s = true -> pendingFiles (ing s) = [p] ->
  watcher (ing s) = true -> kind <> Unlink ->
  getSourceTypeForFile (watchedPaths (ing s)) p = Ok (Some st) ->
  getSourceTypeForFile (watchedPaths (ing s)) q = Ok (Some stq) ->
  run [TimerFires; Notify kind q; ReadCompletes 0 fs now; PassResumes 0] s
  = {| ing := setIngestTimer true
                (setPendingFiles [q] (fst (ingestFile fs now p st (ing s))));
       dbOpen := true; tasks := []; closing := closing s;
       ingested := ingested s ++ [p] |}.
Proof.
  intros Hts Ht Hc Hp Ho Hpend Hw Hk Hst Hstq. unfold run. cbn [foldl].
  rewrite (fire_starts_pass s p [] st) by done. rewrite Hts. cbn [app].
  rewrite (notify_step _ kind q stq) by done.
  cbn [dbOpen ing closing ingested tasks].
  erewrite read_completes by reflexivity. cbn [dbOpen ing closing ingested].
  erewrite pass_finishes by reflexivity. cbn [dbOpen ing closing ingested].
  rewrite (ingestFile_resume fs now p st (ing s)) by done.
  rewrite ingestFileResume_only_db.
  rewrite (ingestFileResume_only_db fs now p st _ (ing s)).
  rewrite (ingestFileResume_db fs now p st _ _ (ing s)) by done.
  destruct s as [[d wps bs w pend timer proc cl] o ts c log].
  cbn in *. subst. reflexivity.
Qed.

(** What a pass stores is what the tail reader has returned to it: the rows
    of the events of all the lines read, and the cursor and size of the
    read. *)
Lemma ingestFile_stores_read (fs : gmap string string) (now : Z) (path : string)
    (st : SourceType) (evs : list ParsedEvent) (i : Ingestor) :
  closed i = false -> journal (db i) = None ->
  parseLines now (getParser st) (TailReader.nl_lines (passRead fs path i)) path = Ok evs ->
  batchFails now (events (db i)) evs = false ->
  events (db (fst (ingestFile fs now path st i)))
  = events (db i) ++ map (rowOf now) evs
  /\ (TailReader.nl_lines (passRead fs path i) <> [] ->
      getTrackedFile (db (fst (ingestFile fs now path st i))) path
      = Some {| byteOffset := TailReader.newCursor (passRead fs path i);
                fileSize := TailReader.fileSize (passRead fs path i) |}).
Proof.
  intros Hc Hj Hparse Hok.
  rewrite ingestFile_unfold, Hc. cbn zeta. rewrite Hparse.
  destruct (bool_decide (TailReader.nl_lines (passRead fs path i) = [])) eqn:Hnil.
  { apply bool_decide_eq_true in Hnil. rewrite Hnil in Hparse. cbn in Hparse.
    assert (evs = []) as -> by congruence. cbn. by rewrite app_nil_r. }
  destruct (bool_decide (evs = [])) eqn:Hevs.
  { apply bool_decide_eq_true in Hevs. subst evs. cbn [fst db setDb map].
    split; [cbn; by rewrite app_nil_r|]. intros _.
    exact (updateTrackedFile_lookup now
             {| p_path := path; p_sourceType := st; p_byteOffset := _;
                p_fileSize := _ |} _). }
  rewrite insertEvents_eq.
  rewrite insertBatches_ok; [|done|lia|done|done].
  cbn [fst snd db setDb]. split; [done|]. intros _.
  exact (updateTrackedFile_lookup now
           {| p_path := path; p_sourceType := st; p_byteOffset := _;
              p_fileSize := _ |} _).
Qed.

Lemma run_cons (l : Label) (ls : list Label) (s : Sys) :
  run (l :: ls) s = run ls (step l s).
Proof. reflexivity. Qed.

Lemma idle_flags (i : Ingestor) (d : Db) :
  processing i = false -> pendingFiles i = [] -> ingestTimer i = false ->
  setIngestTimer false (setPendingFiles [] (setDb d i)) = setDb d i.
Proof. destruct i. cbn. by intros -> -> ->. Qed.

Lemma burst_is_one_pass (s : Sys) (p : string) (st : SourceType)
    (kinds : list ChangeKind) (fs : gmap string string) (now : Z) :
  loopInv s -> idle s -> watcher (ing s) = true -> closed (ing s) = false ->
  getSourceTypeForFile (watchedPaths (ing s)) p = Ok (Some st) ->
  kinds <> [] -> Unlink ∉ kinds ->
  run (map (fun kind => Notify kind p) kinds
       ++ [TimerFires; ReadCompletes 0 fs now; PassResumes 0]) s
  = {| ing := fst (ingestFile fs now p st (ing s)); dbOpen := true; tasks := [];
       closing := closing s; ingested := ingested s ++ [p] |}.
Proof.
  intros (_ & _ & _ & _ & H5) (Hts & Hproc & Hpend & Htimer) Hw Hc Hst Hne Hun.
  destruct (H5 Hc) as [Ho _].
  unfold run. rewrite foldl_app.
  fold (run (map (fun kind => Notify kind p) kinds) s).
  rewrite notify_burst; try done; [| by unfold callsIngest; rewrite Hst | by left].
  fold (run [TimerFires; ReadCompletes 0 fs now; PassResumes 0]
          {| ing := setIngestTimer true (setPendingFiles [p] (ing s)); dbOpen := dbOpen s;
             tasks := tasks s; closing := closing s; ingested := ingested s |}).
  rewrite (debounced_pass _ p st) by done.
  cbn [ing closing ingested].
  set (f := fun i => setIngestTimer true (setPendingFiles [p] i)).
  assert (Hf : flagsOnly f) by (intros i; by repeat split).
  change (setIngestTimer true (setPendingFiles [p] (ing s))) with (f (ing s)).
  rewrite (ingestFile_flags f) by done. cbn [fst].
  rewrite ingestFile_only_db. subst f. cbn beta.
  f_equal. rewrite <- (idle_flags (ing s) _ Hproc Hpend Htimer) at 2.
  by destruct (ing s).
Qed.

Lemma arrival_during_pass (s : Sys) (p q : string) (stp stq : SourceType)
    (kind : ChangeKind) (fs1 fs2 : gmap string string) (now1 now2 : Z) :
  loopInv s -> idle s -> watcher (ing s) = true -> closed (ing s) = false ->
  getSourceTypeForFile (watchedPaths (ing s)) p = Ok (Some stp) ->
  getSourceTypeForFile (watchedPaths (ing s)) q = Ok (Some stq) ->
  kind <> Unlink ->
  let s1 := run [Notify kind p; TimerFires; Notify kind q;
                 ReadCompletes 0 fs1 now1; PassResumes 0] s in
  let s' := run [TimerFires; ReadCompletes 0 fs2 now2; PassResumes 0] s1 in
  s1 = {| ing := setIngestTimer true
                   (setPendingFiles [q] (fst (ingestFile fs1 now1 p stp (ing s))));
          dbOpen := true; tasks := []; closing := closing s;
          ingested := ingested s ++ [p] |}
  /\ s' = {| ing := fst (ingestFile fs2 now2 q stq
                           (fst (ingestFile fs1 now1 p stp (ing s))));
             dbOpen := true; tasks := []; closing := closing s;
             ingested := ingested s ++ [p; q] |}.
Proof.
  intros (_ & _ & _ & _ & H5) (Hts & Hproc & Hpend & Htimer) Hw Hc Hstp Hstq Hk s1 s'.
  destruct (H5 Hc) as [Ho _].
  assert (Hs1 : s1 = {| ing := setIngestTimer true
                   (setPendingFiles [q] (fst (ingestFile fs1 now1 p stp (ing s))));
          dbOpen := true; tasks := []; closing := closing s;
          ingested := ingested s ++ [p] |}).
  { subst s1 s'. rewrite run_cons.
    rewrite (notify_step s kind p stp) by done. rewrite Hpend.
    change (setAdd p []) with [p].
    rewrite (pass_with_arrival _ p q stp stq) by done.
    cbn [ing closing ingested].
    set (f := fun i => setIngestTimer true (setPendingFiles [p] i)).
    assert (Hf : flagsOnly f) by (intros i; by repeat split).
    change (setIngestTimer true (setPendingFiles [p] (ing s))) with (f (ing s)).
    rewrite (ingestFile_flags f) by done. cbn [fst]. by subst f. }
  split; [exact Hs1|]. subst s'. rewrite Hs1.
  pose proof (ingestFile_only_db fs1 now1 p stp (ing s)) as Hi1.
  set (i1 := fst (ingestFile fs1 now1 p stp (ing s))) in *.
  assert (Hflags : closed i1 = false /\ processing i1 = false
                   /\ watchedPaths i1 = watchedPaths (ing s)).
  { rewrite Hi1. cbn. by rewrite Hc, Hproc. }
  destruct Hflags as (Hc1 & Hp1 & Hw1).
  rewrite (debounced_pass _ q stq); try done; try (cbn; by rewrite ?Hc1, ?Hp1, ?Hw1).
  cbn [ing closing ingested].
  set (f := fun i => setIngestTimer true (setPendingFiles [q] i)).
  assert (Hf : flagsOnly f) by (intros i; by repeat split).
  change (setIngestTimer true (setPendingFiles [q] i1)) with (f i1).
  rewrite (ingestFile_flags f) by done. cbn [fst].
  rewrite ingestFile_only_db. subst f. cbn beta.
  rewrite <- app_assoc. cbn [app]. f_equal.
  assert (Hidle1 : processing i1 = false /\ pendingFiles i1 = [] /\ ingestTimer i1 = false).
  { rewrite Hi1. cbn. by rewrite Hproc, Hpend, Htimer. }
  destruct Hidle1 as (? & ? & ?).
  rewrite <- (idle_flags i1 _) at 2 by done.
  by destruct i1.
Qed.

Lemma processFile_flags (f : Ingestor -> Ingestor) (fs : gmap string string) (now : Z)
    (path : string) (i : Ingestor) :
  flagsOnly f ->
  fst (processFile fs now path (f i)) = f (fst (processFile fs now path i)).
Proof.
  intros Hf. rewrite !processFile_eq.
  destruct (Hf i) as (_ & _ & _ & -> & _).
  destruct (getSourceTypeForFile (watchedPaths i) path) as [[st|]|]; try done.
  by rewrite (ingestFile_flags f).
Qed.

Lemma processFile_only_db (fs : gmap string string) (now : Z) (path : string)
    (i : Ingestor) :
  fst (processFile fs now path i) = setDb (db (fst (processFile fs now path i))) i.
Proof.
  rewrite processFile_eq.
  destruct (getSourceTypeForFile (watchedPaths i) path) as [[st|]|];
    cbn [fst]; try (by destruct i).
  apply ingestFile_only_db.
Qed.

Lemma inTurn_flags (f : Ingestor -> Ingestor) (files : list string)
    (reads : list (gmap string string * Z)) (i : Ingestor) :
  flagsOnly f -> inTurn files reads (f i) = f (inTurn files reads i).
Proof.
  intros Hf. unfold inTurn. revert i.
  induction (zip files reads) as [|fr l IH]; intros i; [done|].
  cbn [foldl]. by rewrite processFile_flags, IH.
Qed.

Lemma inTurn_only_db (files : list string) (reads : list (gmap string string * Z))
    (i : Ingestor) :
  inTurn files reads i = setDb (db (inTurn files reads i)) i.
Proof.
  unfold inTurn. revert i.
  induction (zip files reads) as [|fr l IH]; intros i; [by destruct i|].
  cbn [foldl]. rewrite IH at 1. rewrite (processFile_only_db _ _ _ i) at 2.
  by destruct i.
Qed.

Lemma processFile_resume (fs : gmap string string) (now : Z) (f : string)
    (st : SourceType) (i : Ingestor) :
  closed i = false -> getSourceTypeForFile (watchedPaths i) f = Ok (Some st) ->
  fst (processFile fs now f i)
  = fst (ingestFileResume fs now f st
           (default 0 (byteOffset <$> getTrackedFile (db i) f)) i).
Proof.
  intros Hc Hst. rewrite processFile_eq, Hst. cbn [fst].
  by rewrite ingestFile_resume.
Qed.

(** A pass in flight whose reads resolve one after the other, with nothing
    arriving meanwhile, runs the body of the loop on its files in turn. *)
Lemma pass_runs (rest : list string) (reads : list (gmap string string * Z))
    (s : Sys) (f : string) (st : SourceType) :
  tasks s = [Reading f st (default 0 (byteOffset <$> getTrackedFile (db (ing s)) f)) rest] ->
  closed (ing s) = false -> dbOpen s = true ->
  getSourceTypeForFile (watchedPaths (ing s)) f = Ok (Some st) ->
  Forall (fun g => callsIngest (ing s) g = true) rest ->
  length reads = S (length rest) ->
  run (readSteps reads) s
  = {| ing := fst (processFinally (inTurn (f :: rest) reads (ing s)));
       dbOpen := true; tasks := []; closing := closing s;
       ingested := ingested s ++ rest |}.
Proof.
  revert reads s f st.
  induction rest as [|g rest IH]; intros reads s f st Ht Hc Ho Hst Hrest Hlen.
  - destruct reads as [|[fs now] [|r reads]]; try done.
    cbn [readSteps flat_map app]. rewrite !run_cons.
    erewrite read_completes by exact Ht. rewrite Ho.
    erewrite pass_finishes by reflexivity.
    cbn [ing dbOpen closing ingested readSteps flat_map run foldl].
    rewrite processFinally_eq, app_nil_r. cbn [fst].
    unfold inTurn. cbn [zip zip_with foldl fst snd].
    by rewrite (processFile_resume fs now f st).
  - destruct reads as [|[fs now] reads]; [done|].
    cbn [length] in Hlen. apply Nat.succ_inj in Hlen.
    cbn [readSteps flat_map app]. rewrite !run_cons.
    fold (readSteps reads).
    erewrite read_completes by exact Ht. rewrite Ho.
    rewrite <- (processFile_resume fs now f st) by done.
    pose proof (processFile_only_db fs now f (ing s)) as Hi1.
    set (i1 := fst (processFile fs now f (ing s))) in *.
    assert (Hflags : closed i1 = false /\ watchedPaths i1 = watchedPaths (ing s)).
    { rewrite Hi1. by cbn. }
    destruct Hflags as [Hc1 Hw1].
    apply Forall_cons in Hrest as [Hg Hrest].
    unfold callsIngest in Hg.
    destruct (getSourceTypeForFile (watchedPaths (ing s)) g) as [[stg|]|] eqn:Hstg;
      try done.
    assert (Hstep : step (PassResumes 0)
                      {| ing := i1; dbOpen := true; tasks := [Returning (g :: rest)];
                         closing := closing s; ingested := ingested s |}
                    = {| ing := i1; dbOpen := true;
                         tasks := [Reading g stg
                                     (default 0 (byteOffset <$> getTrackedFile (db i1) g))
                                     rest];
                         closing := closing s; ingested := ingested s ++ [g] |}).
    { cbn [step tasks lookup list_lookup ing dbOpen].
      rewrite (runLoop_next i1 g stg) by (by rewrite ?Hw1). reflexivity. }
    rewrite Hstep.
    rewrite (IH reads _ g stg); try done; try (cbn [ing]; by rewrite ?Hw1).
    + cbn [ing closing ingested]. rewrite <- app_assoc. reflexivity.
    + cbn [ing]. eapply Forall_impl; [exact Hrest|].
      intros q Hq. unfold callsIngest in *. by rewrite Hw1.
Qed.

Lemma notify_all (notes : list (ChangeKind * string)) (s : Sys) :
  watcher (ing s) = true ->
  Forall (fun note => note.1 <> Unlink /\ callsIngest (ing s) note.2 = true) notes ->
  run (map (fun note => Notify note.1 note.2) notes) s
  = {| ing := setIngestTimer
                (ingestTimer (ing s) || negb (bool_decide (notes = [])))
                (setPendingFiles
                   (foldl (fun files note => setAdd note.2 files)
                      (pendingFiles (ing s)) notes) (ing s));
       dbOpen := dbOpen s; tasks := tasks s; closing := closing s;
       ingested := ingested s |}.
Proof.
  revert s. induction notes as [|[kind p] notes IH]; intros s Hw Hall.
  - destruct s as [[d wps bs w pend timer proc cl] o ts c log]. cbn.
    by rewrite orb_false_r.
  - apply Forall_cons in Hall as [[Hk Hp] Hall]. cbn [fst snd] in Hk, Hp.
    cbn [map fst snd]. rewrite run_cons. cbn [fst snd].
    unfold callsIngest in Hp.
    destruct (getSourceTypeForFile (watchedPaths (ing s)) p) as [[st|]|] eqn:Hst;
      try done.
    rewrite (notify_step s kind p st) by done.
    rewrite IH; [|done|done].
    cbn [ing dbOpen tasks closing ingested foldl fst snd].
    destruct s as [[d wps bs w pend timer proc cl] o ts c log]. cbn.
    by rewrite orb_true_r.
Qed.

Lemma noted_classified (i : Ingestor) (notes : list (ChangeKind * string))
    (start : list string) :
  Forall (fun note => note.1 <> Unlink /\ callsIngest i note.2 = true) notes ->
  Forall (fun g => callsIngest i g = true) start ->
  Forall (fun g => callsIngest i g = true)
    (foldl (fun files note => setAdd note.2 files) start notes).
Proof.
  revert start. induction notes as [|[kind p] notes IH]; intros start Hall Hstart; [done|].
  apply Forall_cons in Hall as [[_ Hp] Hall]. cbn [foldl fst snd] in *.
  apply IH; [done|].
  apply Forall_forall. intros q [-> | Hq]%setAdd_elem; [done|].
  by apply (proj1 (Forall_forall _ _) Hstart).
Qed.

Lemma noted_nil (notes : list (ChangeKind * string)) : noted notes = [] -> notes = [].
Proof.
  unfold noted. destruct notes as [|[kind p] notes]; [done|]. cbn [foldl fst snd].
  assert (Hne : forall start, start <> [] ->
            foldl (fun files note => setAdd note.2 files) start notes <> []).
  { induction notes as [|n notes IH]; intros start Hs; [done|].
    cbn [foldl]. apply IH, setAdd_nonempty. }
  intros Hnil. by apply (Hne (setAdd p [])) in Hnil; [|apply setAdd_nonempty].
Qed.

(** One debounce window: the notifications of any number of files, then the
    timer, then the reads of the pass. *)
Lemma window_is_one_pass (s : Sys) (notes : list (ChangeKind * string))
    (reads : list (gmap string string * Z)) :
  loopInv s -> idle s -> watcher (ing s) = true -> closed (ing s) = false ->
  Forall (fun note => note.1 <> Unlink /\ callsIngest (ing s) note.2 = true) notes ->
  length reads = length (noted notes) ->
  run (map (fun note => Notify note.1 note.2) notes ++ TimerFires :: readSteps reads) s
  = {| ing := inTurn (noted notes) reads (ing s); dbOpen := true; tasks := [];
       closing := closing s; ingested := ingested s ++ noted notes |}.
Proof.
  intros (_ & _ & _ & _ & H5) (Hts & Hproc & Hpend & Htimer) Hw Hc Hall Hlen.
  destruct (H5 Hc) as [Ho _].
  unfold run. rewrite foldl_app.
  fold (run (map (fun note => Notify note.1 note.2) notes) s).
  rewrite notify_all by done. rewrite Hpend, Htimer. fold (noted notes).
  fold (run (TimerFires :: readSteps reads)
          {| ing := setIngestTimer (false || negb (bool_decide (notes = [])))
                      (setPendingFiles (noted notes) (ing s));
             dbOpen := dbOpen s; tasks := tasks s; closing := closing s;
             ingested := ingested s |}).
  pose proof (noted_classified (ing s) notes [] Hall ltac:(constructor)) as Hcl.
  fold (noted notes) in Hcl.
  destruct (noted notes) as [|f rest] eqn:Hnoted.
  - apply noted_nil in Hnoted. subst notes. destruct reads; [|done].
    rewrite run_cons, step_timer. cbn [ing ingestTimer setIngestTimer orb negb].
    rewrite bool_decide_eq_true_2 by done. cbn [negb run foldl readSteps flat_map].
    rewrite app_nil_r. unfold inTurn. cbn [zip zip_with foldl].
    rewrite Ho. destruct s as [[d wps bs w pend timer proc cl] o ts c log].
    cbn in *. by subst.
  - assert (notes <> []) as Hne by (intros ->; done).
    rewrite (bool_decide_eq_false_2 _ Hne). cbn [orb negb].
    apply Forall_cons in Hcl as [Hf Hrest].
    unfold callsIngest in Hf.
    destruct (getSourceTypeForFile (watchedPaths (ing s)) f) as [[st|]|] eqn:Hst;
      try done.
    rewrite run_cons.
    rewrite (fire_starts_pass _ f rest st) by done.
    cbn [ing closing ingested tasks]. rewrite Hts. cbn [app].
    set (flags := fun i => setPendingFiles [] (setProcessing true (setIngestTimer false
                    (setIngestTimer true (setPendingFiles (f :: rest) i))))).
    assert (Hflags : flagsOnly flags) by (intros i; by repeat split).
    change (setPendingFiles [] _) with (flags (ing s)).
    change (db (setIngestTimer true (setPendingFiles (f :: rest) (ing s))))
      with (db (flags (ing s))).
    rewrite (pass_runs rest reads _ f st); try done; try (by cbn; rewrite ?Hlen).
    cbn [ing closing ingested].
    rewrite (inTurn_flags flags) by done.
    rewrite processFinally_eq, inTurn_only_db. cbn [fst].
    rewrite <- app_assoc. cbn [app]. f_equal.
    subst flags. destruct (ing s) as [d wps bs w pend timer proc cl].
    cbn in *. by subst.
Qed.

Lemma setAdd_NoDup (p : string) (l : list string) : NoDup l -> NoDup (setAdd p l).
Proof.
  intros Hl. unfold setAdd. case_bool_decide as Hin; [done|].
  apply NoDup_app. split; [done|]. split; [|apply NoDup_singleton].
  intros q Hq ->%list_elem_of_singleton. done.
Qed.

Lemma noted_from (notes : list (ChangeKind * string)) (start : list string) :
  (NoDup start ->
   NoDup (foldl (fun files note => setAdd note.2 files) start notes))
  /\ (forall p, p ∈ foldl (fun files note => setAdd note.2 files) start notes
                <-> p ∈ start \/ p ∈ notes.*2).
Proof.
  revert start. induction notes as [|[kind q] notes IH]; intros start.
  - cbn. split; [done|]. intros p. rewrite elem_of_nil. tauto.
  - cbn [foldl fmap list_fmap fst snd]. destruct (IH (setAdd q start)) as [IH1 IH2].
    split; [intros Hs; by apply IH1, setAdd_NoDup|].
    intros p. rewrite IH2, setAdd_elem, elem_of_cons. cbn. tauto.
Qed.

Lemma noted_distinct (notes : list (ChangeKind * string)) :
  NoDup (noted notes) /\ (forall p, p ∈ noted notes <-> p ∈ notes.*2).
Proof.
  destruct (noted_from notes []) as [H1 H2]. split; [apply H1, NoDup_nil_2|].
  intros p. unfold noted. rewrite H2, elem_of_nil. tauto.
Qed.

(** C9. From a quiescent instance whose store is open, along every sequence
    of steps of the event loop (notifications, expiries of the timer, the
    read of a pass resolving, a pass taking up its loop, calls of [close] and
    their continuation):
    - passes never overlap: at most one invocation of the processing pass is
      past its guard, [processing] says whether one is, and the timer that
      expires meanwhile starts no pass and changes neither the pending set
      nor the store;
    - no notification is dropped: a notification of a classified path, other
      than a deletion, leaves the path pending and the timer armed, whatever
      the loop is doing, and takes nothing out of the pending set;
    - pending paths are retained: on an open instance they have the armed
      timer or the pass in flight ahead of them, and a path stays pending
      until the timer starts a pass, which takes the whole pending set;
    - the pass in flight visits its files in turn: when its read resolves the
      second half of [ingestFile] runs, then the pass calls [ingestFile] on
      the next file, and after the last one it ends and arms the timer if
      paths are pending;
    - any number of notifications for one file within one debounce window of
      a quiescent instance lead to exactly one call of [ingestFile] for it,
      on the file as it is at the read: the pass stores the rows of all the
      lines that the tail reader returns from the stored cursor, and the
      cursor and size of that read; and on a file that holds complete lines
      from the stored cursor on (within the cap of one read) the tail reader
      returns all of them, up to the end of the file;
    - a path notified while a pass is in flight is pending with the timer
      armed when that pass has ended, and the next cycle ingests it;
    - the notifications of any number of files within one debounce window of
      a quiescent instance lead to one pass, which calls [ingestFile] once
      for each distinct file, in the order of their first notification, each
      on the file as it is at its read. *)
Theorem debounce_cycle (s0 : Sys) (ls : list Label) :
  idle s0 -> dbOpen s0 = true -> closing s0 = None ->
  let s := run ls s0 in
  (length (tasks s) <= 1)%nat
  /\ (processing (ing s) = true <-> tasks s <> [])
  /\ (tasks s <> [] ->
      tasks (step TimerFires s) = tasks s
      /\ pendingFiles (ing (step TimerFires s)) = pendingFiles (ing s)
      /\ ingested (step TimerFires s) = ingested s
      /\ db (ing (step TimerFires s)) = db (ing s))
  /\ (forall kind p st,
        watcher (ing s) = true -> kind <> Unlink ->
        getSourceTypeForFile (watchedPaths (ing s)) p = Ok (Some st) ->
        p ∈ pendingFiles (ing (step (Notify kind p) s))
        /\ ingestTimer (ing (step (Notify kind p) s)) = true
        /\ (forall q, q ∈ pendingFiles (ing s) ->
                      q ∈ pendingFiles (ing (step (Notify kind p) s)))
        /\ tasks (step (Notify kind p) s) = tasks s
        /\ db (ing (step (Notify kind p) s)) = db (ing s))
  /\ (closed (ing s) = false -> pendingFiles (ing s) <> [] ->
      ingestTimer (ing s) = true \/ processing (ing s) = true)
  /\ (forall l p, p ∈ pendingFiles (ing s) ->
        p ∈ pendingFiles (ing (step l s))
        \/ (l = TimerFires /\ tasks s = []
            /\ exists t, tasks (step l s) = [t] /\ taskFiles t = pendingFiles (ing s)))
  /\ (forall f st c rest fs now, tasks s = [Reading f st c rest] ->
        step (ReadCompletes 0 fs now) s
        = {| ing := if dbOpen s then fst (ingestFileResume fs now f st c (ing s))
                    else ing s;
             dbOpen := dbOpen s; tasks := [Returning rest]; closing := closing s;
             ingested := ingested s |})
  /\ (forall g rest, tasks s = [Returning (g :: rest)] -> closed (ing s) = false ->
        exists st,
          getSourceTypeForFile (watchedPaths (ing s)) g = Ok (Some st)
          /\ step (PassResumes 0) s
             = {| ing := ing s; dbOpen := dbOpen s;
                  tasks := [Reading g st
                              (default 0 (byteOffset <$> getTrackedFile (db (ing s)) g))
                              rest];
                  closing := closing s; ingested := ingested s ++ [g] |})
  /\ (tasks s = [Returning []] ->
        step (PassResumes 0) s
        = {| ing := setIngestTimer
                      (ingestTimer (ing s)
                       || negb (bool_decide (pendingFiles (ing s) = []))
                          && negb (closed (ing s)))
                      (setProcessing false (ing s));
             dbOpen := dbOpen s; tasks := []; closing := closing s;
             ingested := ingested s |})
  /\ (forall p st kinds fs now,
        idle s -> watcher (ing s) = true -> closed (ing s) = false ->
        getSourceTypeForFile (watchedPaths (ing s)) p = Ok (Some st) ->
        kinds <> [] -> Unlink ∉ kinds ->
        let s' := run (map (fun kind => Notify kind p) kinds
                       ++ [TimerFires; ReadCompletes 0 fs now; PassResumes 0]) s in
        ingested s' = ingested s ++ [p]
        /\ idle s'
        /\ ing s' = fst (ingestFile fs now p st (ing s))
        /\ (forall evs,
              journal (db (ing s)) = None ->
              parseLines now (getParser st)
                (TailReader.nl_lines (passRead fs p (ing s))) p = Ok evs ->
              batchFails now (events (db (ing s))) evs = false ->
              events (db (ing s')) = events (db (ing s)) ++ map (rowOf now) evs
              /\ (TailReader.nl_lines (passRead fs p (ing s)) <> [] ->
                  getTrackedFile (db (ing s')) p
                  = Some {| byteOffset := TailReader.newCursor (passRead fs p (ing s));
                            fileSize := TailReader.fileSize (passRead fs p (ing s)) |}))
        /\ (forall before lines,
              fs !! p = Some (before +:+ unlines lines) ->
              before = "" \/ endsWith before nl = true ->
              Forall (fun l => includes l nl = false) lines ->
              Z.of_nat (String.length (unlines lines)) <= TailReader.DEFAULT_MAX_BYTES ->
              default 0 (byteOffset <$> getTrackedFile (db (ing s)) p)
              = Z.of_nat (String.length before) ->
              passRead fs p (ing s)
              = {| TailReader.nl_lines := lines;
                   TailReader.newCursor :=
                     Z.of_nat (String.length (before +:+ unlines lines));
                   TailReader.fileSize :=
                     Z.of_nat (String.length (before +:+ unlines lines));
                   TailReader.nl_reset := false |}))
  /\ (forall p q stp stq kind fs1 now1 fs2 now2,
        idle s -> watcher (ing s) = true -> closed (ing s) = false ->
        getSourceTypeForFile (watchedPaths (ing s)) p = Ok (Some stp) ->
        getSourceTypeForFile (watchedPaths (ing s)) q = Ok (Some stq) ->
        kind <> Unlink ->
        let s1 := run [Notify kind p; TimerFires; Notify kind q;
                       ReadCompletes 0 fs1 now1; PassResumes 0] s in
        let s' := run [TimerFires; ReadCompletes 0 fs2 now2; PassResumes 0] s1 in
        tasks s1 = [] /\ pendingFiles (ing s1) = [q] /\ ingestTimer (ing s1) = true
        /\ ingested s1 = ingested s ++ [p]
        /\ db (ing s1) = db (fst (ingestFile fs1 now1 p stp (ing s)))
        /\ ingested s' = ingested s ++ [p; q]
        /\ idle s'
        /\ ing s' = fst (ingestFile fs2 now2 q stq
                           (fst (ingestFile fs1 now1 p stp (ing s)))))
  /\ (forall notes reads,
        idle s -> watcher (ing s) = true -> closed (ing s) = false ->
        Forall (fun note => note.1 <> Unlink /\ callsIngest (ing s) note.2 = true) notes ->
        length reads = length (noted notes) ->
        let s' := run (map (fun note => Notify note.1 note.2) notes
                       ++ TimerFires :: readSteps reads) s in
        NoDup (noted notes)
        /\ (forall p, p ∈ noted notes <-> p ∈ notes.*2)
        /\ ingested s' = ingested s ++ noted notes
        /\ idle s'
        /\ ing s' = inTurn (noted notes) reads (ing s)).
Proof.
  intros Hidle Hopen Hclosing s.
  assert (Hinv : loopInv s) by (by apply run_inv, idle_inv).
  pose proof Hinv as (H1 & H2 & H3 & H4 & H5).
  split; [done|]. split; [done|]. split; [by apply timer_during_pass|].
  split; [intros; by eapply notification_is_queued|].
  split; [done|]. split; [intros; by apply pending_is_kept|].
  split; [intros; by apply read_completes|].
  split; [intros; by apply pass_takes_next|].
  split; [intros; by apply pass_finishes|].
  split; [|split].
  - intros p st kinds fs now Hs Hw Hcl Hst Hne Hun s'.
    assert (Hs' : s' = {| ing := fst (ingestFile fs now p st (ing s)); dbOpen := true;
                          tasks := []; closing := closing s;
                          ingested := ingested s ++ [p] |})
      by (by apply burst_is_one_pass).
    rewrite Hs'. cbn [ingested ing tasks]. split; [done|].
    destruct Hs as (Hts & Hproc & Hpend & Htimer).
    split.
    { unfold idle. cbn [tasks ing]. rewrite ingestFile_only_db. cbn.
      by rewrite Hproc, Hpend, Htimer. }
    split; [done|]. split.
    + intros evs Hj Hparse Hok.
      by apply (ingestFile_stores_read fs now p st evs (ing s)).
    + intros before lines Hfile Hbefore Hlines Hcap Hoff.
      by apply passRead_appended.
  - intros p q stp stq kind fs1 now1 fs2 now2 Hs Hw Hcl Hstp Hstq Hk s1 s'.
    destruct (arrival_during_pass s p q stp stq kind fs1 fs2 now1 now2)
      as [Hs1 Hs']; try done.
    fold s1 in Hs1. fold s1 s' in Hs'.
    rewrite Hs', Hs1. cbn [tasks ing ingested pendingFiles ingestTimer setIngestTimer
                           setPendingFiles db].
    destruct Hs as (Hts & Hproc & Hpend & Htimer).
    repeat split; try done.
    all: rewrite ingestFile_only_db; cbn;
      rewrite (ingestFile_only_db fs1 now1 p stp (ing s)); cbn; done.
  - intros notes reads Hs Hw Hcl Hall Hlen s'.
    destruct (noted_distinct notes) as [Hnodup Helem].
    split; [done|]. split; [done|].
    assert (Hs' : s' = {| ing := inTurn (noted notes) reads (ing s); dbOpen := true;
                          tasks := []; closing := closing s;
                          ingested := ingested s ++ noted notes |})
      by (by apply window_is_one_pass).
    rewrite Hs'. cbn [ingested ing tasks]. split; [done|].
    destruct Hs as (Hts & Hproc & Hpend & Htimer).
    split; [|done].
    unfold idle. cbn [tasks ing]. rewrite inTurn_only_db. cbn.
    by rewrite Hproc, Hpend, Htimer.
Qed.

Lemma runLoop_db (i : Ingestor) (open : bool) (files : list string) :
  db (fst (fst (runLoop i open files))) = db i
  /\ batchSize (fst (fst (runLoop i open files))) = batchSize i
  /\ closed (fst (fst (runLoop i open files))) = closed i.
Proof.
  unfold runLoop.
  destruct (processLoop i open files) as [[[t|]|] called]; cbn [fst]; try done;
    by rewrite processFinally_eq.
Qed.

Lemma single_task (ts : list Task) (n : nat) (t : Task) :
  (length ts <= 1)%nat -> ts !! n = Some t -> ts = [t] /\ n = 0%nat.
Proof.
  destruct ts as [|t' [|t'' ts]]; cbn; intros Hlen Hn; [done| |lia].
  destruct n; [|done]. cbn in Hn. by simplify_eq.
Qed.

Lemma closed_step (l : Label) (s : Sys) (d : Db) :
  closed (ing s) = true -> (length (tasks s) <= 1)%nat ->
  closed (ing (step l s)) = true
  /\ (length (tasks (step l s)) <= 1)%nat
  /\ ingested (step l s) = ingested s
  /\ (mayHold (step l s) d -> mayHold s d).
Proof.
  intros Hc Hlen.
  assert (Hsame : forall s1 : Sys,
            db (ing s1) = db (ing s) -> batchSize (ing s1) = batchSize (ing s) ->
            tasks s1 = tasks s -> (dbOpen s1 = true -> dbOpen s = true) ->
            mayHold s1 d -> mayHold s d).
  { intros s1 Hdb Hbs Hts Ho [-> | (f & st & c & rest & fs & now & Ht & Ho1 & ->)].
    - by left.
    - right. exists f, st, c, rest, fs, now. rewrite <- Hts. split; [done|].
      split; [by apply Ho|]. by apply ingestFileResume_db. }
  destruct l as [kind path | | n fs now | n | | ].
  - cbn [step]. destruct (watcher (ing s)); [|done].
    destruct (emitEvent _ _ _) as [event|]; [|done].
    unfold withIng, onFileChange, scheduleIngest. monad_unfold.
    destruct (fc_eventType event); cbn [ing ingested tasks fst]; try done.
    all: destruct (ingestTimer _) eqn:Ht; cbn [ing ingested tasks fst];
      (split; [done|]); (split; [done|]); (split; [done|]); by apply Hsame.
  - rewrite step_timer. destruct (ingestTimer (ing s)); [|done].
    rewrite Hc. cbn [orb ing tasks ingested closed setIngestTimer].
    split; [done|]. split; [done|]. split; [done|]. by apply Hsame.
  - cbn [step].
    destruct (tasks s !! n) as [[f st c rest|rest]|] eqn:Hn; try done.
    destruct (single_task _ _ _ Hlen Hn) as [Hts ->].
    rewrite Hts. cbn [ing tasks ingested list_insert insert].
    split.
    { destruct (dbOpen s); [|done]. by rewrite ingestFileResume_only_db. }
    split; [done|]. split; [done|].
    intros [-> | (f' & st' & c' & rest' & fs' & now' & Ht & _)]; [|done].
    cbn [ing]. destruct (dbOpen s) eqn:Ho; [|by left].
    right. by exists f, st, c, rest, fs, now.
  - cbn [step].
    destruct (tasks s !! n) as [[f st c rest|rest]|] eqn:Hn; try done.
    destruct (single_task _ _ _ Hlen Hn) as [Hts ->].
    rewrite runLoop_closed by done. rewrite Hts.
    cbn [ing tasks ingested closed setProcessing]. rewrite app_nil_r.
    split; [done|]. split; [cbn; lia|]. split; [done|].
    intros [-> | (f' & st' & c' & rest' & fs' & now' & Ht & _)]; [by left|done].
  - rewrite step_close, Hc. by repeat split.
  - cbn [step]. destruct (closing s) as [[]|]; cbn [ing tasks ingested closed setWatcher];
      (split; [done|]); (split; [done|]); (split; [done|]); try done.
    all: by apply Hsame.
Qed.

Lemma closed_run (ls : list Label) (s : Sys) :
  closed (ing s) = true -> (length (tasks s) <= 1)%nat ->
  closed (ing (run ls s)) = true
  /\ ingested (run ls s) = ingested s
  /\ mayHold s (db (ing (run ls s))).
Proof.
  revert s. induction ls as [|l ls IH]; intros s Hc Hlen.
  - repeat split; try done. by left.
  - rewrite run_cons.
    destruct (closed_step l s (db (ing (run ls (step l s)))) Hc Hlen)
      as (Hc1 & Hlen1 & Hin1 & Hback).
    destruct (IH (step l s) Hc1 Hlen1) as (Hc2 & Hin2 & Hhold).
    split; [done|]. split; [by rewrite Hin2|]. by apply Hback.
Qed.

Lemma released_step (l : Label) (s : Sys) :
  dbOpen s = false ->
  dbOpen (step l s) = false /\ db (ing (step l s)) = db (ing s).
Proof.
  intros Ho. destruct l as [kind path | | n fs now | n | | ].
  - cbn [step]. destruct (watcher (ing s)); [|done].
    destruct (emitEvent _ _ _) as [event|]; [|done].
    unfold withIng, onFileChange, scheduleIngest. monad_unfold.
    destruct (fc_eventType event); cbn [ing dbOpen fst]; try done.
    all: by destruct (ingestTimer _).
  - rewrite step_timer. destruct (ingestTimer (ing s)); [|done].
    destruct (_ || _); [done|].
    pose proof (runLoop_db (setPendingFiles [] (setProcessing true
                  (setIngestTimer false (ing s)))) (dbOpen s) (pendingFiles (ing s)))
      as (Hdb & _).
    destruct (runLoop _ _ _) as [[i' t] called]. cbn [fst] in Hdb.
    cbn [dbOpen ing]. by rewrite Hdb.
  - cbn [step]. destruct (tasks s !! n) as [[f st c rest|rest]|]; try done.
    cbn [dbOpen ing]. by rewrite Ho.
  - cbn [step]. destruct (tasks s !! n) as [[f st c rest|rest]|]; try done.
    pose proof (runLoop_db (ing s) (dbOpen s) rest) as (Hdb & _).
    destruct (runLoop _ _ _) as [[i' t] called]. cbn [fst] in Hdb.
    cbn [dbOpen ing]. by rewrite Hdb.
  - rewrite step_close. by destruct (closed (ing s)).
  - cbn [step]. by destruct (closing s) as [[]|].
Qed.

Lemma released_run (ls : list Label) (s : Sys) :
  dbOpen s = false -> db (ing (run ls s)) = db (ing s).
Proof.
  revert s. induction ls as [|l ls IH]; intros s Ho; [done|].
  rewrite run_cons. destruct (released_step l s Ho) as [Ho1 Hdb1].
  by rewrite IH, Hdb1.
Qed.

(** X29. Once [close] has been called, the instance stays closed and no pass
    calls [ingestFile] any more, whatever steps the event loop takes.  The
    store is written at most once more: by the pass whose read was in flight
    at the call, if the read resolves before the store handle is released.
    Once the handle is released, the store does not change. *)
Theorem close_stops_ingestion (s : Sys) (ls : list Label) :
  (length (tasks s) <= 1)%nat ->
  let s' := run (CloseCalled :: ls) s in
  closed (ing s') = true
  /\ ingested s' = ingested s
  /\ (db (ing s') = db (ing s)
      \/ exists f st c rest fs now,
           tasks s = [Reading f st c rest] /\ dbOpen s = true
           /\ db (ing s') = db (fst (ingestFileResume fs now f st c (ing s))))
  /\ (dbOpen s' = false -> forall ls', db (ing (run ls' s')) = db (ing s')).
Proof.
  intros Hlen s'. subst s'. rewrite run_cons.
  assert (Hstep : closed (ing (step CloseCalled s)) = true
                  /\ tasks (step CloseCalled s) = tasks s
                  /\ ingested (step CloseCalled s) = ingested s
                  /\ dbOpen (step CloseCalled s) = dbOpen s
                  /\ db (ing (step CloseCalled s)) = db (ing s)
                  /\ batchSize (ing (step CloseCalled s)) = batchSize (ing s)).
  { rewrite step_close. by destruct (closed (ing s)) eqn:Hc. }
  destruct Hstep as (Hc1 & Hts1 & Hin1 & Ho1 & Hdb1 & Hbs1).
  destruct (closed_run ls (step CloseCalled s) Hc1) as (Hc2 & Hin2 & Hhold).
  { by rewrite Hts1. }
  split; [done|]. split; [by rewrite Hin2|]. split.
  - destruct Hhold as [-> | (f & st & c & rest & fs & now & Ht & Ho & ->)].
    + by left.
    + right. exists f, st, c, rest, fs, now.
      rewrite <- Hts1, <- Ho1. split; [done|]. split; [done|].
      by apply ingestFileResume_db.
  - intros Ho ls'. by apply released_run.
Qed.

Lemma step_quiet (l : Label) (s : Sys) :
  idle s -> quiet l = true -> step l s = s.
Proof.
  intros (Ht & _ & _ & Htimer) Hq.
  destruct l as [[] path| |n fs now|n| |]; try done; cbn [step].
  - destruct (watcher (ing s)); [|done].
    unfold emitEvent. destruct (getSourceTypeForFile _ _) as [[st|]|]; try done.
    unfold withIng, onFileChange. cbn. by destruct s.
  - by rewrite Htimer.
  - by rewrite Ht.
  - by rewrite Ht.
Qed.

(** X30. In a quiescent event loop, notifications of deleted files, timer
    expiries and resumptions change nothing: a deletion queues no file and
    arms no timer, and the tracked record and the events of a deleted file
    stay. *)
Theorem deletions_and_idle_timers_change_nothing (s : Sys) (ls : list Label) :
  idle s -> forallb quiet ls = true -> run ls s = s.
Proof.
  intros Hidle. induction ls as [|l ls IH]; [done|].
  cbn [forallb]. intros [Hq Hls]%andb_true_iff.
  rewrite run_cons, (step_quiet l s Hidle Hq). by apply IH.
Qed.

End LoopInv.

(** *** Instances on the reference host and engine *)

Lemma debounce_cycle_witness :
  let s' := @run Ref.host Ref.engine
              (map (fun kind => Notify kind tracePath) [Add; Change; Change]
               ++ [TimerFires; ReadCompletes 0 traceFs 1000; PassResumes 0]) watching in
  ingested s' = ingested watching ++ [tracePath]
  /\ idle s'
  /\ ing s' = fst (@ingestFile Ref.host Ref.engine traceFs 1000 tracePath CacheTrace
                     (ing watching))
  /\ (events (db (ing s'))
      = events (db (ing watching)) ++ map (rowOf 1000) [loadedEvent tracePath loadedLine]
      /\ (TailReader.nl_lines (passRead traceFs tracePath (ing watching)) <> [] ->
          getTrackedFile (db (ing s')) tracePath
          = Some {| byteOffset :=
                      TailReader.newCursor (passRead traceFs tracePath (ing watching));
                    fileSize :=
                      TailReader.fileSize (passRead traceFs tracePath (ing watching)) |}))
  /\ passRead traceFs tracePath (ing watching)
     = {| TailReader.nl_lines := [loadedLine];
          TailReader.newCursor := Z.of_nat (String.length ("" +:+ unlines [loadedLine]));
          TailReader.fileSize := Z.of_nat (String.length ("" +:+ unlines [loadedLine]));
          TailReader.nl_reset := false |}.
Proof.
  assert (Hidle : idle watching) by (repeat split; reflexivity).
  destruct (@debounce_cycle Ref.host Ref.engine watching [] Hidle eq_refl eq_refl)
    as (_ & _ & _ & _ & _ & _ & _ & _ & _ & Hburst & _).
  destruct (Hburst tracePath CacheTrace [Add; Change; Change] traceFs 1000)
    as (Hlog & Hquiet & Hing & Hrows & Hread).
  - exact Hidle.
  - reflexivity.
  - reflexivity.
  - vm_compute. reflexivity.
  - discriminate.
  - intros Hin. repeat (apply elem_of_cons in Hin as [Hin | Hin]; [discriminate |]).
    by apply elem_of_nil in Hin.
  - split; [exact Hlog|]. split; [exact Hquiet|]. split; [exact Hing|]. split.
    + apply (Hrows [loadedEvent tracePath loadedLine]).
      * reflexivity.
      * vm_compute. reflexivity.
      * vm_compute. reflexivity.
    + apply (Hread "" [loadedLine]).
      * vm_compute. reflexivity.
      * by left.
      * repeat constructor.
      * vm_compute. discriminate.
      * reflexivity.
Defined.

Example three_notifications_one_pass :
  let s' := @run Ref.host Ref.engine
              [Notify Add tracePath; Notify Change tracePath; Notify Change tracePath;
               TimerFires; ReadCompletes 0 traceFs 1000; PassResumes 0] watching in
  ingested s' = [tracePath]
  /\ length (events (db (ing s'))) = 1%nat
  /\ getTrackedFile (db (ing s')) tracePath
     = Some {| byteOffset := 102; fileSize := 102 |}.
Proof. vm_compute. repeat split; reflexivity. Qed.

(** Two files are notified within one window: one pass reads each of them
    once, in the order of their first notification. *)
Example two_files_one_window :
  let logFs : gmap string string := {[ logPath := warnLine +:+ nl ]} in
  let s' := @run Ref.host Ref.engine
              [Notify Add tracePath; Notify Add logPath; Notify Change tracePath;
               TimerFires; ReadCompletes 0 traceFs 1000; PassResumes 0;
               ReadCompletes 0 logFs 2000; PassResumes 0] watching in
  ingested s' = [tracePath; logPath]
  /\ map r_source_type (events (db (ing s'))) = [CacheTrace; SystemLog]
  /\ tasks s' = [] /\ pendingFiles (ing s') = [] /\ ingestTimer (ing s') = false.
Proof. vm_compute. repeat split; reflexivity. Qed.

(** A notification for the system log arrives while the trace is read: it is
    taken up by the next cycle. *)
Example arrival_is_processed_next :
  let logFs : gmap string string := {[ logPath := warnLine +:+ nl ]} in
  let s1 := @run Ref.host Ref.engine
              [Notify Change tracePath; TimerFires; Notify Add logPath;
               ReadCompletes 0 traceFs 1000; PassResumes 0] watching in
  let s2 := @run Ref.host Ref.engine
              [TimerFires; ReadCompletes 0 logFs 2000; PassResumes 0] s1 in
  pendingFiles (ing s1) = [logPath] /\ ingestTimer (ing s1) = true
  /\ ingested s1 = [tracePath]
  /\ ingested s2 = [tracePath; logPath]
  /\ map r_source_type (events (db (ing s2))) = [CacheTrace; SystemLog]
  /\ pendingFiles (ing s2) = [] /\ ingestTimer (ing s2) = false.
Proof. vm_compute. repeat split; reflexivity. Qed.

Example pass_is_in_flight :
  @run Ref.host Ref.engine [Notify Add tracePath; TimerFires] watching = inFlight.
Proof. vm_compute. reflexivity. Qed.

Lemma close_stops_ingestion_witness :
  let s' := @run Ref.host Ref.engine
              (CloseCalled :: [ReadCompletes 0 traceFs 1000; PassResumes 0; CloseResumes;
                               CloseResumes; Notify Change tracePath; TimerFires])
              inFlight in
  closed (ing s') = true
  /\ ingested s' = ingested inFlight
  /\ (db (ing s') = db (ing inFlight)
      \/ exists f st c rest fs now,
           tasks inFlight = [Reading f st c rest] /\ dbOpen inFlight = true
           /\ db (ing s')
              = db (fst (@ingestFileResume Ref.host Ref.engine fs now f st c (ing inFlight))))
  /\ (dbOpen s' = false ->
      forall ls', db (ing (@run Ref.host Ref.engine ls' s')) = db (ing s')).
Proof.
  apply (@close_stops_ingestion Ref.host Ref.engine inFlight
           [ReadCompletes 0 traceFs 1000; PassResumes 0; CloseResumes; CloseResumes;
            Notify Change tracePath; TimerFires]).
  cbn. lia.
Defined.

(** [close] is called while the trace is read.  When the read resolves before
    the handle is released, the pass writes its row to the store of the
    closed instance; when the handle is released first, nothing is written.
    In both cases the pass ends there. *)
Example read_in_flight_at_close :
  let early := @run Ref.host Ref.engine
                 [CloseCalled; ReadCompletes 0 traceFs 1000; PassResumes 0;
                  CloseResumes; CloseResumes] inFlight in
  let late := @run Ref.host Ref.engine
                [CloseCalled; CloseResumes; CloseResumes;
                 ReadCompletes 0 traceFs 1000; PassResumes 0] inFlight in
  closed (ing early) = true /\ length (events (db (ing early))) = 1%nat
  /\ closed (ing late) = true /\ events (db (ing late)) = []
  /\ tasks early = [] /\ tasks late = []
  /\ dbOpen early = false /\ dbOpen late = false
  /\ watcher (ing early) = false.
Proof. vm_compute. repeat split; reflexivity. Qed.

Lemma deletions_and_idle_timers_change_nothing_witness :
  @run Ref.host Ref.engine
    [Notify Unlink tracePath; TimerFires; ReadCompletes 0 traceFs 5; PassResumes 0;
     Notify Unlink logPath]
    watching
  = watching.
Proof.
  apply (@deletions_and_idle_timers_change_nothing Ref.host Ref.engine watching
           [Notify Unlink tracePath; TimerFires; ReadCompletes 0 traceFs 5; PassResumes 0;
            Notify Unlink logPath]).
  - repeat split; reflexivity.
  - reflexivity.
Defined.
